(** * A TOTP authenticator worker: Base32 decoding, HOTP truncation,
      counter encoding and otpauth URL parsing

    Shallow embedding of [base32ToBytes], the [TOTP] class and
    [parseOtpAuthUrl] of [_worker.js], with the parts of the JavaScript
    host they rely on ([String.prototype] methods, 32-bit integer
    operators, [DataView], [Number.prototype.toString],
    [decodeURIComponent]).  Platform services the worker only calls
    (the Unicode case table, [crypto.subtle], the [URL] constructor) are
    parameters of the development.

    The second half covers [handleRequest] and [appHtml] over a KV
    namespace given by its four operations, and [add] and [remove] of
    the script the page carries, with [encodeURIComponent]. *)

From Stdlib Require Import Strings.String Strings.Ascii Strings.Byte.
From Stdlib Require Import ZArith List Bool Lia QArith Qround.
From Stdlib Require Import Permutation Sorted.
Import ListNotations.
Local Open Scope Z_scope.

(* ================================================================== *)
(** ** JavaScript values and operators used by the worker *)
(* ================================================================== *)

Module JS.

(** A string is its sequence of UTF-16 code units. *)
Definition jsstring := list Z.

(** Literals of the source, all ASCII, are written as Rocq strings. *)
Definition str (s : string) : jsstring :=
  map (fun a => Z.of_N (N_of_ascii a)) (list_ascii_of_string s).

(** Thrown values.  [Error_ msg] is [new Error(msg)]; the others are
    raised by built-ins. *)
Inductive exn : Type :=
| Error_ (msg : string)
| TypeError
| URIError
| RangeError
| DataError
| NotSupportedError.

(** The completion of a call: a value, or an exception and nothing
    else. *)
Inductive outcome (A : Type) : Type :=
| Returns (a : A)
| Throws (e : exn).
Arguments Returns {A} a.
Arguments Throws {A} e.

Definition bind {A B} (m : outcome A) (k : A -> outcome B) : outcome B :=
  match m with
  | Returns a => k a
  | Throws e => Throws e
  end.

(** *** 32-bit integer operators *)

Definition ToInt32 (z : Z) : Z := (z + 2 ^ 31) mod 2 ^ 32 - 2 ^ 31.
Definition ToUint32 (z : Z) : Z := z mod 2 ^ 32.

(** [a << n], [a >> n], [a | b], [a & b]: operands go through
    [ToInt32], the shift count is taken modulo 32, the result of the
    left shift wraps to 32 bits. *)
Definition shl (a n : Z) : Z :=
  ToInt32 (Z.shiftl (ToInt32 a) (ToUint32 n mod 32)).
Definition sar (a n : Z) : Z :=
  Z.shiftr (ToInt32 a) (ToUint32 n mod 32).
Definition bor (a b : Z) : Z := Z.lor (ToInt32 a) (ToInt32 b).
Definition band (a b : Z) : Z := Z.land (ToInt32 a) (ToInt32 b).

(** [a % b] on integers: the sign follows the dividend. *)
Definition rem (a b : Z) : Z := Z.rem a b.

(** *** Bytes and typed arrays *)

Definition byte_val (b : byte) : Z := Z.of_N (Byte.to_N b).

(** Storing a number into a [Uint8Array] element. *)
Definition ToUint8 (z : Z) : byte :=
  match Byte.of_N (Z.to_N (z mod 256)) with
  | Some b => b
  | None => x00
  end.

(** [a[i]]: an index outside the array reads [undefined]. *)
Definition get (a : list byte) (i : Z) : option byte :=
  if i <? 0 then None else nth_error a (Z.to_nat i).

(** An element as operand of [&]: [ToInt32(undefined)] is 0. *)
Definition operand (e : option byte) : Z :=
  match e with
  | Some b => byte_val b
  | None => 0
  end.

(** [new ArrayBuffer(n)] and [DataView.prototype.setUint32(off, v)]
    (big-endian by default; [RangeError] when the four bytes do not fit). *)
Definition ArrayBuffer (n : nat) : list byte := repeat x00 n.

Definition be32 (v : Z) : list byte :=
  [ToUint8 (v / 2 ^ 24); ToUint8 (v / 2 ^ 16); ToUint8 (v / 2 ^ 8); ToUint8 v].

Definition setUint32 (buf : list byte) (byteOffset : nat) (v : Z)
  : outcome (list byte) :=
  if (byteOffset + 4 <=? List.length buf)%nat
  then Returns (firstn byteOffset buf ++ be32 (ToUint32 v)
                  ++ skipn (byteOffset + 4) buf)
  else Throws RangeError.

(** *** String methods *)

(** [s.replace(/ /g, '')]: every U+0020 is dropped. *)
Definition replace_spaces (s : jsstring) : jsstring :=
  filter (fun u => negb (u =? 32)) s.

(** [s.replace(/=+$/, '')]: the leftmost position from which the rest
    of the string is a non-empty run of ['='] is where the pattern
    matches; the match is deleted. *)
Fixpoint replace_trailing_eq (s : jsstring) : jsstring :=
  match s with
  | [] => []
  | u :: rest =>
      if (u =? 61) && forallb (fun v => v =? 61) rest then []
      else u :: replace_trailing_eq rest
  end.

(** [hay.indexOf(c)] for a one-unit needle; -1 when absent. *)
Fixpoint indexOf_from (hay : jsstring) (c : Z) (i : Z) : Z :=
  match hay with
  | [] => -1
  | h :: t => if h =? c then i else indexOf_from t c (i + 1)
  end.
Definition indexOf (hay : jsstring) (c : Z) : Z := indexOf_from hay c 0.

(** [s.slice(1)]. *)
Definition slice1 (s : jsstring) : jsstring := skipn 1 s.

Definition jsstring_eqb (a b : jsstring) : bool :=
  if list_eq_dec Z.eq_dec a b then true else false.

(** [String.prototype.toUpperCase]: the string is read as code points,
    each code point is replaced by its full uppercase mapping, and the
    result is encoded back.  On ASCII the mapping is fixed here; above
    ASCII it is the platform's Unicode table. *)
Section UpperCase.
Variable UnicodeUpper : Z -> list Z.

Definition is_lead (u : Z) : bool := (0xD800 <=? u) && (u <=? 0xDBFF).
Definition is_trail (u : Z) : bool := (0xDC00 <=? u) && (u <=? 0xDFFF).

Fixpoint StringToCodePoints (s : jsstring) : list Z :=
  match s with
  | [] => []
  | u :: rest =>
      match rest with
      | v :: rest' =>
          if is_lead u && is_trail v
          then ((u - 0xD800) * 0x400 + (v - 0xDC00) + 0x10000)
                 :: StringToCodePoints rest'
          else u :: StringToCodePoints rest
      | [] => [u]
      end
  end.

Definition UTF16EncodeCodePoint (cp : Z) : jsstring :=
  if cp <=? 0xFFFF then [cp]
  else [(cp - 0x10000) / 0x400 + 0xD800; (cp - 0x10000) mod 0x400 + 0xDC00].

Definition toUppercase (cp : Z) : list Z :=
  if cp <? 128
  then [if (97 <=? cp) && (cp <=? 122) then cp - 32 else cp]
  else UnicodeUpper cp.

Definition toUpperCase (s : jsstring) : jsstring :=
  flat_map UTF16EncodeCodePoint
    (flat_map toUppercase (StringToCodePoints s)).
End UpperCase.

(** [n.toString()] for an integer: decimal digits, most significant
    first, with a minus sign below zero. *)
Fixpoint digits_le (fuel : nat) (n : Z) : jsstring :=
  match fuel with
  | O => []
  | S f =>
      if n <? 10 then [48 + n]
      else (48 + n mod 10) :: digits_le f (n / 10)
  end.

Definition Number_toString (n : Z) : jsstring :=
  if n <? 0
  then 45 :: rev (digits_le (S (Z.to_nat (Z.log2 (- n)))) (- n))
  else rev (digits_le (S (Z.to_nat (Z.log2 n))) n).

(** [s.padStart(maxLength, fill)]. *)
Fixpoint cycle (fill cur : jsstring) (n : nat) : jsstring :=
  match n with
  | O => []
  | S n' =>
      match cur with
      | c :: cur' => c :: cycle fill cur' n'
      | [] =>
          match fill with
          | c :: cur' => c :: cycle fill cur' n'
          | [] => []
          end
      end
  end.

Definition padStart (s : jsstring) (maxLength : Z) (fill : jsstring)
  : jsstring :=
  let len := Z.of_nat (List.length s) in
  if (maxLength <=? len) || (match fill with [] => true | _ => false end)
  then s
  else cycle fill fill (Z.to_nat (maxLength - len)) ++ s.

(** *** ASCII

    The part of a string [toUpperCase] treats without the Unicode
    table. *)
Definition is_ascii (u : Z) : Prop := 0 <= u < 128.

Definition ascii_upper (u : Z) : Z :=
  if (97 <=? u) && (u <=? 122) then u - 32 else u.

(** A case table under which no code point above ASCII has an uppercase
    form of its own; the ASCII examples below never consult it. *)
Definition caseless (cp : Z) : list Z := [cp].

End JS.

(* ================================================================== *)
(** ** [base32ToBytes] *)
(* ================================================================== *)

Module Base32.
Import JS.

Definition alphabet : jsstring := str "ABCDEFGHIJKLMNOPQRSTUVWXYZ234567".

(** The loop variables [bits], [value] and the array [bytes]. *)
Record decoder : Type := mkDecoder {
  bits : Z;
  value : Z;
  bytes : list Z
}.

(** One pass of the [for] loop over the remaining units of [clean];
    leaving the loop returns [new Uint8Array(bytes)]. *)
Fixpoint decode_loop (clean : jsstring) (st : decoder)
  : outcome (list byte) :=
  match clean with
  | [] => Returns (map ToUint8 (bytes st))
  | c :: rest =>
      let idx := indexOf alphabet c in
      if idx =? -1 then Throws (Error_ "Invalid base32")
      else
        let value' := bor (shl (value st) 5) idx in
        let bits' := bits st + 5 in
        if 8 <=? bits'
        then decode_loop rest
               (mkDecoder (bits' - 8) value'
                  (bytes st ++ [band (sar value' (bits' - 8)) 0xff]))
        else decode_loop rest (mkDecoder bits' value' (bytes st))
  end.

Section Decode.
Variable UnicodeUpper : Z -> list Z.

(** [const clean = str.toUpperCase().replace(/=+$/, '')]. *)
Definition clean (s : jsstring) : jsstring :=
  replace_trailing_eq (toUpperCase UnicodeUpper s).

Definition base32ToBytes (s : jsstring) : outcome (list byte) :=
  decode_loop (clean s) (mkDecoder 0 0 []).
End Decode.

(** *** The decoder as the specification words it

    A buffer of bits, most significant first.  Each symbol appends the
    five bits of its alphabet position; whenever the buffer holds eight
    bits or more, its first eight are emitted as a byte and removed.
    Bits left at the end are dropped. *)

(** The value of a symbol (RFC 4648, table 3): A-Z are 0-25, 2-7 are
    26-31. *)
Definition symbol_value (c : Z) : Z :=
  if (65 <=? c) && (c <=? 90) then c - 65 else c - 24.

Definition symbol_bits (v : Z) : list bool :=
  [Z.testbit v 4; Z.testbit v 3; Z.testbit v 2;
   Z.testbit v 1; Z.testbit v 0].

Definition bits_value (bs : list bool) : Z :=
  fold_left (fun acc (b : bool) => 2 * acc + (if b then 1 else 0)) bs 0.

Fixpoint reference_decode (symbols : jsstring) (buffer : list bool)
  : list byte :=
  match symbols with
  | [] => []
  | c :: rest =>
      let buffer' := buffer ++ symbol_bits (symbol_value c) in
      if (8 <=? List.length buffer')%nat
      then ToUint8 (bits_value (firstn 8 buffer'))
             :: reference_decode rest (skipn 8 buffer')
      else reference_decode rest buffer'
  end.

(** Membership in the 32-symbol alphabet. *)
Definition in_alphabet (c : Z) : Prop := In c alphabet.

(** The failure the specification calls [InvalidEncoding]. *)
Definition InvalidEncoding {A} (r : outcome A) : Prop :=
  r = Throws (Error_ "Invalid base32").

Definition in_alphabetb (c : Z) : bool := negb (indexOf alphabet c =? -1).

(** The input is nothing but a run of ['=']. *)
Definition all_eq_signs (s : jsstring) : bool := forallb (fun v => v =? 61) s.

(** Appending one bit to a buffer value. *)
Definition push_bit (acc : Z) (b : bool) : Z := 2 * acc + (if b then 1 else 0).

(** The loop state and the reference buffer describe the same pending
    bits. *)
Definition same_bits (st : decoder) (buffer : list bool) : Prop :=
  Z.of_nat (List.length buffer) = bits st /\
  0 <= bits st < 8 /\
  bits_value buffer = value st mod 2 ^ bits st.

End Base32.

(* ================================================================== *)
(** ** The [TOTP] class *)
(* ================================================================== *)

Module Totp.
Import JS.

Record TOTP : Type := mkTOTP {
  secret : list byte;
  period : Z;
  digits : Z;
  algorithm : string
}.

(** [Math.floor(Date.now() / 1000 / this.period)], with the divisions
    taken exactly; [now] is the clock reading in milliseconds. *)
Definition counter_at (now : Z) (period : Z) : Z :=
  Qfloor ((inject_Z now / inject_Z 1000) / inject_Z period)%Q.

(** Lines 304-307: the eight-byte buffer after [view.setUint32(4, counter)]. *)
Definition counter_message (counter : Z) : outcome (list byte) :=
  setUint32 (ArrayBuffer 8) 4 counter.

(** Lines 316-321. *)
Definition offset_of (hmac : list byte) : Z :=
  band (operand (get hmac (Z.of_nat (List.length hmac) - 1))) 0xf.

Definition binCode_of (hmac : list byte) : Z :=
  let offset := offset_of hmac in
  bor (bor (bor (shl (band (operand (get hmac offset)) 0x7f) 24)
                (shl (band (operand (get hmac (offset + 1))) 0xff) 16))
           (shl (band (operand (get hmac (offset + 2))) 0xff) 8))
      (band (operand (get hmac (offset + 3))) 0xff).

(** Lines 322-323. *)
Definition format_otp (digits : Z) (binCode : Z) : jsstring :=
  let otp := rem binCode (10 ^ digits) in
  padStart (Number_toString otp) digits (str "0").

Section Generator.
Variable UnicodeUpper : Z -> list Z.

(** [crypto.subtle.importKey('raw', key, {name: 'HMAC', hash}, ...)]
    followed by [crypto.subtle.sign('HMAC', key, message)]: the
    digest, or the rejection of either promise. *)
Variable hmac_sign : string -> list byte -> list byte -> outcome (list byte).

Definition TOTP_constructor (secret : jsstring) : outcome TOTP :=
  bind (Base32.base32ToBytes UnicodeUpper (replace_spaces secret))
    (fun key => Returns (mkTOTP key 30 6 "SHA-1")).

Definition generateOTP (this : TOTP) (counter : Z) : outcome jsstring :=
  bind (counter_message counter) (fun buf =>
  bind (hmac_sign (algorithm this) (secret this) buf) (fun hmac =>
  Returns (format_otp (digits this) (binCode_of hmac)))).

Definition generate (this : TOTP) (now : Z) : outcome jsstring :=
  generateOTP this (counter_at now (period this)).
End Generator.

(** *** Dynamic truncation and formatting as the specification words
    them (RFC 4226, section 5.3) *)

Definition digest_byte (digest : list byte) (i : Z) : Z :=
  byte_val (nth (Z.to_nat i) digest x00).

Definition reference_offset (digest : list byte) : Z :=
  Z.land (digest_byte digest 19) 0x0F.

Definition reference_binCode (digest : list byte) : Z :=
  let offset := reference_offset digest in
  Z.lor (Z.lor (Z.lor
    (Z.shiftl (Z.land (digest_byte digest offset) 0x7F) 24)
    (Z.shiftl (digest_byte digest (offset + 1)) 16))
    (Z.shiftl (digest_byte digest (offset + 2)) 8))
    (digest_byte digest (offset + 3)).

(** The decimal digit of weight [10 ^ i], as a character. *)
Definition decimal_digit (v : Z) (i : Z) : Z := 48 + (v / 10 ^ i) mod 10.

Definition reference_code (digest : list byte) : jsstring :=
  let v := reference_binCode digest mod 10 ^ 6 in
  map (decimal_digit v) [5; 4; 3; 2; 1; 0].

Definition is_digit (c : Z) : Prop := 48 <= c <= 57.

(** The eight-byte big-endian encoding of an unsigned 64-bit value;
    values outside that range have none. *)
Definition be64 (c : Z) : option (list byte) :=
  if (0 <=? c) && (c <? 2 ^ 64)
  then Some (map (fun i => ToUint8 (c / 2 ^ (8 * i))) [7; 6; 5; 4; 3; 2; 1; 0])
  else None.

(** The generator the constructor makes of a key. *)
Definition new_generator (key : list byte) : outcome TOTP :=
  Returns (mkTOTP key 30 6 "SHA-1").

(** What the constructor hands to the decoding loop. *)
Definition normalize (UnicodeUpper : Z -> list Z) (s : jsstring) : jsstring :=
  replace_trailing_eq (toUpperCase UnicodeUpper (replace_spaces s)).

(** Normalisation as the specification words it: every whitespace
    character goes, not only U+0020. *)
Definition is_whitespace (u : Z) : bool :=
  (u =? 32) || ((9 <=? u) && (u <=? 13)).

Definition spec_normalize (UnicodeUpper : Z -> list Z) (s : jsstring)
  : jsstring :=
  replace_trailing_eq
    (toUpperCase UnicodeUpper (filter (fun u => negb (is_whitespace u)) s)).

(** Four bytes, the first without its top bit, joined big-endian. *)
Definition join31 (x y z w : Z) : Z :=
  (x mod 128) * 2 ^ 24 + y * 2 ^ 16 + z * 2 ^ 8 + w.

(** The [k] lowest decimal digits of [v], least significant first. *)
Definition low_digits (k : nat) (v : Z) : jsstring :=
  map (fun i => decimal_digit v (Z.of_nat i)) (seq 0 k).

End Totp.

(* ================================================================== *)
(** ** A reference HMAC-SHA-1 (FIPS 180-4, RFC 2104)

    The worker obtains its digests from [crypto.subtle]; this instance
    of that service is used to run the generator on concrete inputs. *)
(* ================================================================== *)

Module HmacSha1.
Import JS.

Definition w32 (x : Z) : Z := x mod 2 ^ 32.
Definition rotl (n x : Z) : Z := Z.lor (w32 (Z.shiftl x n)) (Z.shiftr x (32 - n)).
Definition not32 (x : Z) : Z := 2 ^ 32 - 1 - x.

Definition f (t : nat) (b c d : Z) : Z :=
  if (t <? 20)%nat then Z.lor (Z.land b c) (Z.land (not32 b) d)
  else if (t <? 40)%nat then Z.lxor b (Z.lxor c d)
  else if (t <? 60)%nat
       then Z.lor (Z.lor (Z.land b c) (Z.land b d)) (Z.land c d)
       else Z.lxor b (Z.lxor c d).

Definition K (t : nat) : Z :=
  if (t <? 20)%nat then 0x5A827999
  else if (t <? 40)%nat then 0x6ED9EBA1
  else if (t <? 60)%nat then 0x8F1BBCDC
  else 0xCA62C1D6.

Definition be_bytes (n : nat) (v : Z) : list Z :=
  map (fun i => (v / 2 ^ (8 * Z.of_nat i)) mod 256) (rev (seq 0 n)).

(** Message padding to a multiple of 64 bytes. *)
Definition pad (msg : list Z) : list Z :=
  let len := Z.of_nat (List.length msg) in
  let zeros := Z.to_nat ((55 - len) mod 64) in
  msg ++ [0x80] ++ repeat 0 zeros ++ be_bytes 8 (8 * len).

Fixpoint words (n : nat) (bs : list Z) : list Z :=
  match n with
  | O => []
  | S n' =>
      match bs with
      | a :: b :: c :: d :: rest =>
          (((a * 256 + b) * 256 + c) * 256 + d) :: words n' rest
      | _ => []
      end
  end.

(** The message schedule, most recent word first. *)
Fixpoint expand (n : nat) (ws : list Z) : list Z :=
  match n with
  | O => ws
  | S n' =>
      expand n'
        (rotl 1 (Z.lxor (Z.lxor (nth 2 ws 0) (nth 7 ws 0))
                        (Z.lxor (nth 13 ws 0) (nth 15 ws 0))) :: ws)
  end.

Definition schedule (block : list Z) : list Z := rev (expand 64 (rev block)).

Definition state : Type := (Z * Z * Z * Z * Z)%type.

Definition round (st : state) (tw : nat * Z) : state :=
  let '(a, b, c, d, e) := st in
  let '(t, w) := tw in
  (w32 (rotl 5 a + f t b c d + e + K t + w), a, rotl 30 b, c, d).

Definition compress (h : state) (block : list Z) : state :=
  let '(a, b, c, d, e) := fold_left round (combine (seq 0 80) (schedule block)) h in
  let '(h0, h1, h2, h3, h4) := h in
  (w32 (h0 + a), w32 (h1 + b), w32 (h2 + c), w32 (h3 + d), w32 (h4 + e)).

Fixpoint blocks (n : nat) (ws : list Z) (h : state) : state :=
  match n with
  | O => h
  | S n' => blocks n' (skipn 16 ws) (compress h (firstn 16 ws))
  end.

Definition sha1 (msg : list Z) : list Z :=
  let p := pad msg in
  let nblocks := (List.length p / 64)%nat in
  let '(h0, h1, h2, h3, h4) :=
    blocks nblocks (words (16 * nblocks) p)
      (0x67452301, 0xEFCDAB89, 0x98BADCFE, 0x10325476, 0xC3D2E1F0) in
  flat_map (be_bytes 4) [h0; h1; h2; h3; h4].

Definition hmac_sha1 (key msg : list Z) : list Z :=
  let k0 := if (64 <? List.length key)%nat then sha1 key else key in
  let k := k0 ++ repeat 0 (64 - List.length k0) in
  sha1 (map (Z.lxor 0x5c) k ++ sha1 (map (Z.lxor 0x36) k ++ msg)).

(** The service as the worker calls it: importing an empty key is
    refused, and SHA-1 is the only hash this instance provides. *)
Definition hmac_sign (hash : string) (key msg : list byte)
  : outcome (list byte) :=
  match key with
  | [] => Throws DataError
  | _ =>
      if String.eqb hash "SHA-1"
      then Returns (map ToUint8 (hmac_sha1 (map byte_val key) (map byte_val msg)))
      else Throws NotSupportedError
  end.

(** The key of the RFC 4226 and RFC 6238 test vectors, its Base32
    text as stored and as a user may type it, and its digest of
    counter 1. *)
Definition rfc_key : list byte := map ToUint8 (str "12345678901234567890").

Definition rfc_secret : jsstring := str "GEZDGNBVGY3TQOJQGEZDGNBVGY3TQOJQ".

Definition rfc_secret_typed : jsstring :=
  str "gezd gnbv gy3t qojq gezd gnbv gy3t qojq====".

Definition rfc_digest_1 : list byte :=
  map ToUint8
    [0x75; 0xa4; 0x8a; 0x19; 0xd4; 0xcb; 0xe1; 0x00; 0x64; 0x4e;
     0x8a; 0xc1; 0x39; 0x7e; 0xea; 0x74; 0x7a; 0x2d; 0x33; 0xab].

End HmacSha1.

(* ================================================================== *)
(** ** [parseOtpAuthUrl] *)
(* ================================================================== *)

Module OtpAuth.
Import JS.

(** *** [decodeURIComponent] (the [Decode] operation of ECMAScript with
    an empty set of preserved escapes) *)

Definition hex_digit (u : Z) : option Z :=
  if (48 <=? u) && (u <=? 57) then Some (u - 48)
  else if (65 <=? u) && (u <=? 70) then Some (u - 55)
  else if (97 <=? u) && (u <=? 102) then Some (u - 87)
  else None.

Definition ParseHexOctet (a b : Z) : option Z :=
  match hex_digit a, hex_digit b with
  | Some x, Some y => Some (16 * x + y)
  | _, _ => None
  end.

(** The number of leading one bits of an octet. *)
Definition leading_ones (B : Z) : nat :=
  if B <? 0x80 then 0
  else if B <? 0xC0 then 1
  else if B <? 0xE0 then 2
  else if B <? 0xF0 then 3
  else if B <? 0xF8 then 4
  else 5.

(** [n] further escapes [%XX], as octets, and the rest of the string. *)
Fixpoint continuation_octets (n : nat) (s : jsstring)
  : option (list Z * jsstring) :=
  match n with
  | O => Some ([], s)
  | S n' =>
      match s with
      | c :: a :: b :: rest =>
          if c =? 37
          then match ParseHexOctet a b with
               | Some B =>
                   match continuation_octets n' rest with
                   | Some (octets, rest') => Some (B :: octets, rest')
                   | None => None
                   end
               | None => None
               end
          else None
      | _ => None
      end
  end.

(** The code point of a well-formed UTF-8 sequence of two to four
    octets: continuation octets in 80..BF, no overlong form, no
    surrogate, nothing above U+10FFFF. *)
Definition utf8_code_point (octets : list Z) : option Z :=
  let cont (c : Z) := (0x80 <=? c) && (c <=? 0xBF) in
  let checked (lo v : Z) :=
    if (lo <=? v) && (v <=? 0x10FFFF)
       && negb ((0xD800 <=? v) && (v <=? 0xDFFF))
    then Some v else None in
  match octets with
  | [a; b] =>
      if cont b then checked 0x80 ((a - 0xC0) * 64 + (b - 0x80)) else None
  | [a; b; c] =>
      if cont b && cont c
      then checked 0x800 (((a - 0xE0) * 64 + (b - 0x80)) * 64 + (c - 0x80))
      else None
  | [a; b; c; d] =>
      if cont b && cont c && cont d
      then checked 0x10000
             ((((a - 0xF0) * 64 + (b - 0x80)) * 64 + (c - 0x80)) * 64
              + (d - 0x80))
      else None
  | _ => None
  end.

Fixpoint Decode (fuel : nat) (s : jsstring) : outcome jsstring :=
  match fuel with
  | O => Returns []
  | S fuel' =>
      match s with
      | [] => Returns []
      | c :: rest =>
          if c =? 37
          then
            match rest with
            | a :: b :: rest' =>
                match ParseHexOctet a b with
                | None => Throws URIError
                | Some B =>
                    match leading_ones B with
                    | O => bind (Decode fuel' rest') (fun R => Returns (B :: R))
                    | S O => Throws URIError
                    | S (S (S (S (S _)))) => Throws URIError
                    | S m =>
                        match continuation_octets m rest' with
                        | None => Throws URIError
                        | Some (octets, rest'') =>
                            match utf8_code_point (B :: octets) with
                            | None => Throws URIError
                            | Some V =>
                                bind (Decode fuel' rest'')
                                  (fun R => Returns (UTF16EncodeCodePoint V ++ R))
                            end
                        end
                    end
                end
            | _ => Throws URIError
            end
          else bind (Decode fuel' rest) (fun R => Returns (c :: R))
      end
  end.

Definition decodeURIComponent (s : jsstring) : outcome jsstring :=
  Decode (List.length s) s.

(** *** The [URL] object, as far as the parser reads it *)

Record URL : Type := mkURL {
  protocol : jsstring;
  hostname : jsstring;
  pathname : jsstring;
  searchParams : list (jsstring * jsstring)
}.

(** [Object.fromEntries(entries)[key]]: a later entry overwrites an
    earlier one of the same name; a missing name reads [undefined]. *)
Fixpoint property (entries : list (jsstring * jsstring)) (key : jsstring)
                  (found : option jsstring) : option jsstring :=
  match entries with
  | [] => found
  | (k, v) :: rest =>
      property rest key (if jsstring_eqb k key then Some v else found)
  end.

Record parsed : Type := mkParsed {
  label : jsstring;
  secret : option jsstring;
  issuer : option jsstring
}.

Definition protocol_message : string := "协议必须是 otpauth".
Definition type_message : string := "仅支持 totp 类型".

Section Parser.
(** [new URL(url)]: the parsed URL, or the [TypeError] of a string
    that is not one. *)
Variable URL_new : jsstring -> outcome URL.

Definition parseOtpAuthUrl (url : jsstring) : outcome parsed :=
  bind (URL_new url) (fun u =>
  if negb (jsstring_eqb (protocol u) (str "otpauth:"))
  then Throws (Error_ protocol_message)
  else if negb (jsstring_eqb (hostname u) (str "totp"))
  then Throws (Error_ type_message)
  else
    bind (decodeURIComponent (slice1 (pathname u))) (fun label =>
    let params := searchParams u in
    Returns (mkParsed label
               (property params (str "secret") None)
               (property params (str "issuer") None)))).
End Parser.

(** The failure the specification calls [InvalidUri]: the call throws. *)
Definition InvalidUri {A} (r : outcome A) : Prop := exists e, r = Throws e.

(** What [new URL] makes of the URLs the specification names, and of
    one whose path ends in a lone percent sign; any other string is
    taken not to parse. *)
Definition scenario_urls : list (jsstring * URL) :=
  [ (str "otpauth://totp/Example:alice@site.com?secret=JBSWY3DPEHPK3PXP&issuer=Example",
     mkURL (str "otpauth:") (str "totp") (str "/Example:alice@site.com")
       [(str "secret", str "JBSWY3DPEHPK3PXP"); (str "issuer", str "Example")]);
    (str "hotp://totp/x?secret=ABC",
     mkURL (str "hotp:") (str "totp") (str "/x") [(str "secret", str "ABC")]);
    (str "otpauth://hotp/x?secret=ABC",
     mkURL (str "otpauth:") (str "hotp") (str "/x") [(str "secret", str "ABC")]);
    (str "otpauth://totp/alice",
     mkURL (str "otpauth:") (str "totp") (str "/alice") []);
    (str "otpauth://totp/%",
     mkURL (str "otpauth:") (str "totp") (str "/%") []) ].

Fixpoint lookup_url (table : list (jsstring * URL)) (url : jsstring)
  : outcome URL :=
  match table with
  | [] => Throws TypeError
  | (k, u) :: rest => if jsstring_eqb k url then Returns u else lookup_url rest url
  end.

Definition scenario_URL_new (url : jsstring) : outcome URL :=
  lookup_url scenario_urls url.

End OtpAuth.

(* ================================================================== *)
(** ** Bit streams and the RFC 4648 encoding

    The decoder seen from the outside: the symbols of a text as one
    stream of bits cut into bytes, and the encoding of RFC 4648,
    section 6, whose texts the decoder is meant to read. *)
(* ================================================================== *)

Module Rfc4648.
Import JS Base32.

(** The eight bits of a byte, most significant first. *)
Definition byte_bits (b : byte) : list bool :=
  map (Z.testbit (byte_val b)) [7; 6; 5; 4; 3; 2; 1; 0].

(** The whole bytes of a bit stream; up to seven bits left over are
    dropped. *)
Fixpoint bits_bytes (stream : list bool) : list byte :=
  match stream with
  | b7 :: b6 :: b5 :: b4 :: b3 :: b2 :: b1 :: b0 :: rest =>
      ToUint8 (bits_value [b7; b6; b5; b4; b3; b2; b1; b0]) :: bits_bytes rest
  | _ => []
  end.

(** The bits a text of symbols stands for. *)
Definition text_bits (symbols : jsstring) : list bool :=
  flat_map (fun c => symbol_bits (symbol_value c)) symbols.

(** Groups of five bits; the last group is filled up with zero bits. *)
Fixpoint quintets (stream : list bool) : list (list bool) :=
  match stream with
  | [] => []
  | [a] => [[a; false; false; false; false]]
  | [a; b] => [[a; b; false; false; false]]
  | [a; b; c] => [[a; b; c; false; false]]
  | [a; b; c; d] => [[a; b; c; d; false]]
  | a :: b :: c :: d :: e :: rest => [a; b; c; d; e] :: quintets rest
  end.

(** The symbol of a five-bit value. *)
Definition symbol_of (v : Z) : Z := nth (Z.to_nat v) alphabet 0.

Definition encode_unpadded (data : list byte) : jsstring :=
  map (fun q => symbol_of (bits_value q)) (quintets (flat_map byte_bits data)).

(** The encoding with its padding to a multiple of eight characters. *)
Definition encode (data : list byte) : jsstring :=
  let text := encode_unpadded data in
  text ++ repeat 61 ((8 - List.length text mod 8) mod 8).

End Rfc4648.

(* ================================================================== *)
(** ** Reading a code back *)
(* ================================================================== *)

Module Codes.
Import JS.

(** The number a string of decimal digits writes. *)
Definition decimal_value (code : jsstring) : Z :=
  fold_left (fun acc c => 10 * acc + (c - 48)) code 0.

End Codes.

(* ================================================================== *)
(** ** Text of the source *)
(* ================================================================== *)

Module Literal.
Import JS OtpAuth.

(** The code units of a text given by its UTF-8 octets, the encoding of
    the source file; an octet that begins no well-formed sequence reads
    as U+FFFD. *)
Fixpoint utf16 (fuel : nat) (octets : list Z) : jsstring :=
  match fuel, octets with
  | S fuel', B :: rest =>
      match leading_ones B with
      | O => B :: utf16 fuel' rest
      | S m =>
          match utf8_code_point (B :: firstn m rest) with
          | Some V => UTF16EncodeCodePoint V ++ utf16 fuel' (skipn m rest)
          | None => 0xFFFD :: utf16 fuel' rest
          end
      end
  | _, _ => []
  end.

(** A string literal of the source. *)
Definition text (s : string) : jsstring :=
  utf16 (List.length (str s)) (str s).

(** A piece of a template literal of the source.  No piece holds a
    backtick, which would end the literal, so the backtick is free to
    stand here for the double quote of the source. *)
Definition template (s : string) : jsstring :=
  map (fun u => if u =? 96 then 34 else u) (text s).

(** [`${v}`] for a string or [undefined]. *)
Definition interpolate (v : option jsstring) : jsstring :=
  match v with
  | Some s => s
  | None => str "undefined"
  end.

End Literal.

(* ================================================================== *)
(** ** The request handler *)
(* ================================================================== *)

Module Worker.
Import JS Totp OtpAuth Codes Literal.

(** [FormData.prototype.get] and [URLSearchParams.prototype.get]: the
    first value of the name, [null] when there is none. *)
Fixpoint first_value (entries : list (jsstring * jsstring)) (name : jsstring)
  : option jsstring :=
  match entries with
  | [] => None
  | (k, v) :: rest =>
      if jsstring_eqb k name then Some v else first_value rest name
  end.

Definition is_empty (s : jsstring) : bool :=
  match s with
  | [] => true
  | _ :: _ => false
  end.

(** [a === b] where each side is a string or is missing; what is
    missing is [null] on the one side ([get]) and [undefined] or a
    string on the other, so that two missing values are never equal. *)
Definition strict_equal (a b : option jsstring) : bool :=
  match a, b with
  | Some x, Some y => jsstring_eqb x y
  | _, _ => false
  end.

(** The request as the handler reads it: its method, [new URL] of its
    address, and what [request.formData()] resolves to for a body of
    text fields, or its rejection. *)
Record Request : Type := mkRequest {
  method : jsstring;
  url : URL;
  formData : outcome (list (jsstring * jsstring))
}.

(** [new Response(body, init)]: the status (200 when [init] names
    none), the body ([None] is [null]) and the headers of [init]. *)
Record Response : Type := mkResponse {
  status : Z;
  body : option jsstring;
  headers : list (jsstring * jsstring)
}.

Definition text_response (code : Z) (content : jsstring) : Response :=
  mkResponse code (Some content) [].

Definition html_response (content : jsstring) : Response :=
  mkResponse 200 (Some content) [(str "Content-Type", str "text/html")].

(** *** [totpKeys]: an object used as a map

    Own properties in the order of their creation, and whether the
    prototype is still [Object.prototype]. *)
Record object : Type := mkObject {
  inherits : bool;
  properties : list (jsstring * option jsstring)
}.

Definition empty_object : object := mkObject true [].

Fixpoint set_property (ps : list (jsstring * option jsstring))
                      (name : jsstring) (value : option jsstring)
  : list (jsstring * option jsstring) :=
  match ps with
  | [] => [(name, value)]
  | (k, v) :: rest =>
      if jsstring_eqb k name then (k, value) :: rest
      else (k, v) :: set_property rest name value
  end.

(** [o[name] = value], the value being a string or [null].  Under
    [Object.prototype] the name [__proto__] reaches the inherited
    setter, which ignores a string and, given [null], removes the
    prototype; every other assignment creates or overwrites an own
    property. *)
Definition assign (o : object) (name : jsstring) (value : option jsstring)
  : object :=
  if inherits o && jsstring_eqb name (str "__proto__")
  then match value with
       | Some _ => o
       | None => mkObject false (properties o)
       end
  else mkObject (inherits o) (set_property (properties o) name value).

Definition is_digitb (c : Z) : bool := (48 <=? c) && (c <=? 57).

(** The array index a property name writes, if any: the canonical
    decimal numeral of an integer from 0 to 2^32 - 2. *)
Definition array_index (name : jsstring) : option Z :=
  if negb (is_empty name) && forallb is_digitb name
  then let v := decimal_value name in
       if (v <=? 4294967294) && jsstring_eqb (Number_toString v) name
       then Some v else None
  else None.

Fixpoint insert_index {A} (i : Z) (a : A) (sorted : list (Z * A))
  : list (Z * A) :=
  match sorted with
  | [] => [(i, a)]
  | (j, b) :: rest =>
      if i <=? j then (i, a) :: sorted else (j, b) :: insert_index i a rest
  end.

Definition sort_index {A} (l : list (Z * A)) : list (Z * A) :=
  fold_right (fun p sorted => insert_index (fst p) (snd p) sorted) [] l.

Definition indexed (ps : list (jsstring * option jsstring))
  : list (Z * (jsstring * option jsstring)) :=
  flat_map (fun p => match array_index (fst p) with
                     | Some i => [(i, p)]
                     | None => []
                     end) ps.

Definition named (ps : list (jsstring * option jsstring))
  : list (jsstring * option jsstring) :=
  filter (fun p => match array_index (fst p) with
                   | Some _ => false
                   | None => true
                   end) ps.

(** [for (const name in o)]: the array indices in ascending order, then
    the other names in the order of their creation; [Object.prototype]
    adds nothing enumerable. *)
Definition for_in (o : object) : list (jsstring * option jsstring) :=
  map snd (sort_index (indexed (properties o))) ++ named (properties o).


(** *** The fragments of lines 115-123 *)

Definition item_fragment (name token : jsstring) : jsstring :=
  template "<div class=`totp-item` style=`margin-bottom:10px; display:flex; align-items:center; justify-content:space-between;`>"
  ++ [10] ++ template "        <span><strong>" ++ name
  ++ template "</strong>: <span>" ++ token ++ template "</span></span>"
  ++ [10] ++ template "        <div>"
  ++ [10] ++ template "          <button onclick=`copy('" ++ token
  ++ template "')`>复制</button>"
  ++ [10] ++ template "          <button onclick=`remove('" ++ name
  ++ template "')`>删除</button>"
  ++ [10] ++ template "        </div>"
  ++ [10] ++ template "      </div>".

Definition error_fragment (name message : jsstring) : jsstring :=
  template "<div style=`color:red`>" ++ name ++ template ": 错误密钥 ("
  ++ message ++ template ")</div>".

Section Handler.
Variable UnicodeUpper : Z -> list Z.
Variable hmac_sign : string -> list byte -> list byte -> outcome (list byte).

(** [e.message] of an error a built-in raised. *)
Variable builtin_message : exn -> jsstring.

Definition message (e : exn) : jsstring :=
  match e with
  | Error_ msg => text msg
  | _ => builtin_message e
  end.

(** The KV namespace [env.AUTH_KV]: a store and its four operations.
    A write gives its settlement and the store it leaves; [list] gives
    the names of [keys.keys] and [get] a value or [null]. *)
Variable kv : Type.
Variable KV_put : kv -> jsstring -> jsstring -> outcome unit * kv.
Variable KV_delete : kv -> jsstring -> outcome unit * kv.
Variable KV_list : kv -> outcome (list jsstring).
Variable KV_get : kv -> jsstring -> outcome (option jsstring).

Record Env : Type := mkEnv {
  ACCESS_PASSWORD : option jsstring;
  AUTH_KV : kv
}.

(** The constant text of the two pages: the template literal of
    [passwordFormHtml], and the four pieces the three interpolations
    of lines 167, 221 and 234 cut the template literal of [appHtml]
    into. *)
Variable passwordFormHtml : jsstring.
Variables page_head page_add page_remove page_tail : jsstring.

(** [Date.now()]: the reading an instance of [generate] takes, by the
    number of readings taken before it. *)
Variable clock : nat -> Z.

(** [new TOTP(secret)] for what [totpKeys[name]] holds; [null] has no
    [replace]. *)
Definition new_TOTP (secret : option jsstring) : outcome TOTP :=
  match secret with
  | Some s => TOTP_constructor UnicodeUpper s
  | None => Throws TypeError
  end.

(** Whether [new TOTP] returns for the value of an entry; only then
    does [generate] run and read the clock. *)
Definition constructs (entry : jsstring * option jsstring) : bool :=
  match new_TOTP (snd entry) with
  | Returns _ => true
  | Throws _ => false
  end.

(** Lines 110-125: the loop of [appHtml] over the entries in [for-in]
    order, with the number of clock readings taken so far. *)
Fixpoint appHtml_loop (entries : list (jsstring * option jsstring))
                      (readings : nat) (html : jsstring) : jsstring :=
  match entries with
  | [] => html
  | (name, secret) :: rest =>
      match new_TOTP secret with
      | Throws e =>
          appHtml_loop rest readings (html ++ error_fragment name (message e))
      | Returns totp =>
          match generate hmac_sign totp (clock readings) with
          | Returns token =>
              appHtml_loop rest (S readings) (html ++ item_fragment name token)
          | Throws e =>
              appHtml_loop rest (S readings)
                (html ++ error_fragment name (message e))
          end
      end
  end.

Definition appHtml (totpKeys : object) (password : option jsstring)
  : jsstring :=
  let html := appHtml_loop (for_in totpKeys) 0 [] in
  page_head ++ html ++ page_add ++ interpolate password
  ++ page_remove ++ interpolate password ++ page_tail.

(** Lines 63-66. *)
Fixpoint read_keys (store : kv) (keys : list jsstring) (totpKeys : object)
  : outcome object :=
  match keys with
  | [] => Returns totpKeys
  | name :: rest =>
      bind (KV_get store name) (fun value =>
      read_keys store rest (assign totpKeys name value))
  end.

(** Lines 22-35. *)
Definition add (form : list (jsstring * jsstring)) (store : kv)
  : outcome Response * kv :=
  match first_value form (str "name"), first_value form (str "secret") with
  | Some name, Some secret =>
      if negb (is_empty name) && negb (is_empty secret)
      then
        match TOTP_constructor UnicodeUpper secret with
        | Throws e =>
            (Returns (text_response 400
                        (str "Error adding key: " ++ message e)), store)
        | Returns _ =>
            match KV_put store name secret with
            | (Returns _, store') =>
                (Returns (text_response 200 (str "Key added successfully!")),
                 store')
            | (Throws e, store') =>
                (Returns (text_response 400
                            (str "Error adding key: " ++ message e)), store')
            end
        end
      else (Returns (text_response 400 (str "Missing name or secret")), store)
  | _, _ => (Returns (text_response 400 (str "Missing name or secret")), store)
  end.

(** Lines 37-44. *)
Definition delete (form : list (jsstring * jsstring)) (store : kv)
  : outcome Response * kv :=
  match first_value form (str "key") with
  | Some keyToDelete =>
      if negb (is_empty keyToDelete)
      then
        match KV_delete store keyToDelete with
        | (Returns _, store') =>
            (Returns (text_response 200 (str "Key deleted successfully!")),
             store')
        | (Throws e, store') => (Throws e, store')
        end
      else (Returns (text_response 400 (str "Missing key to delete")), store)
  | None => (Returns (text_response 400 (str "Missing key to delete")), store)
  end.

(** A store of which every value [get] can read is a text [add] would
    have written: not empty, under a name that is not empty, and
    accepted by [new TOTP]. *)
Definition accepted (store : kv) : Prop :=
  forall name secret,
    KV_get store name = Returns (Some secret) ->
    name <> [] /\ secret <> []
    /\ exists totp, TOTP_constructor UnicodeUpper secret = Returns totp.

(** Lines 7-71: the settlement of the promise and the store the call
    leaves. *)
Definition handleRequest (request : Request) (env : Env)
  : outcome Response * kv :=
  let store := AUTH_KV env in
  if jsstring_eqb (method request) (str "POST")
  then
    match formData request with
    | Throws e => (Throws e, store)
    | Returns form =>
        let password := first_value form (str "password") in
        let action := first_value form (str "action") in
        if negb (strict_equal password (ACCESS_PASSWORD env))
        then (Returns (text_response 401
                         (str "Unauthorized: Invalid password")), store)
        else if strict_equal action (Some (str "add")) then add form store
        else if strict_equal action (Some (str "delete")) then delete form store
        else if strict_equal action (Some (str "auth"))
        then (Returns (mkResponse 200 None []), store)
        else (Returns (text_response 400 (str "Invalid action")), store)
    end
  else
    let isAuthenticated :=
      strict_equal (first_value (searchParams (url request)) (str "auth"))
                   (Some (str "true")) in
    if negb isAuthenticated
    then (Returns (html_response passwordFormHtml), store)
    else
      (bind (KV_list store) (fun keys =>
       bind (read_keys store keys empty_object) (fun totpKeys =>
       Returns (html_response (appHtml totpKeys (ACCESS_PASSWORD env))))),
       store).

End Handler.

(** *** A store for the examples: an association list that refuses
    nothing and lists its names in the order of their first writing *)

Definition table : Type := list (jsstring * jsstring).

Definition table_get (t : table) (name : jsstring)
  : outcome (option jsstring) := Returns (first_value t name).

Definition table_delete (t : table) (name : jsstring) : outcome unit * table :=
  (Returns tt, filter (fun p => negb (jsstring_eqb (fst p) name)) t).

Fixpoint table_write (t : table) (name value : jsstring) : table :=
  match t with
  | [] => [(name, value)]
  | (k, v) :: rest =>
      if jsstring_eqb k name then (k, value) :: rest
      else (k, v) :: table_write rest name value
  end.

Definition table_put (t : table) (name value : jsstring)
  : outcome unit * table := (Returns tt, table_write t name value).

Definition table_list (t : table) : outcome (list jsstring) :=
  Returns (map fst t).

End Worker.

(* ================================================================== *)
(** ** The script of the page *)
(* ================================================================== *)

Module Client.
Import JS OtpAuth Literal.

(** *** [String.prototype.trim] and [startsWith] *)

(** White space and line terminators of ECMAScript. *)
Definition is_space (u : Z) : bool :=
  ((9 <=? u) && (u <=? 13)) || (u =? 0x20) || (u =? 0xA0) || (u =? 0x1680)
  || ((0x2000 <=? u) && (u <=? 0x200A)) || (u =? 0x2028) || (u =? 0x2029)
  || (u =? 0x202F) || (u =? 0x205F) || (u =? 0x3000) || (u =? 0xFEFF).

Fixpoint trim_start (s : jsstring) : jsstring :=
  match s with
  | [] => []
  | c :: rest => if is_space c then trim_start rest else s
  end.

Definition trim (s : jsstring) : jsstring :=
  rev (trim_start (rev (trim_start s))).

Definition startsWith (s prefix : jsstring) : bool :=
  jsstring_eqb (firstn (List.length prefix) s) prefix.

(** *** [encodeURIComponent] (the [Encode] operation of ECMAScript) *)

(** Letters, digits and [-_.!~*'()] are left as they are. *)
Definition unescaped (c : Z) : bool :=
  ((65 <=? c) && (c <=? 90)) || ((97 <=? c) && (c <=? 122))
  || ((48 <=? c) && (c <=? 57))
  || existsb (Z.eqb c) (str "-_.!~*'()").

Definition hex_char (d : Z) : Z := if d <? 10 then 48 + d else 55 + d.

(** [%] and the two upper-case hexadecimal digits of an octet. *)
Definition escape (octet : Z) : jsstring :=
  [37; hex_char ((octet / 16) mod 16); hex_char (octet mod 16)].

Definition utf8_octets (cp : Z) : list Z :=
  if cp <? 0x80 then [cp]
  else if cp <? 0x800 then [0xC0 + cp / 64; 0x80 + cp mod 64]
  else if cp <? 0x10000
  then [0xE0 + cp / 4096; 0x80 + (cp / 64) mod 64; 0x80 + cp mod 64]
  else [0xF0 + cp / 262144; 0x80 + (cp / 4096) mod 64;
        0x80 + (cp / 64) mod 64; 0x80 + cp mod 64].

(** A surrogate with no partner throws [URIError]. *)
Fixpoint encodeURIComponent (s : jsstring) : outcome jsstring :=
  match s with
  | [] => Returns []
  | c :: rest =>
      if unescaped c
      then bind (encodeURIComponent rest) (fun R => Returns (c :: R))
      else if is_lead c
      then match rest with
           | d :: rest' =>
               if is_trail d
               then bind (encodeURIComponent rest') (fun R =>
                    Returns (flat_map escape
                               (utf8_octets ((c - 0xD800) * 0x400
                                             + (d - 0xDC00) + 0x10000))
                             ++ R))
               else Throws URIError
           | [] => Throws URIError
           end
      else if is_trail c then Throws URIError
      else bind (encodeURIComponent rest) (fun R =>
           Returns (flat_map escape (utf8_octets c) ++ R))
  end.

(** The pieces a separator cuts a string into, as the parser of a
    form cuts a body at every [&]. *)
Fixpoint split_at (separator : Z) (s : jsstring) : list jsstring :=
  match s with
  | [] => [[]]
  | c :: rest =>
      if c =? separator then [] :: split_at separator rest
      else match split_at separator rest with
           | piece :: pieces => (c :: piece) :: pieces
           | [] => [[c]]
           end
  end.

(** What a call of [add] or [remove] comes to, as far as the reply of
    the server: a dialogue, a request, or nothing. *)
Inductive step : Type :=
| Alert (message : jsstring)
| Fetch (body : jsstring)
| Nothing.

Section Page.
Variable URL_new : jsstring -> outcome URL.
Variable builtin_message : exn -> jsstring.

(** The string the literal that stands for ['${ACCESS_PASSWORD}'] in
    the page evaluates to. *)
Variable PASSWORD : jsstring.

(** [parsed.label || parsed.issuer || '未命名']. *)
Definition fallback_name (p : parsed) : jsstring :=
  if negb (Worker.is_empty (label p)) then label p
  else match issuer p with
       | Some (c :: rest) => c :: rest
       | _ => text "未命名"
       end.

(** Lines 213-222. *)
Definition submit (n s : jsstring) : outcome step :=
  if Worker.is_empty n || Worker.is_empty s
  then Returns (Alert (text "请填写名称和密钥"))
  else
    bind (encodeURIComponent PASSWORD) (fun password =>
    bind (encodeURIComponent n) (fun name =>
    bind (encodeURIComponent s) (fun secret =>
    Returns (Fetch (str "password=" ++ password ++ str "&action=add&name="
                    ++ name ++ str "&secret=" ++ secret))))).

(** Lines 193-222, for what the two fields hold. *)
Definition add (name_field secret_field : jsstring) : outcome step :=
  let n := trim name_field in
  let s := trim secret_field in
  if startsWith s (str "otpauth://")
  then
    match parseOtpAuthUrl URL_new s with
    | Returns parsed =>
        let n := if Worker.is_empty n then fallback_name parsed else n in
        match secret parsed with
        | Some (c :: rest) => submit n (c :: rest)
        | _ => Returns (Alert (text "otpauth URL 中未找到 secret"))
        end
    | Throws e =>
        Returns (Alert (text "无效的 otpauth URL: "
                        ++ Worker.message builtin_message e))
    end
  else submit n s.

(** Lines 229-235, for the answer to the [confirm] dialogue. *)
Definition remove (confirmed : bool) (name : jsstring) : outcome step :=
  if negb confirmed then Returns Nothing
  else
    bind (encodeURIComponent PASSWORD) (fun password =>
    bind (encodeURIComponent name) (fun key =>
    Returns (Fetch (str "password=" ++ password ++ str "&action=delete&key="
                    ++ key)))).

End Page.

(** A string in which every surrogate has its partner, made of code
    units. *)
Fixpoint well_formed (s : jsstring) : Prop :=
  match s with
  | [] => True
  | c :: rest =>
      0 <= c < 65536
      /\ if is_lead c
         then match rest with
              | d :: rest' => is_trail d = true /\ well_formed rest'
              | [] => False
              end
         else is_trail c = false /\ well_formed rest
  end.

End Client.

(* ================================================================== *)
(** ** A deployment for the examples *)
(* ================================================================== *)

Module Scenario.
Import JS Totp OtpAuth Literal Worker.

Definition scenario_message (e : exn) : jsstring := str "rejected".

(** The handler over the association-list store, with a case table
    that leaves everything above ASCII alone, HMAC-SHA-1 as the
    platform's signature, short stand-ins for the constant text of the
    pages, and a clock that stands at 59 seconds. *)
Definition scenario_handle (request : Request) (env : Env table)
  : outcome Response * table :=
  handleRequest caseless HmacSha1.hmac_sign scenario_message table
    table_put table_delete table_list table_get
    (str "<form>") (str "<head>") (str "<add>") (str "<remove>")
    (str "<tail>") (fun _ => 59000) request env.

Definition scenario_env : Env table :=
  mkEnv table (Some (str "hunter2"))
    [(str "github", str "JBSWY3DPEHPK3PXP")].

Definition home : URL := mkURL (str "https:") (str "example.com") (str "/") [].

Definition scenario_post (fields : list (jsstring * jsstring)) : Request :=
  mkRequest (str "POST") home (Returns fields).

Definition scenario_get (query : list (jsstring * jsstring)) : Request :=
  mkRequest (str "GET")
    (mkURL (str "https:") (str "example.com") (str "/") query)
    (Throws TypeError).


(** What [new URL] makes of a URL whose label is percent-encoded. *)
Definition label_urls : list (jsstring * URL) :=
  [ (str "otpauth://totp/%E6%9C%AA%20a?secret=JBSWY3DPEHPK3PXP&issuer=Example",
     mkURL (str "otpauth:") (str "totp") (str "/%E6%9C%AA%20a")
       [(str "secret", str "JBSWY3DPEHPK3PXP"); (str "issuer", str "Example")]) ].

Definition label_URL_new (url : jsstring) : outcome URL :=
  lookup_url label_urls url.

End Scenario.

(* ================================================================== *)
(** ** Facts about the host operators *)
(* ================================================================== *)

Import JS Base32 Totp.

Section HostFacts.

Lemma byte_val_range (b : byte) : 0 <= byte_val b < 256.
Proof.
  unfold byte_val. pose proof (Byte.to_N_bounded b). lia.
Qed.

Lemma byte_val_ToUint8 (z : Z) : byte_val (ToUint8 z) = z mod 256.
Proof.
  unfold ToUint8, byte_val.
  assert (Hr : 0 <= z mod 256 < 256) by (apply Z.mod_pos_bound; lia).
  destruct (Byte.of_N (Z.to_N (z mod 256))) as [b|] eqn:E.
  - apply Byte.to_of_N in E. rewrite E. lia.
  - apply Byte.of_N_None_iff in E. lia.
Qed.

Lemma ToInt32_small (z : Z) : - 2 ^ 31 <= z < 2 ^ 31 -> ToInt32 z = z.
Proof.
  intros H. unfold ToInt32. rewrite Z.mod_small; lia.
Qed.

(** [ToInt32] keeps the low bits. *)
Lemma ToInt32_mod_pow2 (z k : Z) :
  0 <= k <= 32 -> ToInt32 z mod 2 ^ k = z mod 2 ^ k.
Proof.
  intros Hk. unfold ToInt32.
  assert (Hd : (2 ^ k | 2 ^ 32)).
  { exists (2 ^ (32 - k)). rewrite <- Z.pow_add_r by lia. f_equal. lia. }
  assert (Hp : 0 < 2 ^ k) by (apply Z.pow_pos_nonneg; lia).
  rewrite Zminus_mod, Z.mod_mod_divide by exact Hd.
  rewrite <- Zminus_mod. f_equal. lia.
Qed.

Lemma land_low_bits (z k : Z) : 0 <= k -> Z.land z (2 ^ k - 1) = z mod 2 ^ k.
Proof.
  intros Hk. rewrite <- Z.land_ones by exact Hk.
  f_equal. rewrite Z.ones_equiv. lia.
Qed.

(** A value shifted left and a smaller value below it do not overlap. *)
Lemma lor_shifted (a b n : Z) :
  0 <= n -> 0 <= b < 2 ^ n -> Z.lor (a * 2 ^ n) b = a * 2 ^ n + b.
Proof.
  intros Hn Hb.
  rewrite <- Z.add_lor_land.
  assert (Z.land (a * 2 ^ n) b = 0) as ->; [|lia].
  apply Z.bits_inj'. intros i Hi.
  rewrite Z.land_spec, Z.bits_0.
  destruct (Z.lt_ge_cases i n) as [Hlt|Hge].
  - rewrite Z.mul_pow2_bits_low by exact Hlt. reflexivity.
  - destruct (Z.eq_dec b 0) as [->|Hnz].
    + rewrite Z.bits_0. apply andb_false_r.
    + rewrite (Z.bits_above_log2 b i); [apply andb_false_r|lia|].
      apply Z.lt_le_trans with n; [|exact Hge].
      apply Z.log2_lt_pow2; lia.
Qed.

End HostFacts.

(* ================================================================== *)
(** ** The Base32 decoder *)
(* ================================================================== *)

Section Base32Facts.

Lemma indexOf_from_absent (hay : jsstring) (c i : Z) :
  ~ In c hay -> indexOf_from hay c i = -1.
Proof.
  revert i. induction hay as [|h t IH]; intros i Hn; simpl.
  - reflexivity.
  - destruct (Z.eqb_spec h c) as [->|Hne].
    + exfalso. apply Hn. left. reflexivity.
    + apply IH. intros Hin. apply Hn. right. exact Hin.
Qed.

Lemma indexOf_from_present (hay : jsstring) (c i : Z) :
  In c hay -> i <= indexOf_from hay c i < i + Z.of_nat (List.length hay).
Proof.
  revert i. induction hay as [|h t IH]; intros i Hin; simpl in *.
  - contradiction.
  - destruct (Z.eqb_spec h c) as [->|Hne].
    + lia.
    + destruct Hin as [Heq|Hin]; [congruence|].
      specialize (IH (i + 1) Hin). lia.
Qed.

Lemma in_alphabet_dec (c : Z) : {in_alphabet c} + {~ in_alphabet c}.
Proof. apply in_dec. exact Z.eq_dec. Qed.

Lemma indexOf_alphabet_range (c : Z) :
  in_alphabet c -> 0 <= indexOf alphabet c < 32.
Proof.
  intros H. apply (indexOf_from_present alphabet c 0) in H.
  change (Z.of_nat (List.length alphabet)) with 32 in H. exact H.
Qed.

Lemma indexOf_alphabet_absent (c : Z) :
  ~ in_alphabet c -> indexOf alphabet c = -1.
Proof. apply indexOf_from_absent. Qed.

(** *** Bit buffers *)

Lemma fold_push_bit (bs : list bool) (acc : Z) :
  fold_left push_bit bs acc
  = acc * 2 ^ Z.of_nat (List.length bs) + fold_left push_bit bs 0.
Proof.
  revert acc. induction bs as [|b bs IH]; intros acc.
  - simpl. lia.
  - cbn [fold_left List.length].
    rewrite (IH (push_bit acc b)), (IH (push_bit 0 b)).
    rewrite Nat2Z.inj_succ, Z.pow_succ_r by lia.
    unfold push_bit. ring.
Qed.

Lemma bits_value_app (a b : list bool) :
  bits_value (a ++ b)
  = bits_value a * 2 ^ Z.of_nat (List.length b) + bits_value b.
Proof.
  unfold bits_value. fold push_bit.
  rewrite fold_left_app. apply fold_push_bit.
Qed.

Lemma bits_value_range (bs : list bool) :
  0 <= bits_value bs < 2 ^ Z.of_nat (List.length bs).
Proof.
  induction bs as [|b bs IH] using rev_ind.
  - cbn. lia.
  - rewrite bits_value_app, length_app, Nat2Z.inj_add.
    cbn [List.length]. rewrite Z.pow_add_r by lia.
    change (2 ^ Z.of_nat 1) with 2.
    assert (0 <= bits_value [b] < 2) by (destruct b; cbn; lia).
    nia.
Qed.

Lemma bits_value_firstn (n : nat) (bs : list bool) :
  (n <= List.length bs)%nat ->
  bits_value (firstn n bs)
  = bits_value bs / 2 ^ Z.of_nat (List.length bs - n).
Proof.
  intros Hn.
  rewrite <- (firstn_skipn n bs) at 2.
  rewrite bits_value_app, length_skipn.
  pose proof (bits_value_range (skipn n bs)) as Hr.
  rewrite length_skipn in Hr.
  rewrite Z.div_add_l by lia.
  rewrite (Z.div_small (bits_value (skipn n bs))) by exact Hr. lia.
Qed.

Lemma bits_value_skipn (n : nat) (bs : list bool) :
  (n <= List.length bs)%nat ->
  bits_value (skipn n bs)
  = bits_value bs mod 2 ^ Z.of_nat (List.length bs - n).
Proof.
  intros Hn.
  rewrite <- (firstn_skipn n bs) at 2.
  rewrite bits_value_app, length_skipn.
  pose proof (bits_value_range (skipn n bs)) as Hr.
  rewrite length_skipn in Hr.
  rewrite Z.add_comm, Z.mod_add by lia.
  rewrite Z.mod_small by exact Hr. reflexivity.
Qed.

(** The position of a symbol in the alphabet string is its RFC 4648
    value, and its five bits spell that value. *)
Lemma symbol_bits_value (c : Z) :
  in_alphabet c ->
  symbol_value c = indexOf alphabet c
  /\ bits_value (symbol_bits (symbol_value c)) = indexOf alphabet c.
Proof.
  intros H. unfold in_alphabet in H. cbn in H.
  repeat (destruct H as [<-|H]; [vm_compute; split; reflexivity|]).
  contradiction.
Qed.

(** The reference emits one byte per eight bits gathered and drops the
    rest. *)
Lemma reference_decode_length (symbols : jsstring) :
  forall buffer,
    (List.length buffer < 8)%nat ->
    List.length (reference_decode symbols buffer)
    = ((List.length buffer + 5 * List.length symbols) / 8)%nat.
Proof.
  induction symbols as [|c rest IH]; intros buffer Hb.
  - cbn [reference_decode List.length]. rewrite Nat.mul_0_r, Nat.add_0_r.
    symmetry. apply Nat.div_small. exact Hb.
  - cbn [reference_decode].
    assert (Hlen : List.length (buffer ++ symbol_bits (symbol_value c))
                   = (List.length buffer + 5)%nat)
      by (rewrite length_app; reflexivity).
    destruct (Nat.leb_spec 8 (List.length (buffer ++ symbol_bits (symbol_value c))))
      as [Hge|Hlt].
    + cbn [List.length]. rewrite IH by (rewrite length_skipn; lia).
      rewrite length_skipn, Hlen.
      replace (List.length buffer + 5 * S (List.length rest))%nat
        with (List.length buffer + 5 - 8 + 5 * List.length rest + 1 * 8)%nat by lia.
      rewrite Nat.div_add by lia. lia.
    + rewrite IH by lia. rewrite Hlen. f_equal. cbn [List.length]. lia.
Qed.

(** *** One turn of the loop against one turn of the reference *)

Lemma accumulate_low_bits (v idx k : Z) :
  0 <= idx < 32 -> 5 <= k <= 32 ->
  bor (shl v 5) idx mod 2 ^ k = (v mod 2 ^ (k - 5)) * 32 + idx.
Proof.
  intros Hidx Hk. unfold bor, shl.
  change (ToUint32 5 mod 32) with 5.
  rewrite (ToInt32_small idx) by lia.
  rewrite <- land_low_bits, Z.land_lor_distr_l, !land_low_bits by lia.
  rewrite !ToInt32_mod_pow2 by lia.
  rewrite Z.shiftl_mul_pow2 by lia.
  replace (2 ^ k) with (2 ^ (k - 5) * 2 ^ 5)
    by (rewrite <- Z.pow_add_r by lia; f_equal; lia).
  assert (Hp : 0 < 2 ^ (k - 5)) by (apply Z.pow_pos_nonneg; lia).
  rewrite Z.mul_mod_distr_r by lia.
  rewrite ToInt32_mod_pow2 by lia.
  rewrite (Z.mod_small idx) by (change (2 ^ 5) with 32; nia).
  rewrite lor_shifted by (change (2 ^ 5) with 32; lia).
  reflexivity.
Qed.

Lemma emitted_byte (v k : Z) :
  8 <= k <= 12 ->
  band (sar v (k - 8)) 0xff = (v mod 2 ^ k) / 2 ^ (k - 8).
Proof.
  intros Hk. unfold band, sar.
  assert (Hs : ToUint32 (k - 8) mod 32 = k - 8).
  { unfold ToUint32. rewrite (Z.mod_small (k - 8) (2 ^ 32)) by lia.
    apply Z.mod_small. lia. }
  rewrite Hs, (ToInt32_small 255) by lia.
  change 255 with (2 ^ 8 - 1). rewrite land_low_bits by lia.
  rewrite ToInt32_mod_pow2 by lia.
  rewrite Z.shiftr_div_pow2 by lia.
  rewrite <- (ToInt32_mod_pow2 v k) by lia.
  set (y := ToInt32 v).
  assert (Hp : 0 < 2 ^ (k - 8)) by (apply Z.pow_pos_nonneg; lia).
  replace (2 ^ k) with (2 ^ (k - 8) * 2 ^ 8)
    by (rewrite <- Z.pow_add_r by lia; f_equal; lia).
  rewrite Z.rem_mul_r by lia.
  rewrite Z.mul_comm, Z.div_add by lia.
  rewrite (Z.div_small (y mod 2 ^ (k - 8))) by (apply Z.mod_pos_bound; lia).
  reflexivity.
Qed.

Lemma decode_loop_reference (clean : jsstring) :
  forall st buffer,
    Forall in_alphabet clean ->
    same_bits st buffer ->
    decode_loop clean st
    = Returns (map ToUint8 (bytes st) ++ reference_decode clean buffer).
Proof.
  induction clean as [|c rest IH]; intros st buffer Hall Hsame.
  - simpl. rewrite app_nil_r. reflexivity.
  - inversion Hall as [|? ? Hc Hrest]; subst.
    destruct Hsame as (Hlen & Hbits & Hval).
    pose proof (indexOf_alphabet_range c Hc) as Hidx.
    destruct (symbol_bits_value c Hc) as [Hsv Hsym].
    cbn [decode_loop reference_decode].
    destruct (Z.eqb_spec (indexOf alphabet c) (-1)) as [E|_]; [lia|].
    set (idx := indexOf alphabet c) in *.
    set (v' := bor (shl (value st) 5) idx).
    set (buffer' := buffer ++ symbol_bits (symbol_value c)).
    assert (Hlen' : Z.of_nat (List.length buffer') = bits st + 5).
    { unfold buffer'. rewrite length_app, Nat2Z.inj_add. cbn. lia. }
    assert (Hval' : bits_value buffer' = v' mod 2 ^ (bits st + 5)).
    { unfold buffer', v'.
      rewrite bits_value_app, Hsym, Hval.
      rewrite accumulate_low_bits by lia.
      replace (bits st + 5 - 5) with (bits st) by lia.
      reflexivity. }
    destruct (Z.leb_spec 8 (bits st + 5)) as [Hge|Hlt].
    + assert (Hn : (8 <= List.length buffer')%nat) by lia.
      destruct (Nat.leb_spec 8 (List.length buffer')) as [_|Hc']; [|lia].
      rewrite (IH _ (skipn 8 buffer') Hrest).
      * assert (Hbyte : band (sar v' (bits st + 5 - 8)) 0xff
                        = bits_value (firstn 8 buffer')).
        { rewrite emitted_byte by lia.
          rewrite bits_value_firstn by exact Hn.
          rewrite Hval'. do 2 f_equal. lia. }
        cbn [bytes]. rewrite Hbyte, map_app, <- app_assoc. reflexivity.
      * unfold same_bits. cbn [bits value].
        rewrite length_skipn. repeat split; try lia.
        rewrite bits_value_skipn by exact Hn.
        rewrite Hval'.
        replace (Z.of_nat (List.length buffer' - 8)) with (bits st + 5 - 8) by lia.
        apply Z.mod_mod_divide.
        exists (2 ^ 8). rewrite <- Z.pow_add_r by lia. f_equal. lia.
    + destruct (Nat.leb_spec 8 (List.length buffer')) as [Hc'|_]; [lia|].
      rewrite (IH _ buffer' Hrest).
      * reflexivity.
      * unfold same_bits. cbn [bits value]. repeat split; lia.
Qed.

Lemma decode_loop_rejects (clean : jsstring) :
  forall st,
    Exists (fun c => ~ in_alphabet c) clean ->
    decode_loop clean st = Throws (Error_ "Invalid base32").
Proof.
  induction clean as [|c rest IH]; intros st Hex.
  - inversion Hex.
  - cbn [decode_loop].
    destruct (in_alphabet_dec c) as [Hin|Hout].
    + pose proof (indexOf_alphabet_range c Hin) as Hidx.
      destruct (Z.eqb_spec (indexOf alphabet c) (-1)) as [E|_]; [lia|].
      assert (Hrest : Exists (fun c => ~ in_alphabet c) rest).
      { inversion Hex; subst; [contradiction|assumption]. }
      destruct (8 <=? bits st + 5); apply IH; exact Hrest.
    + rewrite (indexOf_alphabet_absent c Hout). reflexivity.
Qed.

End Base32Facts.

(** *** Normalisation *)

Section Normalisation.

Lemma replace_trailing_eq_nil (s : jsstring) :
  replace_trailing_eq s = [] -> all_eq_signs s = true.
Proof.
  destruct s as [|u rest]; [reflexivity|].
  cbn [replace_trailing_eq]. fold (all_eq_signs rest).
  destruct ((u =? 61) && all_eq_signs rest) eqn:E; [|discriminate].
  intros _. exact E.
Qed.

Lemma replace_trailing_eq_all_eq (s : jsstring) :
  all_eq_signs (replace_trailing_eq s) = true -> replace_trailing_eq s = [].
Proof.
  induction s as [|u rest IH]; [reflexivity|].
  cbn [replace_trailing_eq]. fold (all_eq_signs rest).
  destruct ((u =? 61) && all_eq_signs rest) eqn:E; [reflexivity|].
  cbn [all_eq_signs forallb]. fold (all_eq_signs (replace_trailing_eq rest)).
  intros H. apply andb_true_iff in H as [Hu Hrest].
  apply IH, replace_trailing_eq_nil in Hrest.
  rewrite Hu, Hrest in E. discriminate.
Qed.

(** Stripping the padding twice strips nothing more. *)
Lemma replace_trailing_eq_idem (s : jsstring) :
  replace_trailing_eq (replace_trailing_eq s) = replace_trailing_eq s.
Proof.
  induction s as [|u rest IH]; [reflexivity|].
  cbn [replace_trailing_eq]. fold (all_eq_signs rest).
  destruct ((u =? 61) && all_eq_signs rest) eqn:E; [reflexivity|].
  cbn [replace_trailing_eq]. fold (all_eq_signs (replace_trailing_eq rest)).
  destruct ((u =? 61) && all_eq_signs (replace_trailing_eq rest)) eqn:E'.
  - apply andb_true_iff in E' as [Hu Hrest].
    apply replace_trailing_eq_all_eq, replace_trailing_eq_nil in Hrest.
    rewrite Hu, Hrest in E. discriminate.
  - rewrite IH. reflexivity.
Qed.

Lemma replace_trailing_eq_Forall (P : Z -> Prop) (s : jsstring) :
  Forall P s -> Forall P (replace_trailing_eq s).
Proof.
  induction 1 as [|u rest Hu Hrest IH]; cbn [replace_trailing_eq].
  - constructor.
  - destruct ((u =? 61) && _); constructor; assumption.
Qed.

Lemma StringToCodePoints_ascii (s : jsstring) :
  Forall is_ascii s -> StringToCodePoints s = s.
Proof.
  induction 1 as [|u rest Hu Hrest IH]; [reflexivity|].
  cbn [StringToCodePoints]. destruct rest as [|v rest'].
  - reflexivity.
  - assert (is_lead u = false) as ->.
    { unfold is_lead, is_ascii in *. lia. }
    cbn [andb]. rewrite IH. reflexivity.
Qed.

Variable UnicodeUpper : Z -> list Z.

(** On an ASCII string [toUpperCase] maps the letters a-z and consults
    no table. *)
Lemma toUpperCase_ascii (s : jsstring) :
  Forall is_ascii s -> toUpperCase UnicodeUpper s = map ascii_upper s.
Proof.
  intros H. unfold toUpperCase. rewrite StringToCodePoints_ascii by exact H.
  induction H as [|u rest Hu Hrest IH]; [reflexivity|].
  cbn [flat_map map]. unfold toUppercase at 1.
  assert ((u <? 128) = true) as -> by (unfold is_ascii in Hu; lia).
  cbn [app flat_map]. unfold UTF16EncodeCodePoint at 1. fold (ascii_upper u).
  assert ((ascii_upper u <=? 65535) = true) as ->.
  { unfold ascii_upper, is_ascii in *.
    destruct ((97 <=? u) && (u <=? 122)); lia. }
  cbn [app]. f_equal. exact IH.
Qed.

Lemma ascii_upper_ascii (u : Z) : is_ascii u -> is_ascii (ascii_upper u).
Proof.
  unfold is_ascii, ascii_upper. intros H.
  destruct ((97 <=? u) && (u <=? 122)) eqn:E; lia.
Qed.

Lemma ascii_upper_idem (u : Z) : ascii_upper (ascii_upper u) = ascii_upper u.
Proof.
  unfold ascii_upper.
  destruct ((97 <=? u) && (u <=? 122)) eqn:E; [|rewrite E; reflexivity].
  assert ((97 <=? u - 32) && (u - 32 <=? 122) = false) as -> by lia.
  reflexivity.
Qed.

End Normalisation.

Section Base32Claims.

Lemma in_alphabetb_spec (c : Z) : in_alphabetb c = true <-> in_alphabet c.
Proof.
  unfold in_alphabetb. destruct (in_alphabet_dec c) as [H|H].
  - pose proof (indexOf_alphabet_range c H).
    destruct (Z.eqb_spec (indexOf alphabet c) (-1)); [lia|].
    cbn. split; [intros _; exact H|reflexivity].
  - rewrite (indexOf_alphabet_absent c H). cbn.
    split; [discriminate|intros Hin; contradiction].
Qed.

Lemma forallb_in_alphabet (s : jsstring) :
  forallb in_alphabetb s = true -> Forall in_alphabet s.
Proof.
  intros H. apply Forall_forall. intros c Hc.
  apply in_alphabetb_spec. rewrite forallb_forall in H. apply H, Hc.
Qed.

Lemma existsb_not_in_alphabet (s : jsstring) :
  existsb (fun c => negb (in_alphabetb c)) s = true ->
  Exists (fun c => ~ in_alphabet c) s.
Proof.
  intros H. apply existsb_exists in H as (c & Hc & Hn).
  apply Exists_exists. exists c. split; [exact Hc|].
  intros Hin. apply in_alphabetb_spec in Hin. rewrite Hin in Hn. discriminate.
Qed.

Lemma Forall_or_Exists_alphabet (s : jsstring) :
  Forall in_alphabet s \/ Exists (fun c => ~ in_alphabet c) s.
Proof.
  destruct (Forall_Exists_dec in_alphabet in_alphabet_dec s); [left|right]; assumption.
Qed.

Variable UnicodeUpper : Z -> list Z.

(** C3.  When every symbol of the normalised input is in the alphabet
    A-Z, 2-7, [base32ToBytes] returns what the bit-buffer reference
    computes: five bits gathered per symbol, a byte emitted from the top
    of the buffer as soon as it holds eight, left-over bits dropped
    without error; an empty normalised input gives zero bytes. *)
Theorem base32ToBytes_refines_reference (s : jsstring) :
  Forall in_alphabet (clean UnicodeUpper s) ->
  base32ToBytes UnicodeUpper s
  = Returns (reference_decode (clean UnicodeUpper s) [])
  /\ (clean UnicodeUpper s = [] -> base32ToBytes UnicodeUpper s = Returns []).
Proof.
  intros Hall.
  assert (H : base32ToBytes UnicodeUpper s
              = Returns (reference_decode (clean UnicodeUpper s) [])).
  { unfold base32ToBytes.
    rewrite (decode_loop_reference _ _ [] Hall); [reflexivity|].
    unfold same_bits. cbn. lia. }
  split; [exact H|].
  intros Hnil. rewrite H, Hnil. reflexivity.
Qed.

(** C4.  When the normalised input holds a symbol that is not in the
    alphabet, [base32ToBytes] throws [Error('Invalid base32')]: the call
    has no value, so no byte decoded so far is returned. *)
Theorem base32ToBytes_rejects_foreign_symbol (s : jsstring) :
  Exists (fun c => ~ in_alphabet c) (clean UnicodeUpper s) ->
  InvalidEncoding (base32ToBytes UnicodeUpper s).
Proof.
  intros Hex. unfold InvalidEncoding, base32ToBytes.
  apply decode_loop_rejects. exact Hex.
Qed.

(** Symbols outside ASCII and the pad character are never in the
    alphabet. *)
Lemma alphabet_is_ascii_alnum (c : Z) :
  in_alphabet c -> (65 <= c <= 90) \/ (50 <= c <= 55).
Proof.
  unfold in_alphabet. cbn. intros H.
  repeat (destruct H as [<-|H]; [lia|]). contradiction.
Qed.

Lemma base32ToBytes_rejects_non_ascii (s : jsstring) (c : Z) :
  In c (clean UnicodeUpper s) -> 128 <= c ->
  InvalidEncoding (base32ToBytes UnicodeUpper s).
Proof.
  intros Hin Hc. apply decode_loop_rejects.
  apply Exists_exists. exists c. split; [exact Hin|].
  intros Ha. apply alphabet_is_ascii_alnum in Ha. lia.
Qed.

Lemma base32ToBytes_rejects_inner_pad (s : jsstring) :
  In 61 (clean UnicodeUpper s) ->
  InvalidEncoding (base32ToBytes UnicodeUpper s).
Proof.
  intros Hin. apply decode_loop_rejects.
  apply Exists_exists. exists 61. split; [exact Hin|].
  intros Ha. apply alphabet_is_ascii_alnum in Ha. lia.
Qed.

End Base32Claims.

(** The test vectors of RFC 4648, section 10, with and without their
    padding. *)
Example rfc4648_vectors :
  map (base32ToBytes caseless)
    (map str ["MY======"; "MZXQ===="; "MZXW6==="; "MZXW6YQ="; "MZXW6YTB";
              "MZXW6YTBOI======"; "mzxw6ytboi"; ""]%string)
  = map (fun text => Returns (map ToUint8 (str text)))
      ["f"; "fo"; "foo"; "foob"; "fooba"; "foobar"; "foobar"; ""]%string.
Proof. vm_compute. reflexivity. Qed.

Example base32ToBytes_rejections :
  forall U,
    InvalidEncoding (base32ToBytes U (str "1"))
    /\ InvalidEncoding (base32ToBytes U (str "MZ=XW6==="))
    /\ InvalidEncoding (base32ToBytes U (str "MZ XW6"))
    /\ InvalidEncoding (base32ToBytes U (str "MZXW8")).
Proof. intros U. repeat split. Qed.

(** What is outside ASCII before upper-casing need not be afterwards:
    under a table that, like Unicode's, sends U+017F (long s) to S, a
    text holding it decodes. *)
Remark long_s_decodes (U : Z -> list Z) :
  U 0x17F = [83] ->
  base32ToBytes U [77; 0x17F] = base32ToBytes U (str "MS")
  /\ base32ToBytes U [77; 0x17F] = Returns [ToUint8 0x64].
Proof.
  intros HU.
  assert (H : clean U [77; 0x17F] = str "MS").
  { unfold clean, toUpperCase. cbn [StringToCodePoints].
    change (is_lead 77 && is_trail 383) with false. cbn iota.
    cbn [flat_map]. unfold toUppercase at 1 2.
    change (77 <? 128) with true. change (383 <? 128) with false.
    cbn iota. rewrite HU. reflexivity. }
  unfold base32ToBytes. rewrite H. split; reflexivity.
Qed.

Lemma base32ToBytes_refines_reference_witness :
  Forall in_alphabet (clean caseless (str "jbswy3dpehpk3pxp=="))
  /\ base32ToBytes caseless (str "jbswy3dpehpk3pxp==")
     = Returns (map ToUint8 [72; 101; 108; 108; 111; 33; 222; 173; 190; 239]).
Proof.
  assert (H : Forall in_alphabet (clean caseless (str "jbswy3dpehpk3pxp==")))
    by (apply forallb_in_alphabet; vm_compute; reflexivity).
  split; [exact H|].
  exact (proj1 (base32ToBytes_refines_reference caseless _ H)).
Defined.

Lemma base32ToBytes_rejects_foreign_symbol_witness :
  Exists (fun c => ~ in_alphabet c) (clean caseless (str "1"))
  /\ InvalidEncoding (base32ToBytes caseless (str "1")).
Proof.
  assert (H : Exists (fun c => ~ in_alphabet c) (clean caseless (str "1")))
    by (apply existsb_not_in_alphabet; vm_compute; reflexivity).
  split; [exact H|].
  exact (base32ToBytes_rejects_foreign_symbol caseless _ H).
Defined.

Section ConstructorClaims.
Variable UnicodeUpper : Z -> list Z.

Lemma TOTP_constructor_loop (s : jsstring) :
  TOTP_constructor UnicodeUpper s
  = bind (decode_loop (normalize UnicodeUpper s) (mkDecoder 0 0 []))
         new_generator.
Proof. reflexivity. Qed.

Lemma normalize_ascii (s : jsstring) :
  Forall is_ascii s ->
  normalize UnicodeUpper s
  = replace_trailing_eq (map ascii_upper (replace_spaces s)).
Proof.
  intros H. unfold normalize. rewrite toUpperCase_ascii; [reflexivity|].
  unfold replace_spaces. apply Forall_forall. intros c Hc.
  apply filter_In in Hc as [Hc _].
  rewrite Forall_forall in H. apply H, Hc.
Qed.

(** The normalised form of an ASCII text is already upper case. *)
Lemma normalize_ascii_stable (s : jsstring) :
  Forall is_ascii s ->
  toUpperCase UnicodeUpper (normalize UnicodeUpper s)
  = normalize UnicodeUpper s.
Proof.
  intros H. rewrite (normalize_ascii s H).
  set (t := map ascii_upper (replace_spaces s)).
  assert (Ht : Forall (fun c => is_ascii c /\ ascii_upper c = c) t).
  { unfold t, replace_spaces. apply Forall_forall. intros c Hc.
    apply in_map_iff in Hc as (u & <- & Hu).
    apply filter_In in Hu as [Hu _].
    rewrite Forall_forall in H.
    split; [apply ascii_upper_ascii, H, Hu|apply ascii_upper_idem]. }
  apply replace_trailing_eq_Forall in Ht.
  rewrite toUpperCase_ascii.
  - rewrite <- (map_id (replace_trailing_eq t)) at 2.
    apply map_ext_Forall.
    eapply Forall_impl; [|exact Ht]. intros c [_ Hc]. exact Hc.
  - eapply Forall_impl; [|exact Ht]. intros c [Hc _]. exact Hc.
Qed.

(** C5, as the code has it.  Construction throws exactly when the text,
    after its spaces are removed, is upper-cased and its padding is
    stripped, still holds a symbol outside the alphabet, and the error
    is then [Error('Invalid base32')].  Every other text is accepted
    with the decoded key, period 30, 6 digits and SHA-1, also when the
    key has no byte at all. *)
Theorem TOTP_constructor_outcome (s : jsstring) :
  TOTP_constructor UnicodeUpper s
  = bind (base32ToBytes UnicodeUpper (replace_spaces s)) new_generator
  /\ (InvalidEncoding (TOTP_constructor UnicodeUpper s)
   <-> Exists (fun c => ~ in_alphabet c) (normalize UnicodeUpper s))
  /\ (forall this, TOTP_constructor UnicodeUpper s = Returns this
      <-> Forall in_alphabet (normalize UnicodeUpper s)
          /\ this = mkTOTP (reference_decode (normalize UnicodeUpper s) [])
                      30 6 "SHA-1")
  /\ (forall e, TOTP_constructor UnicodeUpper s = Throws e
      -> e = Error_ "Invalid base32").
Proof.
  split; [reflexivity|].
  rewrite TOTP_constructor_loop. unfold InvalidEncoding.
  destruct (Forall_or_Exists_alphabet (normalize UnicodeUpper s)) as [Hall|Hex].
  - rewrite (decode_loop_reference _ _ [] Hall) by (unfold same_bits; cbn; lia).
    cbn [bind bytes map app new_generator].
    split; [|split].
    + split; [discriminate|].
      intros Hex. exfalso.
      apply Exists_exists in Hex as (c & Hc & Hn).
      rewrite Forall_forall in Hall. apply Hn, Hall, Hc.
    + intros this. split.
      * intros [= <-]. split; [exact Hall|reflexivity].
      * intros [_ ->]. reflexivity.
    + discriminate.
  - rewrite (decode_loop_rejects _ _ Hex). cbn [bind].
    split; [|split].
    + split; [intros _; exact Hex|reflexivity].
    + intros this. split; [discriminate|].
      intros [Hall _]. exfalso.
      apply Exists_exists in Hex as (c & Hc & Hn).
      rewrite Forall_forall in Hall. apply Hn, Hall, Hc.
    + intros e [= <-]. reflexivity.
Qed.

(** C6, as the code has it.  The constructor removes every U+0020 and
    nothing else, [base32ToBytes] upper-cases and strips the trailing
    run of ['='], and the loop runs on that normalised form, for every
    text.  For a text whose normalised form upper-casing leaves alone,
    as every ASCII text is, construction does what decoding the
    normalised form does: it succeeds when that succeeds, with the same
    bytes. *)
Theorem TOTP_constructor_normalizes (s : jsstring) :
  TOTP_constructor UnicodeUpper s
  = bind (decode_loop (normalize UnicodeUpper s) (mkDecoder 0 0 []))
         new_generator
  /\ (forall c, In c (replace_spaces s) <-> In c s /\ c <> 32)
  /\ replace_trailing_eq (normalize UnicodeUpper s) = normalize UnicodeUpper s
  /\ (toUpperCase UnicodeUpper (normalize UnicodeUpper s)
      = normalize UnicodeUpper s ->
      TOTP_constructor UnicodeUpper s
      = bind (base32ToBytes UnicodeUpper (normalize UnicodeUpper s))
             new_generator)
  /\ (Forall is_ascii s ->
      toUpperCase UnicodeUpper (normalize UnicodeUpper s)
      = normalize UnicodeUpper s
      /\ normalize UnicodeUpper s
         = replace_trailing_eq (map ascii_upper (replace_spaces s))).
Proof.
  split; [apply TOTP_constructor_loop|]. split; [|split; [|split]].
  - intros c. unfold replace_spaces. rewrite filter_In.
    destruct (Z.eqb_spec c 32) as [->|Hne]; cbn [negb].
    + split; [intros [_ H]; discriminate|intros [_ H]; contradiction].
    + split; [intros [H _]; split; assumption|intros [H _]; split; [exact H|reflexivity]].
  - apply replace_trailing_eq_idem.
  - intros Hstable.
    rewrite TOTP_constructor_loop. unfold base32ToBytes, clean.
    unfold normalize in *.
    rewrite Hstable, replace_trailing_eq_idem. reflexivity.
  - intros Hascii.
    split; [apply normalize_ascii_stable|apply normalize_ascii]; exact Hascii.
Qed.

End ConstructorClaims.

(** A text that decodes to no byte, the empty text among them, is not
    rejected at construction: the statement of C5 fails there. *)
Lemma TOTP_constructor_accepts_empty_key :
  (forall U, TOTP_constructor U (str "") = Returns (mkTOTP [] 30 6 "SHA-1"))
  /\ (forall U, TOTP_constructor U (str "A") = Returns (mkTOTP [] 30 6 "SHA-1"))
  /\ ~ (forall U s,
          base32ToBytes U (replace_spaces s) = Returns [] ->
          InvalidEncoding (TOTP_constructor U s)).
Proof.
  split; [|split].
  - intros U. reflexivity.
  - intros U. reflexivity.
  - intros H. specialize (H caseless (str "") eq_refl). discriminate H.
Qed.

(** A tab inside the text is whitespace the code does not remove: the
    normalised form of the specification decodes, construction
    throws. *)
Lemma TOTP_constructor_keeps_tab :
  (forall U, base32ToBytes U (spec_normalize U (str "JB" ++ [9] ++ str "SW"))
             = Returns (map ToUint8 [72; 101]))
  /\ (forall U, TOTP_constructor U (str "JB" ++ [9] ++ str "SW")
                = Throws (Error_ "Invalid base32"))
  /\ ~ (forall U s key,
          base32ToBytes U (spec_normalize U s) = Returns key ->
          TOTP_constructor U s = new_generator key).
Proof.
  split; [|split].
  - intros U. reflexivity.
  - intros U. reflexivity.
  - intros H.
    specialize (H caseless (str "JB" ++ [9] ++ str "SW") _ eq_refl).
    discriminate H.
Qed.

Lemma TOTP_constructor_normalizes_witness :
  Forall is_ascii (str "jb sw y3dp eh pk 3pxp ==")
  /\ normalize caseless (str "jb sw y3dp eh pk 3pxp ==") = str "JBSWY3DPEHPK3PXP"
  /\ TOTP_constructor caseless (str "jb sw y3dp eh pk 3pxp ==")
     = bind (base32ToBytes caseless (str "JBSWY3DPEHPK3PXP")) new_generator
  /\ TOTP_constructor caseless (str "jb sw y3dp eh pk 3pxp ==")
     = new_generator (map ToUint8 [72; 101; 108; 108; 111; 33; 222; 173; 190; 239]).
Proof.
  assert (Hascii : Forall is_ascii (str "jb sw y3dp eh pk 3pxp =="))
    by (repeat constructor; unfold is_ascii; lia).
  pose proof (TOTP_constructor_normalizes caseless
                (str "jb sw y3dp eh pk 3pxp ==")) as (_ & _ & _ & Hdec & Hasc).
  destruct (Hasc Hascii) as [Hstable _].
  split; [exact Hascii|]. split; [vm_compute; reflexivity|].
  split; [exact (Hdec Hstable)|].
  rewrite (Hdec Hstable). vm_compute. reflexivity.
Defined.

(* ================================================================== *)
(** ** Truncation and formatting *)
(* ================================================================== *)

Section TruncationFacts.

Lemma operand_range (e : option byte) : 0 <= operand e < 256.
Proof.
  destruct e as [b|]; cbn; [apply byte_val_range|lia].
Qed.

Lemma band_mask (x k : Z) :
  0 <= x < 256 -> 0 <= k <= 8 -> band x (2 ^ k - 1) = x mod 2 ^ k.
Proof.
  intros Hx Hk. unfold band.
  assert (Hp : 0 < 2 ^ k <= 2 ^ 8).
  { split; [apply Z.pow_pos_nonneg; lia|apply Z.pow_le_mono_r; lia]. }
  change (2 ^ 8) with 256 in Hp.
  rewrite !ToInt32_small by lia.
  apply land_low_bits. lia.
Qed.

Lemma shl_small (x n : Z) :
  0 <= n < 32 -> 0 <= x -> x * 2 ^ n < 2 ^ 31 -> shl x n = x * 2 ^ n.
Proof.
  intros Hn Hx Hb. unfold shl.
  assert (Hs : ToUint32 n mod 32 = n).
  { unfold ToUint32. rewrite (Z.mod_small n (2 ^ 32)) by lia.
    apply Z.mod_small. lia. }
  assert (Hp : 0 < 2 ^ n) by (apply Z.pow_pos_nonneg; lia).
  rewrite Hs, (ToInt32_small x) by nia.
  rewrite Z.shiftl_mul_pow2 by lia.
  apply ToInt32_small. nia.
Qed.

Lemma bor_small (a b : Z) :
  - 2 ^ 31 <= a < 2 ^ 31 -> - 2 ^ 31 <= b < 2 ^ 31 -> bor a b = Z.lor a b.
Proof.
  intros Ha Hb. unfold bor. rewrite !ToInt32_small by assumption. reflexivity.
Qed.

Lemma join31_range (x y z w : Z) :
  0 <= y < 256 -> 0 <= z < 256 -> 0 <= w < 256 ->
  0 <= join31 x y z w < 2 ^ 31.
Proof.
  intros Hy Hz Hw. unfold join31.
  assert (0 <= x mod 128 < 128) by (apply Z.mod_pos_bound; lia).
  lia.
Qed.

Lemma lor_join31 (x y z w : Z) :
  0 <= y < 256 -> 0 <= z < 256 -> 0 <= w < 256 ->
  Z.lor (Z.lor (Z.lor ((x mod 128) * 2 ^ 24) (y * 2 ^ 16)) (z * 2 ^ 8)) w
  = join31 x y z w
  /\ 0 <= Z.lor ((x mod 128) * 2 ^ 24) (y * 2 ^ 16) < 2 ^ 31
  /\ 0 <= Z.lor (Z.lor ((x mod 128) * 2 ^ 24) (y * 2 ^ 16)) (z * 2 ^ 8)
     < 2 ^ 31.
Proof.
  intros Hy Hz Hw. unfold join31.
  assert (0 <= x mod 128 < 128) by (apply Z.mod_pos_bound; lia).
  rewrite (lor_shifted _ (y * 2 ^ 16) 24) by lia.
  replace ((x mod 128) * 2 ^ 24 + y * 2 ^ 16)
    with (((x mod 128) * 2 ^ 8 + y) * 2 ^ 16) by lia.
  rewrite (lor_shifted _ (z * 2 ^ 8) 16) by lia.
  replace (((x mod 128) * 2 ^ 8 + y) * 2 ^ 16 + z * 2 ^ 8)
    with ((((x mod 128) * 2 ^ 8 + y) * 2 ^ 8 + z) * 2 ^ 8) by lia.
  rewrite (lor_shifted _ w 8) by lia.
  lia.
Qed.

(** The expression of lines 317-321 on any four operands. *)
Lemma binCode_expression (x y z w : Z) :
  0 <= x < 256 -> 0 <= y < 256 -> 0 <= z < 256 -> 0 <= w < 256 ->
  bor (bor (bor (shl (band x 0x7f) 24) (shl (band y 0xff) 16))
           (shl (band z 0xff) 8))
      (band w 0xff)
  = join31 x y z w.
Proof.
  intros Hx Hy Hz Hw.
  change 0x7f with (2 ^ 7 - 1). change 0xff with (2 ^ 8 - 1).
  rewrite !band_mask by lia.
  change (2 ^ 7) with 128. change (2 ^ 8) with 256.
  rewrite (Z.mod_small y), (Z.mod_small z), (Z.mod_small w) by lia.
  assert (0 <= x mod 128 < 128) by (apply Z.mod_pos_bound; lia).
  rewrite !shl_small by lia.
  pose proof (join31_range x y z w Hy Hz Hw) as Hr.
  destruct (lor_join31 x y z w Hy Hz Hw) as (Hj & H1 & H2).
  rewrite <- Hj.
  rewrite (bor_small (x mod 128 * 2 ^ 24) (y * 2 ^ 16)) by lia.
  rewrite (bor_small _ (z * 2 ^ 8)) by lia.
  rewrite (bor_small _ w) by lia.
  reflexivity.
Qed.

Lemma binCode_of_join31 (hmac : list byte) :
  binCode_of hmac
  = join31 (operand (get hmac (offset_of hmac)))
           (operand (get hmac (offset_of hmac + 1)))
           (operand (get hmac (offset_of hmac + 2)))
           (operand (get hmac (offset_of hmac + 3))).
Proof.
  unfold binCode_of. apply binCode_expression; apply operand_range.
Qed.

Lemma binCode_of_range (hmac : list byte) : 0 <= binCode_of hmac < 2 ^ 31.
Proof.
  rewrite binCode_of_join31. apply join31_range; apply operand_range.
Qed.

Lemma offset_of_range (hmac : list byte) : 0 <= offset_of hmac <= 15.
Proof.
  unfold offset_of.
  change 0xf with (2 ^ 4 - 1). rewrite band_mask by (try apply operand_range; lia).
  change (2 ^ 4) with 16.
  pose proof (Z.mod_pos_bound (operand (get hmac (Z.of_nat (List.length hmac) - 1))) 16).
  lia.
Qed.

Lemma get_in_bounds (a : list byte) (i : Z) :
  0 <= i < Z.of_nat (List.length a) ->
  get a i = Some (nth (Z.to_nat i) a x00).
Proof.
  intros Hi. unfold get.
  destruct (Z.ltb_spec i 0) as [Hneg|_]; [lia|].
  apply nth_error_nth'. lia.
Qed.

End TruncationFacts.

Section FormatFacts.

Lemma low_digits_S (k : nat) (v : Z) :
  low_digits (S k) v = (48 + v mod 10) :: low_digits k (v / 10).
Proof.
  unfold low_digits. cbn [seq map]. f_equal.
  - unfold decimal_digit. cbn. rewrite Z.div_1_r. reflexivity.
  - rewrite <- seq_shift, map_map. apply map_ext. intros i.
    unfold decimal_digit. rewrite Nat2Z.inj_succ, Z.pow_succ_r by lia.
    rewrite Z.div_div by (try apply Z.pow_pos_nonneg; lia). reflexivity.
Qed.

Lemma low_digits_0 (k : nat) : low_digits k 0 = repeat 48 k.
Proof.
  induction k as [|k IH]; [reflexivity|].
  rewrite low_digits_S. cbn. change (0 / 10) with 0. rewrite IH. reflexivity.
Qed.

(** With enough fuel the digits of [v] are the low digits of [v]
    without their trailing zeros. *)
Lemma digits_le_low_digits (fuel : nat) :
  forall (k : nat) (v : Z),
    (1 <= fuel)%nat -> 0 <= v < 2 ^ Z.of_nat fuel -> 0 <= v < 10 ^ Z.of_nat k ->
    (1 <= k)%nat ->
    (List.length (digits_le fuel v) <= k)%nat /\
    digits_le fuel v ++ repeat 48 (k - List.length (digits_le fuel v))
    = low_digits k v.
Proof.
  induction fuel as [|f IH]; intros k v Hf Hv2 Hv10 Hk; [lia|].
  destruct k as [|k]; [lia|].
  cbn [digits_le]. rewrite low_digits_S.
  destruct (Z.ltb_spec v 10) as [Hlt|Hge].
  - cbn [List.length app]. split; [lia|].
    rewrite Z.mod_small, Z.div_small, low_digits_0 by lia.
    replace (S k - 1)%nat with k by lia. reflexivity.
  - assert (Hk2 : (1 <= k)%nat).
    { destruct k; [|lia]. change (10 ^ Z.of_nat 1) with 10 in Hv10. lia. }
    assert (Hf2 : (1 <= f)%nat).
    { destruct f; [|lia]. change (2 ^ Z.of_nat 1) with 2 in Hv2. lia. }
    rewrite Nat2Z.inj_succ, Z.pow_succ_r in Hv2, Hv10 by lia.
    assert (Hq2 : 0 <= v / 10 < 2 ^ Z.of_nat f).
    { split; [apply Z.div_pos; lia|].
      apply Z.div_lt_upper_bound; lia. }
    assert (Hq10 : 0 <= v / 10 < 10 ^ Z.of_nat k).
    { split; [apply Z.div_pos; lia|].
      apply Z.div_lt_upper_bound; lia. }
    destruct (IH k (v / 10) Hf2 Hq2 Hq10 Hk2) as [Hlen Heq].
    cbn [List.length app]. split; [lia|].
    replace (S k - S (List.length (digits_le f (v / 10))))%nat
      with (k - List.length (digits_le f (v / 10)))%nat by lia.
    rewrite Heq. reflexivity.
Qed.

Lemma cycle_zero (n : nat) (cur : jsstring) :
  cur = [] \/ cur = [48] -> cycle [48] cur n = repeat 48 n.
Proof.
  revert cur. induction n as [|n IH]; intros cur Hcur; [reflexivity|].
  destruct Hcur as [->| ->]; cbn [cycle repeat]; f_equal; apply IH; auto.
Qed.

(** [v.toString().padStart(k, '0')] for [0 <= v < 10 ^ k]: the [k] low
    digits, most significant first. *)
Lemma padStart_toString (k : nat) (v : Z) :
  (1 <= k)%nat -> 0 <= v < 10 ^ Z.of_nat k ->
  padStart (Number_toString v) (Z.of_nat k) (str "0") = rev (low_digits k v).
Proof.
  intros Hk Hv. unfold Number_toString.
  destruct (Z.ltb_spec v 0) as [Hneg|_]; [lia|].
  set (fuel := S (Z.to_nat (Z.log2 v))).
  assert (Hfuel : 0 <= v < 2 ^ Z.of_nat fuel).
  { split; [lia|]. unfold fuel.
    rewrite Nat2Z.inj_succ, Z2Nat.id by apply Z.log2_nonneg.
    destruct (Z.eq_dec v 0) as [->|Hnz]; [cbn; lia|].
    apply Z.log2_spec. lia. }
  destruct (digits_le_low_digits fuel k v) as [Hlen Heq]; [unfold fuel; lia|lia|lia|lia|].
  rewrite <- Heq, rev_app_distr, rev_repeat.
  unfold padStart. rewrite length_rev.
  change (str "0") with [48].
  destruct (Z.leb_spec (Z.of_nat k) (Z.of_nat (List.length (digits_le fuel v))))
    as [Hfull|Hshort]; cbn [orb].
  - replace (k - List.length (digits_le fuel v))%nat with 0%nat by lia.
    reflexivity.
  - rewrite cycle_zero by auto. f_equal. f_equal. lia.
Qed.

Lemma format_otp_six (binCode : Z) :
  0 <= binCode ->
  format_otp 6 binCode
  = map (decimal_digit (binCode mod 10 ^ 6)) [5; 4; 3; 2; 1; 0].
Proof.
  intros Hb. unfold format_otp, rem.
  rewrite Z.rem_mod_nonneg by lia.
  assert (Hv : 0 <= binCode mod 10 ^ 6 < 10 ^ Z.of_nat 6)
    by (apply Z.mod_pos_bound; lia).
  etransitivity; [exact (padStart_toString 6 _ ltac:(lia) Hv)|reflexivity].
Qed.

Lemma decimal_digit_is_digit (v i : Z) : is_digit (decimal_digit v i).
Proof.
  unfold is_digit, decimal_digit.
  pose proof (Z.mod_pos_bound (v / 10 ^ i) 10). lia.
Qed.

Lemma six_digits (v : Z) :
  List.length (map (decimal_digit v) [5; 4; 3; 2; 1; 0]) = 6%nat
  /\ Forall is_digit (map (decimal_digit v) [5; 4; 3; 2; 1; 0]).
Proof.
  split; [reflexivity|].
  cbn [map]. repeat constructor; apply decimal_digit_is_digit.
Qed.

(** *** The counter message *)

Lemma counter_message_bytes (counter : Z) :
  counter_message counter
  = Returns ([x00; x00; x00; x00] ++ be32 (counter mod 2 ^ 32)).
Proof. reflexivity. Qed.

Lemma counter_at_floor (now : Z) :
  counter_at now 30 = now / 30000 /\ counter_at now 30 = (now / 1000) / 30.
Proof.
  assert (H : counter_at now 30 = now / 30000).
  { unfold counter_at, Qfloor, Qdiv, Qmult, Qinv, inject_Z. cbn.
    f_equal. lia. }
  split; [exact H|].
  rewrite H, Z.div_div by lia. reflexivity.
Qed.

End FormatFacts.

Section GeneratorClaims.

Variable UnicodeUpper : Z -> list Z.
Variable hmac_sign : string -> list byte -> list byte -> outcome (list byte).

Lemma TOTP_constructor_fields (s : jsstring) (this : TOTP) :
  TOTP_constructor UnicodeUpper s = Returns this ->
  period this = 30 /\ digits this = 6 /\ algorithm this = "SHA-1"%string.
Proof.
  unfold TOTP_constructor.
  destruct (base32ToBytes UnicodeUpper (replace_spaces s)); cbn [bind];
    [|discriminate].
  intros [= <-]. repeat split.
Qed.

Lemma operand_get_digest (digest : list byte) (i : Z) :
  0 <= i < Z.of_nat (List.length digest) ->
  operand (get digest i) = digest_byte digest i.
Proof.
  intros Hi. rewrite get_in_bounds by exact Hi. reflexivity.
Qed.

Lemma offset_of_reference (digest : list byte) :
  List.length digest = 20%nat -> offset_of digest = reference_offset digest.
Proof.
  intros Hlen. unfold offset_of, reference_offset.
  rewrite Hlen. change (Z.of_nat 20 - 1) with 19.
  rewrite operand_get_digest by (rewrite Hlen; lia).
  unfold band, digest_byte.
  pose proof (byte_val_range (nth (Z.to_nat 19) digest x00)).
  rewrite !ToInt32_small by lia. reflexivity.
Qed.

Lemma binCode_of_reference (digest : list byte) :
  List.length digest = 20%nat -> binCode_of digest = reference_binCode digest.
Proof.
  intros Hlen.
  pose proof (offset_of_range digest) as Hoff.
  rewrite binCode_of_join31. unfold reference_binCode.
  rewrite <- (offset_of_reference digest Hlen).
  set (o := offset_of digest) in *.
  rewrite !operand_get_digest by (rewrite Hlen; lia).
  pose proof (byte_val_range (nth (Z.to_nat (o + 1)) digest x00)) as H1.
  pose proof (byte_val_range (nth (Z.to_nat (o + 2)) digest x00)) as H2.
  pose proof (byte_val_range (nth (Z.to_nat (o + 3)) digest x00)) as H3.
  fold (digest_byte digest (o + 1)) in H1.
  fold (digest_byte digest (o + 2)) in H2.
  fold (digest_byte digest (o + 3)) in H3.
  change 0x7F with (2 ^ 7 - 1). rewrite land_low_bits by lia.
  rewrite !Z.shiftl_mul_pow2 by lia.
  change (2 ^ 7) with 128.
  symmetry. apply lor_join31; assumption.
Qed.

(** C9.  On a 20-byte digest the offset is at most 15, so the reads at
    [offset] to [offset + 3] touch positions up to 18, and each of them,
    like the read of the last byte, finds an element. *)
Theorem truncation_reads_in_bounds (digest : list byte) :
  List.length digest = 20%nat ->
  0 <= offset_of digest <= 15
  /\ offset_of digest = reference_offset digest
  /\ (exists b, get digest (Z.of_nat (List.length digest) - 1) = Some b)
  /\ (forall k, 0 <= k <= 3 ->
        0 <= offset_of digest + k <= 18
        /\ exists b, get digest (offset_of digest + k) = Some b).
Proof.
  intros Hlen. pose proof (offset_of_range digest) as Hoff.
  split; [exact Hoff|]. split; [apply offset_of_reference, Hlen|]. split.
  - eexists. apply get_in_bounds. lia.
  - intros k Hk. split; [lia|].
    eexists. apply get_in_bounds. lia.
Qed.

Lemma generateOTP_steps (this : TOTP) (counter : Z) :
  generateOTP hmac_sign this counter
  = bind (hmac_sign (algorithm this) (secret this)
            ([x00; x00; x00; x00] ++ be32 (counter mod 2 ^ 32)))
         (fun hmac => Returns (format_otp (digits this) (binCode_of hmac))).
Proof. reflexivity. Qed.

(** C1.  When the platform signs the counter message with a 20-byte
    digest, the generator returns the RFC 4226 code of that digest:
    offset from the low nibble of byte 19, four bytes joined big-endian
    with the top bit cleared into a 31-bit number, its remainder modulo
    10^6 written in decimal and zero-padded to six digit characters. *)
Theorem generateOTP_reference_code (this : TOTP) (counter : Z)
    (message digest : list byte) :
  digits this = 6 ->
  counter_message counter = Returns message ->
  hmac_sign (algorithm this) (secret this) message = Returns digest ->
  List.length digest = 20%nat ->
  generateOTP hmac_sign this counter = Returns (reference_code digest)
  /\ 0 <= reference_binCode digest < 2 ^ 31
  /\ List.length (reference_code digest) = 6%nat
  /\ Forall is_digit (reference_code digest).
Proof.
  intros Hdigits Hmsg Hsign Hlen.
  pose proof (binCode_of_range digest) as Hrange.
  rewrite (binCode_of_reference digest Hlen) in Hrange.
  split; [|split; [exact Hrange|apply six_digits]].
  unfold generateOTP. rewrite Hmsg. cbn [bind]. rewrite Hsign. cbn [bind].
  rewrite Hdigits, (binCode_of_reference digest Hlen).
  rewrite format_otp_six by lia. reflexivity.
Qed.

(** C8.  Two invocations, on generators built from texts that decode
    to the same key bytes and for the same counter, each with the
    platform as it answers then: whenever the platform gives the two
    the same HMAC of the key and the counter message, they have the
    same outcome.  The outcome is the HMAC's, and a code is the six
    decimal digits, ['0'] to ['9'], of [binCode mod 10^6] of the
    digest: nothing else enters it, and of the clock only the
    counter. *)
Theorem generateOTP_deterministic
    (platform : string -> list byte -> list byte -> outcome (list byte))
    (secret1 secret2 : jsstring) (this1 this2 : TOTP) (counter : Z) :
  TOTP_constructor UnicodeUpper secret1 = Returns this1 ->
  TOTP_constructor UnicodeUpper secret2 = Returns this2 ->
  secret this1 = secret this2 ->
  hmac_sign (algorithm this1) (secret this1)
            ([x00; x00; x00; x00] ++ be32 (counter mod 2 ^ 32))
  = platform (algorithm this1) (secret this1)
             ([x00; x00; x00; x00] ++ be32 (counter mod 2 ^ 32)) ->
  generateOTP hmac_sign this1 counter = generateOTP platform this2 counter
  /\ generateOTP hmac_sign this1 counter
     = bind (hmac_sign (algorithm this1) (secret this1)
               ([x00; x00; x00; x00] ++ be32 (counter mod 2 ^ 32)))
            (fun digest =>
               Returns (map (decimal_digit (binCode_of digest mod 10 ^ 6))
                            [5; 4; 3; 2; 1; 0]))
  /\ generateOTP hmac_sign this1 counter = generateOTP hmac_sign this2 counter
  /\ (forall code, generateOTP hmac_sign this1 counter = Returns code ->
        List.length code = 6%nat /\ Forall is_digit code)
  /\ (forall now1 now2, now1 / 30000 = now2 / 30000 ->
        generate hmac_sign this1 now1 = generate hmac_sign this2 now2).
Proof.
  intros H1 H2 Hkey Hplatform.
  destruct (TOTP_constructor_fields _ _ H1) as (Hp1 & Hd1 & Ha1).
  destruct (TOTP_constructor_fields _ _ H2) as (Hp2 & Hd2 & Ha2).
  assert (Hsteps : forall sign this c,
             generateOTP sign this c
             = bind (sign (algorithm this) (secret this)
                       ([x00; x00; x00; x00] ++ be32 (c mod 2 ^ 32)))
                    (fun hmac =>
                       Returns (format_otp (digits this) (binCode_of hmac)))).
  { intros sign this c. unfold generateOTP.
    rewrite counter_message_bytes. reflexivity. }
  assert (Hsame : forall c, generateOTP hmac_sign this1 c
                            = generateOTP hmac_sign this2 c).
  { intros c. rewrite !Hsteps.
    rewrite Ha1, Ha2, Hd1, Hd2, Hkey. reflexivity. }
  split; [|split; [|split; [apply Hsame|split]]].
  - rewrite !Hsteps. rewrite Hplatform, Ha1, Ha2, Hd1, Hd2, <- Hkey.
    reflexivity.
  - rewrite Hsteps, Hd1.
    destruct (hmac_sign _ _ _) as [hmac|e]; cbn [bind]; [|reflexivity].
    rewrite format_otp_six by apply binCode_of_range. reflexivity.
  - intros code. rewrite generateOTP_steps.
    destruct (hmac_sign _ _ _) as [hmac|e]; cbn [bind]; [|discriminate].
    intros [= <-]. rewrite Hd1.
    rewrite format_otp_six by apply binCode_of_range.
    apply six_digits.
  - intros now1 now2 Hnow. unfold generate. rewrite Hp1, Hp2.
    rewrite (proj1 (counter_at_floor now1)), (proj1 (counter_at_floor now2)).
    rewrite Hnow. apply Hsame.
Qed.

Lemma be32_be64 (c : Z) :
  0 <= c < 2 ^ 32 ->
  be64 c = Some ([x00; x00; x00; x00] ++ be32 (c mod 2 ^ 32)).
Proof.
  intros Hc. unfold be64.
  assert (((0 <=? c) && (c <? 2 ^ 64)) = true) as -> by lia.
  rewrite (Z.mod_small c) by lia.
  cbn [map app be32].
  change (8 * 7) with 56. change (8 * 6) with 48. change (8 * 5) with 40.
  change (8 * 4) with 32. change (8 * 3) with 24. change (8 * 2) with 16.
  change (8 * 1) with 8. change (8 * 0) with 0.
  rewrite !(Z.div_small c (2 ^ 56)), !(Z.div_small c (2 ^ 48)),
    !(Z.div_small c (2 ^ 40)), !(Z.div_small c (2 ^ 32)) by lia.
  change (2 ^ 0) with 1. rewrite Z.div_1_r. reflexivity.
Qed.

Lemma ToUint8_zero (z : Z) : ToUint8 z = x00 -> z mod 256 = 0.
Proof.
  intros H. rewrite <- byte_val_ToUint8, H. reflexivity.
Qed.

Lemma be64_high_zero (c : Z) (low : list byte) :
  be64 c = Some ([x00; x00; x00; x00] ++ low) -> 0 <= c < 2 ^ 32.
Proof.
  unfold be64.
  destruct ((0 <=? c) && (c <? 2 ^ 64)) eqn:E; [|discriminate].
  cbn [map app]. intros H. injection H as H7 H6 H5 H4 _.
  apply ToUint8_zero in H7, H6, H5, H4.
  change (8 * 7) with 56 in H7. change (8 * 6) with 48 in H6.
  change (8 * 5) with 40 in H5. change (8 * 4) with 32 in H4.
  assert (Hc : 0 <= c < 2 ^ 64) by lia.
  change (2 ^ 56) with 72057594037927936 in H7.
  change (2 ^ 48) with 281474976710656 in H6.
  change (2 ^ 40) with 1099511627776 in H5.
  change (2 ^ 32) with 4294967296 in H4.
  change (2 ^ 64) with 18446744073709551616 in Hc.
  change (2 ^ 32) with 4294967296.
  revert H7 H6 H5 H4. Z.div_mod_to_equations. lia.
Qed.

(** C10.  The message the generator has signed keeps the counter
    modulo 2^32 in its low four bytes under four zero bytes: that
    buffer, and no other, is what [generateOTP] hands to the platform's
    HMAC with the key.  A counter and the counter 2^32 later therefore
    give the same message and the same code, and the message is the
    eight-byte big-endian encoding of the counter exactly when the
    counter is below 2^32. *)
Theorem generateOTP_counter_wraps (this : TOTP) (counter : Z) :
  counter_message counter
  = Returns ([x00; x00; x00; x00] ++ be32 (counter mod 2 ^ 32))
  /\ generateOTP hmac_sign this counter
     = bind (hmac_sign (algorithm this) (secret this)
               ([x00; x00; x00; x00] ++ be32 (counter mod 2 ^ 32)))
            (fun hmac => Returns (format_otp (digits this) (binCode_of hmac)))
  /\ counter_message (counter + 2 ^ 32) = counter_message counter
  /\ generateOTP hmac_sign this (counter + 2 ^ 32)
     = generateOTP hmac_sign this counter
  /\ (be64 counter = Some ([x00; x00; x00; x00] ++ be32 (counter mod 2 ^ 32))
      <-> 0 <= counter < 2 ^ 32).
Proof.
  assert (Hmod : (counter + 2 ^ 32) mod 2 ^ 32 = counter mod 2 ^ 32).
  { rewrite <- (Z.mul_1_l (2 ^ 32)) at 1. apply Z.mod_add. lia. }
  split; [apply counter_message_bytes|].
  split; [apply generateOTP_steps|]. split; [|split].
  - rewrite !counter_message_bytes, Hmod. reflexivity.
  - rewrite !generateOTP_steps, Hmod. reflexivity.
  - split; [apply be64_high_zero|apply be32_be64].
Qed.

(** C2, as the code has it.  [generate] passes to [generateOTP] the
    floor of the clock reading in seconds over 30 and uses the clock for
    nothing else.  While that counter is below 2^32 the message is its
    eight-byte big-endian encoding: four zero bytes, then the value;
    and this message, with the key, is what the generator hands to the
    platform's HMAC, whose digest alone makes the code. *)
Theorem generate_counter_message (this : TOTP) (now : Z) :
  period this = 30 ->
  0 <= now / 30000 < 2 ^ 32 ->
  counter_at now (period this) = now / 30000
  /\ counter_at now (period this) = (now / 1000) / 30
  /\ generate hmac_sign this now = generateOTP hmac_sign this (now / 30000)
  /\ exists message,
       counter_message (now / 30000) = Returns message
       /\ be64 (now / 30000) = Some message
       /\ firstn 4 message = [x00; x00; x00; x00]
       /\ skipn 4 message = be32 (now / 30000)
       /\ generate hmac_sign this now
          = bind (hmac_sign (algorithm this) (secret this) message)
                 (fun hmac =>
                    Returns (format_otp (digits this) (binCode_of hmac))).
Proof.
  intros Hperiod Hrange. rewrite Hperiod.
  destruct (counter_at_floor now) as [Hfloor Hsec].
  split; [exact Hfloor|]. split; [exact Hsec|]. split.
  - unfold generate. rewrite Hperiod, Hfloor. reflexivity.
  - exists ([x00; x00; x00; x00] ++ be32 ((now / 30000) mod 2 ^ 32)).
    split; [apply counter_message_bytes|].
    split; [apply be32_be64, Hrange|].
    split; [reflexivity|].
    split; [rewrite (Z.mod_small (now / 30000)) by exact Hrange; reflexivity|].
    unfold generate. rewrite Hperiod, Hfloor. apply generateOTP_steps.
Qed.

End GeneratorClaims.

(** *** The generator on the RFC 4226 and RFC 6238 test key *)

Import HmacSha1.

(** Every digest of the reference service has 20 bytes. *)
Lemma hmac_sign_length (hash : string) (key message digest : list byte) :
  hmac_sign hash key message = Returns digest -> List.length digest = 20%nat.
Proof.
  unfold hmac_sign. destruct key as [|k key]; [discriminate|].
  destruct (String.eqb hash "SHA-1"); [|discriminate].
  intros [= <-]. rewrite length_map.
  unfold hmac_sha1, sha1.
  destruct (blocks _ _ _) as [[[[h0 h1] h2] h3] h4]. reflexivity.
Qed.

Example rfc_secret_decodes :
  TOTP_constructor caseless rfc_secret = new_generator rfc_key.
Proof. vm_compute. reflexivity. Qed.

Example rfc4226_codes :
  map (generateOTP hmac_sign (mkTOTP rfc_key 30 6 "SHA-1")) [0; 1; 2; 3; 4]
  = map (fun code => Returns (str code))
      ["755224"; "287082"; "359152"; "969429"; "338314"]%string.
Proof. vm_compute. reflexivity. Qed.

Example rfc6238_codes :
  generate hmac_sign (mkTOTP rfc_key 30 6 "SHA-1") 59000
  = Returns (str "287082")
  /\ generate hmac_sign (mkTOTP rfc_key 30 6 "SHA-1") 1111111109000
     = Returns (str "081804")
  /\ generate hmac_sign (mkTOTP rfc_key 30 6 "SHA-1") 1234567890000
     = Returns (str "005924").
Proof. vm_compute. repeat split. Qed.

(** A generator with an empty key is refused by the reference HMAC
    when it is asked for a code, not when it is built. *)
Example empty_key_fails_at_generation :
  TOTP_constructor caseless (str "") = new_generator []
  /\ generateOTP hmac_sign (mkTOTP [] 30 6 "SHA-1") 1 = Throws DataError.
Proof. vm_compute. split; reflexivity. Qed.

Lemma generateOTP_reference_code_witness :
  counter_message 1 = Returns (map ToUint8 [0; 0; 0; 0; 0; 0; 0; 1])
  /\ hmac_sign "SHA-1" rfc_key (map ToUint8 [0; 0; 0; 0; 0; 0; 0; 1])
     = Returns rfc_digest_1
  /\ List.length rfc_digest_1 = 20%nat
  /\ reference_offset rfc_digest_1 = 11
  /\ reference_binCode rfc_digest_1 = 0x41397eea
  /\ generateOTP hmac_sign (mkTOTP rfc_key 30 6 "SHA-1") 1
     = Returns (str "287082").
Proof.
  assert (Hmsg : counter_message 1
                 = Returns (map ToUint8 [0; 0; 0; 0; 0; 0; 0; 1]))
    by reflexivity.
  assert (Hsign : hmac_sign "SHA-1" rfc_key (map ToUint8 [0; 0; 0; 0; 0; 0; 0; 1])
                  = Returns rfc_digest_1)
    by (vm_compute; reflexivity).
  assert (Hlen : List.length rfc_digest_1 = 20%nat) by reflexivity.
  split; [exact Hmsg|]. split; [exact Hsign|]. split; [exact Hlen|].
  split; [vm_compute; reflexivity|]. split; [vm_compute; reflexivity|].
  exact (proj1 (generateOTP_reference_code hmac_sign
                  (mkTOTP rfc_key 30 6 "SHA-1") 1 _ rfc_digest_1
                  eq_refl Hmsg Hsign Hlen)).
Defined.

Lemma truncation_reads_in_bounds_witness :
  List.length rfc_digest_1 = 20%nat
  /\ offset_of rfc_digest_1 = 11
  /\ map (get rfc_digest_1) [19; 11; 12; 13; 14]
     = map (fun v => Some (ToUint8 v)) [0xab; 0xc1; 0x39; 0x7e; 0xea]
  /\ 0 <= offset_of rfc_digest_1 + 3 <= 18.
Proof.
  assert (Hlen : List.length rfc_digest_1 = 20%nat) by reflexivity.
  pose proof (truncation_reads_in_bounds rfc_digest_1 Hlen)
    as (_ & _ & _ & Hreads).
  split; [exact Hlen|]. split; [vm_compute; reflexivity|].
  split; [vm_compute; reflexivity|].
  exact (proj1 (Hreads 3 ltac:(lia))).
Defined.

Lemma generateOTP_deterministic_witness :
  TOTP_constructor caseless rfc_secret = new_generator rfc_key
  /\ TOTP_constructor caseless rfc_secret_typed = new_generator rfc_key
  /\ generateOTP hmac_sign (mkTOTP rfc_key 30 6 "SHA-1") 1
     = bind (hmac_sign "SHA-1"%string rfc_key
               ([x00; x00; x00; x00] ++ be32 (1 mod 2 ^ 32)))
            (fun digest =>
               Returns (map (decimal_digit (binCode_of digest mod 10 ^ 6))
                            [5; 4; 3; 2; 1; 0]))
  /\ (List.length (str "287082") = 6%nat /\ Forall is_digit (str "287082"))
  /\ generate hmac_sign (mkTOTP rfc_key 30 6 "SHA-1") 30000
     = generate hmac_sign (mkTOTP rfc_key 30 6 "SHA-1") 59999.
Proof.
  assert (H1 : TOTP_constructor caseless rfc_secret = new_generator rfc_key)
    by (vm_compute; reflexivity).
  assert (H2 : TOTP_constructor caseless rfc_secret_typed = new_generator rfc_key)
    by (vm_compute; reflexivity).
  pose proof (generateOTP_deterministic caseless hmac_sign hmac_sign
                rfc_secret rfc_secret_typed _ _ 1 H1 H2 eq_refl eq_refl)
    as (_ & Hvalue & _ & Hcode & Hclock).
  split; [exact H1|]. split; [exact H2|]. split; [exact Hvalue|].
  split; [apply Hcode; vm_compute; reflexivity|].
  apply Hclock. reflexivity.
Defined.

Lemma generate_counter_message_witness :
  0 <= 59000 / 30000 < 2 ^ 32
  /\ counter_at 59000 30 = 1
  /\ generate hmac_sign (mkTOTP rfc_key 30 6 "SHA-1") 59000
     = generateOTP hmac_sign (mkTOTP rfc_key 30 6 "SHA-1") 1
  /\ be64 1 = Some (map ToUint8 [0; 0; 0; 0; 0; 0; 0; 1])
  /\ generate hmac_sign (mkTOTP rfc_key 30 6 "SHA-1") 59000
     = bind (hmac_sign "SHA-1"%string rfc_key (map ToUint8 [0; 0; 0; 0; 0; 0; 0; 1]))
            (fun hmac => Returns (format_otp 6 (binCode_of hmac))).
Proof.
  assert (Hrange : 0 <= 59000 / 30000 < 2 ^ 32)
    by (change (59000 / 30000) with 1; lia).
  pose proof (generate_counter_message hmac_sign
                (mkTOTP rfc_key 30 6 "SHA-1") 59000 eq_refl Hrange)
    as (Hfloor & _ & Hgen & message & _ & Hbe & _ & _ & Hsign).
  split; [exact Hrange|]. split; [exact Hfloor|]. split; [exact Hgen|].
  split; [reflexivity|].
  assert (Hmessage : message = map ToUint8 [0; 0; 0; 0; 0; 0; 0; 1]).
  { change (59000 / 30000) with 1 in Hbe.
    change (be64 1) with (Some (map ToUint8 [0; 0; 0; 0; 0; 0; 0; 1])) in Hbe.
    injection Hbe as <-. reflexivity. }
  rewrite <- Hmessage. exact Hsign.
Defined.

(** From 2^32 on the low four bytes no longer hold the counter: at the
    clock reading 2^32 * 30 seconds the message is eight zero bytes, not
    the encoding of 2^32, and the statement of C2 fails there. *)
Lemma counter_message_drops_high_bits :
  counter_at (2 ^ 32 * 30000) 30 = 2 ^ 32
  /\ counter_message (2 ^ 32) = Returns (repeat x00 8)
  /\ be64 (2 ^ 32) = Some [x00; x00; x00; x01; x00; x00; x00; x00]
  /\ ~ (forall now message,
          counter_message (counter_at now 30) = Returns message ->
          be64 (counter_at now 30) = Some message).
Proof.
  split; [reflexivity|]. split; [reflexivity|]. split; [reflexivity|].
  intros H. specialize (H (2 ^ 32 * 30000) _ eq_refl). discriminate H.
Qed.

(* ================================================================== *)
(** ** The otpauth parser *)
(* ================================================================== *)

Import OtpAuth.


Section DecodeFacts.

Lemma continuation_octets_shorter (n : nat) :
  forall s octets rest,
    continuation_octets n s = Some (octets, rest) ->
    (List.length rest <= List.length s)%nat.
Proof.
  induction n as [|n IH]; intros s octets rest; cbn [continuation_octets].
  - intros [= _ <-]. lia.
  - destruct s as [|c [|a [|b s']]]; try discriminate.
    destruct (c =? 37); [|discriminate].
    destruct (ParseHexOctet a b); [|discriminate].
    destruct (continuation_octets n s') as [[o r]|] eqn:E; [|discriminate].
    intros [= _ <-]. apply IH in E. cbn [List.length]. lia.
Qed.

(** [Decode] never runs short of fuel: any fuel from the length of the
    string on gives the same outcome. *)
Lemma Decode_fuel (fuel : nat) :
  forall s, (List.length s <= fuel)%nat ->
            Decode fuel s = Decode (List.length s) s.
Proof.
  induction fuel as [fuel IH] using lt_wf_ind. intros s Hs.
  destruct s as [|c rest]; [destruct fuel; reflexivity|].
  destruct fuel as [|fuel]; [cbn in Hs; lia|].
  cbn [List.length] in *.
  assert (Hstep : forall t, (List.length t <= List.length rest)%nat ->
                            Decode fuel t = Decode (List.length rest) t).
  { intros t Ht. rewrite (IH fuel) by lia.
    symmetry. apply (IH (List.length rest)); lia. }
  cbn [Decode].
  destruct (c =? 37); [|rewrite Hstep by lia; reflexivity].
  destruct rest as [|a [|b rest']]; try reflexivity.
  destruct (ParseHexOctet a b) as [B|]; [|reflexivity].
  destruct (leading_ones B) as [|[|[|[|[|m]]]]]; try reflexivity.
  - rewrite Hstep by (cbn [List.length]; lia). reflexivity.
  - destruct (continuation_octets 1 rest') as [[o r]|] eqn:E; [|reflexivity].
    apply continuation_octets_shorter in E.
    destruct (utf8_code_point (B :: o)); [|reflexivity].
    rewrite Hstep by (cbn [List.length]; lia). reflexivity.
  - destruct (continuation_octets 2 rest') as [[o r]|] eqn:E; [|reflexivity].
    apply continuation_octets_shorter in E.
    destruct (utf8_code_point (B :: o)); [|reflexivity].
    rewrite Hstep by (cbn [List.length]; lia). reflexivity.
  - destruct (continuation_octets 3 rest') as [[o r]|] eqn:E; [|reflexivity].
    apply continuation_octets_shorter in E.
    destruct (utf8_code_point (B :: o)); [|reflexivity].
    rewrite Hstep by (cbn [List.length]; lia). reflexivity.
Qed.

End DecodeFacts.

Section ParserClaims.

Lemma jsstring_eqb_eq (a b : jsstring) : jsstring_eqb a b = true <-> a = b.
Proof.
  unfold jsstring_eqb. destruct (list_eq_dec Z.eq_dec a b); split; congruence.
Qed.

Lemma property_none (entries : list (jsstring * jsstring)) (key : jsstring) :
  forall found,
    property entries key found = None
    <-> found = None /\ forall v, ~ In (key, v) entries.
Proof.
  induction entries as [|[k v] rest IH]; intros found; cbn [property].
  - split; [intros ->; split; [reflexivity|intros v []]|intros [-> _]; reflexivity].
  - rewrite IH. destruct (jsstring_eqb k key) eqn:E.
    + apply jsstring_eqb_eq in E. subst k.
      split; [intros [H _]; discriminate|].
      intros [_ H]. exfalso. apply (H v). left. reflexivity.
    + split.
      * intros [-> H]. split; [reflexivity|].
        intros w [Heq|Hin]; [|apply (H w Hin)].
        injection Heq as -> _.
        assert (jsstring_eqb key key = true) by (apply jsstring_eqb_eq; reflexivity).
        congruence.
      * intros [-> H]. split; [reflexivity|].
        intros w Hin. apply (H w). right. exact Hin.
Qed.

Lemma property_last (before after : list (jsstring * jsstring))
    (key v : jsstring) :
  (forall w, ~ In (key, w) after) ->
  forall found, property (before ++ (key, v) :: after) key found = Some v.
Proof.
  intros Hafter. induction before as [|[k w] rest IH]; intros found.
  - cbn [app property].
    assert (jsstring_eqb key key = true) as -> by (apply jsstring_eqb_eq; reflexivity).
    clear found. revert v. induction after as [|[k w] rest IH]; intros v.
    + reflexivity.
    + cbn [property]. destruct (jsstring_eqb k key) eqn:E.
      * apply jsstring_eqb_eq in E. subst k.
        exfalso. apply (Hafter w). left. reflexivity.
      * apply IH. intros w' Hin. apply (Hafter w'). right. exact Hin.
  - cbn [app property]. apply IH.
Qed.

Variable URL_new : jsstring -> outcome URL.

(** The four ways out of the parser. *)
Lemma parseOtpAuthUrl_cases (url : jsstring) :
  (forall r,
     parseOtpAuthUrl URL_new url = Returns r
     <-> exists u,
           URL_new url = Returns u
           /\ protocol u = str "otpauth:"
           /\ hostname u = str "totp"
           /\ decodeURIComponent (slice1 (pathname u)) = Returns (label r)
           /\ OtpAuth.secret r = property (searchParams u) (str "secret") None
           /\ issuer r = property (searchParams u) (str "issuer") None)
  /\ (forall e, URL_new url = Throws e ->
        parseOtpAuthUrl URL_new url = Throws e)
  /\ (forall u, URL_new url = Returns u ->
        protocol u <> str "otpauth:" ->
        parseOtpAuthUrl URL_new url = Throws (Error_ protocol_message))
  /\ (forall u, URL_new url = Returns u ->
        protocol u = str "otpauth:" -> hostname u <> str "totp" ->
        parseOtpAuthUrl URL_new url = Throws (Error_ type_message))
  /\ (forall u e, URL_new url = Returns u ->
        protocol u = str "otpauth:" -> hostname u = str "totp" ->
        decodeURIComponent (slice1 (pathname u)) = Throws e ->
        parseOtpAuthUrl URL_new url = Throws e).
Proof.
  unfold parseOtpAuthUrl.
  destruct (URL_new url) as [u|e0] eqn:Eurl; cbn [bind].
  2:{ repeat split; try discriminate.
      - intros (u & Hu & _). discriminate.
      - intros e [= <-]. reflexivity. }
  destruct (jsstring_eqb (protocol u) (str "otpauth:")) eqn:Ep; cbn [negb].
  2:{ assert (Hp : protocol u <> str "otpauth:").
      { intros H. apply jsstring_eqb_eq in H. congruence. }
      repeat split; try discriminate.
      - intros (u' & [= <-] & H & _). contradiction.
      - intros u' [= <-] H _. contradiction.
      - intros u' e [= <-] H. contradiction. }
  apply jsstring_eqb_eq in Ep.
  destruct (jsstring_eqb (hostname u) (str "totp")) eqn:Eh; cbn [negb].
  2:{ assert (Hh : hostname u <> str "totp").
      { intros H. apply jsstring_eqb_eq in H. congruence. }
      repeat split; try discriminate.
      - intros (u' & [= <-] & _ & H & _). contradiction.
      - intros u' [= <-] H. contradiction.
      - intros u' e [= <-] _ H. contradiction. }
  apply jsstring_eqb_eq in Eh.
  destruct (decodeURIComponent (slice1 (pathname u))) as [lbl|e1] eqn:Ed;
    cbn [bind].
  - repeat split; try discriminate.
    + intros [= <-]. exists u. cbn. repeat split; assumption.
    + intros (u' & [= <-] & _ & _ & Hl & Hs & Hi).
      destruct r as [l s i]. cbn in *. rewrite Ed in Hl.
      injection Hl as ->. subst. reflexivity.
    + intros u' [= <-] H. contradiction.
    + intros u' [= <-] _ H. contradiction.
    + intros u' e [= <-] _ _. rewrite Ed. discriminate.
  - repeat split; try discriminate.
    + intros (u' & [= <-] & _ & _ & Hl & _). rewrite Ed in Hl. discriminate.
    + intros u' [= <-] H. contradiction.
    + intros u' [= <-] _ H. contradiction.
    + intros u' e [= <-] _ _. rewrite Ed. intros [= <-]. reflexivity.
Qed.

(** C7, as the code has it.  The parser returns exactly when the string
    parses as a URL, its protocol is [otpauth:], its hostname is [totp]
    and the path after its first character is well-formed
    percent-encoding; it then returns the decoded path as label and the
    [secret] and [issuer] parameters, each the last value given under
    that name and absent when the name is.  In every other case it
    throws: the constructor's error for a string that is no URL, its own
    errors for another protocol or hostname, [URIError] for a malformed
    escape in the path. *)
Theorem parseOtpAuthUrl_outcome (url : jsstring) :
  (forall r,
     parseOtpAuthUrl URL_new url = Returns r
     <-> exists u,
           URL_new url = Returns u
           /\ protocol u = str "otpauth:"
           /\ hostname u = str "totp"
           /\ decodeURIComponent (slice1 (pathname u)) = Returns (label r)
           /\ OtpAuth.secret r = property (searchParams u) (str "secret") None
           /\ issuer r = property (searchParams u) (str "issuer") None)
  /\ (~ (exists u label,
           URL_new url = Returns u
           /\ protocol u = str "otpauth:"
           /\ hostname u = str "totp"
           /\ decodeURIComponent (slice1 (pathname u)) = Returns label)
      -> InvalidUri (parseOtpAuthUrl URL_new url))
  /\ (forall e, URL_new url = Throws e ->
        parseOtpAuthUrl URL_new url = Throws e)
  /\ (forall u, URL_new url = Returns u ->
        protocol u <> str "otpauth:" ->
        parseOtpAuthUrl URL_new url = Throws (Error_ protocol_message))
  /\ (forall u, URL_new url = Returns u ->
        protocol u = str "otpauth:" -> hostname u <> str "totp" ->
        parseOtpAuthUrl URL_new url = Throws (Error_ type_message))
  /\ (forall u e, URL_new url = Returns u ->
        protocol u = str "otpauth:" -> hostname u = str "totp" ->
        decodeURIComponent (slice1 (pathname u)) = Throws e ->
        parseOtpAuthUrl URL_new url = Throws e)
  /\ (forall entries key,
        property entries key None = None <-> forall v, ~ In (key, v) entries)
  /\ (forall before after key v,
        (forall w, ~ In (key, w) after) ->
        property (before ++ (key, v) :: after) key None = Some v).
Proof.
  destruct (parseOtpAuthUrl_cases url) as (Hiff & Hurl & Hproto & Hhost & Hpath).
  split; [exact Hiff|]. split.
  - intros Hnone. unfold InvalidUri.
    destruct (parseOtpAuthUrl URL_new url) as [r|e] eqn:E.
    + exfalso. apply Hnone.
      destruct (proj1 (Hiff r) eq_refl) as (u & Hu & Hp & Hh & Hl & _).
      exists u, (label r). repeat split; assumption.
    + exists e. reflexivity.
  - split; [exact Hurl|]. split; [exact Hproto|]. split; [exact Hhost|].
    split; [exact Hpath|]. split.
    + intros entries key. rewrite property_none. split.
      * intros [_ H]. exact H.
      * intros H. split; [reflexivity|exact H].
    + intros before after key v Hafter. apply property_last. exact Hafter.
Qed.

End ParserClaims.

(** A path that is not well-formed percent-encoding makes the parser
    throw although the URL parses with protocol [otpauth:] and hostname
    [totp]: the statement of C7 fails there. *)
Lemma parseOtpAuthUrl_malformed_escape :
  scenario_URL_new (str "otpauth://totp/%")
  = Returns (mkURL (str "otpauth:") (str "totp") (str "/%") [])
  /\ parseOtpAuthUrl scenario_URL_new (str "otpauth://totp/%") = Throws URIError
  /\ ~ (forall URL_new url u,
          URL_new url = Returns u ->
          protocol u = str "otpauth:" -> hostname u = str "totp" ->
          exists r, parseOtpAuthUrl URL_new url = Returns r).
Proof.
  split; [reflexivity|]. split; [reflexivity|].
  intros H.
  destruct (H scenario_URL_new (str "otpauth://totp/%") _ eq_refl eq_refl eq_refl)
    as [r Hr].
  discriminate Hr.
Qed.

Lemma parseOtpAuthUrl_outcome_witness :
  parseOtpAuthUrl scenario_URL_new
    (str "otpauth://totp/Example:alice@site.com?secret=JBSWY3DPEHPK3PXP&issuer=Example")
  = Returns (mkParsed (str "Example:alice@site.com")
               (Some (str "JBSWY3DPEHPK3PXP")) (Some (str "Example")))
  /\ parseOtpAuthUrl scenario_URL_new (str "otpauth://totp/alice")
     = Returns (mkParsed (str "alice") None None)
  /\ parseOtpAuthUrl scenario_URL_new (str "hotp://totp/x?secret=ABC")
     = Throws (Error_ protocol_message)
  /\ parseOtpAuthUrl scenario_URL_new (str "otpauth://hotp/x?secret=ABC")
     = Throws (Error_ type_message)
  /\ InvalidUri (parseOtpAuthUrl scenario_URL_new (str "totp/alice")).
Proof.
  split; [|split; [|split; [|split]]].
  - apply (proj1 (parseOtpAuthUrl_outcome scenario_URL_new _)).
    eexists. repeat split; reflexivity.
  - apply (proj1 (parseOtpAuthUrl_outcome scenario_URL_new _)).
    eexists. repeat split; reflexivity.
  - destruct (parseOtpAuthUrl_outcome scenario_URL_new
                (str "hotp://totp/x?secret=ABC"))
      as (_ & _ & _ & Hproto & _).
    eapply Hproto; [reflexivity|cbn; discriminate].
  - destruct (parseOtpAuthUrl_outcome scenario_URL_new
                (str "otpauth://hotp/x?secret=ABC"))
      as (_ & _ & _ & _ & Hhost & _).
    eapply Hhost; [reflexivity|reflexivity|cbn; discriminate].
  - destruct (parseOtpAuthUrl_outcome scenario_URL_new (str "totp/alice"))
      as (_ & Hinvalid & _).
    apply Hinvalid. intros (u & label & Hu & _). discriminate Hu.
Defined.

(* ================================================================== *)
(** ** More on the Base32 decoder *)
(* ================================================================== *)

Import Rfc4648.

Section BitStreams.

Lemma bits_bytes_short (stream : list bool) :
  (List.length stream < 8)%nat -> bits_bytes stream = [].
Proof.
  intros H.
  do 8 (destruct stream as [|? stream]; [reflexivity|]).
  cbn [List.length] in H. lia.
Qed.

Lemma bits_bytes_octet (octet rest : list bool) :
  List.length octet = 8%nat ->
  bits_bytes (octet ++ rest) = ToUint8 (bits_value octet) :: bits_bytes rest.
Proof.
  intros H.
  do 8 (destruct octet as [|? octet]; [discriminate|]).
  destruct octet; [reflexivity|discriminate].
Qed.

(** The reference decoder cuts the bits of the text into bytes. *)
Lemma reference_decode_stream (symbols : jsstring) :
  forall buffer,
    (List.length buffer < 8)%nat ->
    reference_decode symbols buffer = bits_bytes (buffer ++ text_bits symbols).
Proof.
  induction symbols as [|c rest IH]; intros buffer Hb.
  - cbn [reference_decode text_bits flat_map]. rewrite app_nil_r.
    symmetry. apply bits_bytes_short, Hb.
  - cbn [reference_decode text_bits flat_map]. fold (text_bits rest).
    rewrite app_assoc.
    set (buffer' := buffer ++ symbol_bits (symbol_value c)).
    assert (Hlen : List.length buffer' = (List.length buffer + 5)%nat)
      by (unfold buffer'; rewrite length_app; reflexivity).
    destruct (Nat.leb_spec 8 (List.length buffer')) as [Hge|Hlt].
    + rewrite IH by (rewrite length_skipn; lia).
      symmetry.
      replace (buffer' ++ text_bits rest)
        with (firstn 8 buffer' ++ (skipn 8 buffer' ++ text_bits rest))
        by (rewrite app_assoc, firstn_skipn; reflexivity).
      apply bits_bytes_octet. rewrite length_firstn. lia.
    + apply IH. lia.
Qed.

Lemma bits_bytes_length (stream : list bool) :
  List.length (bits_bytes stream) = (List.length stream / 8)%nat.
Proof.
  induction stream as [stream IH] using (induction_ltof1 _ (@List.length bool)).
  unfold ltof in IH.
  destruct (Nat.lt_ge_cases (List.length stream) 8) as [Hlt|Hge].
  - rewrite bits_bytes_short by exact Hlt.
    symmetry. apply Nat.div_small. exact Hlt.
  - assert (Hcut : bits_bytes stream
                   = ToUint8 (bits_value (firstn 8 stream))
                       :: bits_bytes (skipn 8 stream)).
    { rewrite <- (firstn_skipn 8 stream) at 1.
      apply bits_bytes_octet. rewrite length_firstn. lia. }
    rewrite Hcut. cbn [List.length].
    rewrite IH by (rewrite length_skipn; lia).
    rewrite length_skipn.
    replace (List.length stream) with (List.length stream - 8 + 1 * 8)%nat at 2 by lia.
    rewrite Nat.div_add by lia. lia.
Qed.

(** Bytes cut from a stream stay when the stream goes on; the bits
    left over are carried into what follows. *)
Lemma bits_bytes_app (front back : list bool) :
  bits_bytes (front ++ back)
  = bits_bytes front
    ++ bits_bytes (skipn (8 * (List.length front / 8)) front ++ back).
Proof.
  induction front as [front IH] using (induction_ltof1 _ (@List.length bool)).
  unfold ltof in IH.
  destruct (Nat.lt_ge_cases (List.length front) 8) as [Hlt|Hge].
  - rewrite (bits_bytes_short front) by exact Hlt.
    rewrite (Nat.div_small _ 8) by exact Hlt. reflexivity.
  - assert (Hlen8 : List.length (firstn 8 front) = 8%nat)
      by (rewrite length_firstn; lia).
    assert (Hcut : bits_bytes front
                   = ToUint8 (bits_value (firstn 8 front))
                       :: bits_bytes (skipn 8 front)).
    { rewrite <- (firstn_skipn 8 front) at 1.
      apply bits_bytes_octet, Hlen8. }
    assert (Hcut' : bits_bytes (front ++ back)
                    = ToUint8 (bits_value (firstn 8 front))
                        :: bits_bytes (skipn 8 front ++ back)).
    { rewrite <- (firstn_skipn 8 front) at 1. rewrite <- app_assoc.
      apply bits_bytes_octet, Hlen8. }
    rewrite Hcut, Hcut'. cbn [app]. f_equal.
    rewrite IH by (rewrite length_skipn; lia).
    do 3 f_equal.
    rewrite length_skipn, skipn_skipn. f_equal.
    replace (List.length front) with (List.length front - 8 + 1 * 8)%nat at 2 by lia.
    rewrite Nat.div_add by lia. lia.
Qed.

Lemma text_bits_length (symbols : jsstring) :
  List.length (text_bits symbols) = (5 * List.length symbols)%nat.
Proof.
  induction symbols as [|c rest IH]; [reflexivity|].
  cbn [text_bits flat_map]. fold (text_bits rest).
  rewrite length_app, IH. cbn [List.length symbol_bits]. lia.
Qed.

Lemma text_bits_app (a b : jsstring) :
  text_bits (a ++ b) = text_bits a ++ text_bits b.
Proof. apply flat_map_app. Qed.

End BitStreams.

Section Base32More.

Lemma alphabet_symbol_plain (c : Z) :
  in_alphabet c -> is_ascii c /\ ascii_upper c = c /\ c <> 61.
Proof.
  unfold in_alphabet. cbn. intros H. unfold is_ascii.
  repeat (destruct H as [<-|H]; [repeat split; (lia || discriminate)|]).
  contradiction.
Qed.

Lemma replace_trailing_eq_app_pad (s : jsstring) (k : nat) :
  replace_trailing_eq (s ++ repeat 61 k) = replace_trailing_eq s.
Proof.
  assert (Hpad : forall n, forallb (fun v => v =? 61) (repeat 61 n) = true).
  { induction n as [|n IHn]; [reflexivity|]. cbn. exact IHn. }
  induction s as [|u rest IH].
  - cbn [app]. destruct k as [|k]; [reflexivity|].
    cbn [repeat replace_trailing_eq]. rewrite Hpad. reflexivity.
  - cbn [app replace_trailing_eq].
    rewrite forallb_app, Hpad, andb_true_r, IH. reflexivity.
Qed.

Lemma replace_trailing_eq_plain (s : jsstring) :
  ~ In 61 s -> replace_trailing_eq s = s.
Proof.
  induction s as [|u rest IH]; intros Hn; [reflexivity|].
  cbn [replace_trailing_eq].
  destruct (Z.eqb_spec u 61) as [->|Hne].
  - exfalso. apply Hn. left. reflexivity.
  - cbn [andb]. rewrite IH; [reflexivity|].
    intros Hin. apply Hn. right. exact Hin.
Qed.

Lemma StringToCodePoints_pair (u v : Z) (rest : jsstring) :
  StringToCodePoints (u :: v :: rest)
  = if is_lead u && is_trail v
    then ((u - 0xD800) * 0x400 + (v - 0xDC00) + 0x10000)
           :: StringToCodePoints rest
    else u :: StringToCodePoints (v :: rest).
Proof. reflexivity. Qed.

(** Reading code points stops at a unit that cannot end a surrogate
    pair. *)
Lemma StringToCodePoints_app (s t : jsstring) :
  match t with [] => True | v :: _ => is_trail v = false end ->
  StringToCodePoints (s ++ t) = StringToCodePoints s ++ StringToCodePoints t.
Proof.
  intros Ht.
  induction s as [s IH] using (induction_ltof1 _ (@List.length Z)).
  unfold ltof in IH.
  destruct s as [|u [|v rest]].
  - reflexivity.
  - cbn [app]. destruct t as [|w t']; [reflexivity|].
    rewrite StringToCodePoints_pair, Ht, andb_false_r. reflexivity.
  - change ((u :: v :: rest) ++ t) with (u :: v :: (rest ++ t)).
    rewrite !StringToCodePoints_pair.
    destruct (is_lead u && is_trail v).
    + rewrite IH by (cbn [List.length]; lia). reflexivity.
    + change (v :: rest ++ t) with ((v :: rest) ++ t).
      rewrite IH by (cbn [List.length]; lia). reflexivity.
Qed.

Variable UnicodeUpper : Z -> list Z.

Lemma toUpperCase_app_pad (s : jsstring) (k : nat) :
  toUpperCase UnicodeUpper (s ++ repeat 61 k)
  = toUpperCase UnicodeUpper s ++ repeat 61 k.
Proof.
  unfold toUpperCase.
  rewrite StringToCodePoints_app by (destruct k; [exact I|reflexivity]).
  rewrite !flat_map_app. f_equal.
  assert (Hpad : Forall is_ascii (repeat 61 k)).
  { apply Forall_forall. intros c Hc. apply repeat_spec in Hc. subst.
    unfold is_ascii. lia. }
  fold (toUpperCase UnicodeUpper (repeat 61 k)).
  rewrite toUpperCase_ascii by exact Hpad.
  rewrite map_repeat. reflexivity.
Qed.

Lemma clean_alphabet (t : jsstring) :
  Forall in_alphabet t -> clean UnicodeUpper t = t.
Proof.
  intros H. unfold clean.
  assert (Hplain : Forall (fun c => is_ascii c /\ ascii_upper c = c /\ c <> 61) t).
  { eapply Forall_impl; [|exact H]. intros c. apply alphabet_symbol_plain. }
  rewrite toUpperCase_ascii
    by (eapply Forall_impl; [|exact Hplain]; intros c Hc; apply Hc).
  assert (Hmap : map ascii_upper t = t).
  { rewrite <- (map_id t) at 2. apply map_ext_Forall.
    eapply Forall_impl; [|exact Hplain]. intros c Hc. apply Hc. }
  rewrite Hmap. apply replace_trailing_eq_plain.
  intros Hin. rewrite Forall_forall in Hplain.
  destruct (Hplain 61 Hin) as (_ & _ & Hne). apply Hne. reflexivity.
Qed.

(** The decoder as a cut of the text's bit stream. *)
Lemma base32ToBytes_stream (s : jsstring) :
  Forall in_alphabet (clean UnicodeUpper s) ->
  base32ToBytes UnicodeUpper s
  = Returns (bits_bytes (text_bits (clean UnicodeUpper s))).
Proof.
  intros Hall. unfold base32ToBytes.
  rewrite (decode_loop_reference _ _ [] Hall) by (unfold same_bits; cbn; lia).
  cbn [bytes map app].
  rewrite reference_decode_stream by (cbn; lia). reflexivity.
Qed.

(** X1.  A text of [n] valid symbols decodes to exactly [5 n / 8]
    bytes, rounded down: no symbol count is refused and the bits beyond
    the last whole byte are dropped. *)
Theorem base32ToBytes_length (s : jsstring) :
  Forall in_alphabet (clean UnicodeUpper s) ->
  exists data,
    base32ToBytes UnicodeUpper s = Returns data
    /\ List.length data = (5 * List.length (clean UnicodeUpper s) / 8)%nat.
Proof.
  intros Hall. eexists. split; [apply base32ToBytes_stream, Hall|].
  rewrite bits_bytes_length, text_bits_length. reflexivity.
Qed.

(** X2.  Decoding goes left to right: the bytes of a text are a prefix
    of the bytes of any longer text of valid symbols that starts with
    it, and after a whole number of eight-symbol blocks the rest is
    decoded on its own. *)
Theorem base32ToBytes_app (a b : jsstring) :
  Forall in_alphabet a -> Forall in_alphabet b ->
  exists x y tail,
    base32ToBytes UnicodeUpper a = Returns x
    /\ base32ToBytes UnicodeUpper b = Returns y
    /\ base32ToBytes UnicodeUpper (a ++ b) = Returns (x ++ tail)
    /\ ((List.length a mod 8 = 0)%nat -> tail = y).
Proof.
  intros Ha Hb.
  assert (Hab : Forall in_alphabet (a ++ b)) by (apply Forall_app; split; assumption).
  exists (bits_bytes (text_bits a)), (bits_bytes (text_bits b)),
    (bits_bytes (skipn (8 * (List.length (text_bits a) / 8)) (text_bits a)
                 ++ text_bits b)).
  pose proof (clean_alphabet a Ha) as Ca.
  pose proof (clean_alphabet b Hb) as Cb.
  pose proof (clean_alphabet (a ++ b) Hab) as Cab.
  split; [rewrite base32ToBytes_stream; rewrite Ca; [reflexivity|exact Ha]|].
  split; [rewrite base32ToBytes_stream; rewrite Cb; [reflexivity|exact Hb]|].
  split.
  - rewrite base32ToBytes_stream; rewrite Cab; [|exact Hab].
    rewrite text_bits_app, bits_bytes_app. reflexivity.
  - intros Hblock. rewrite skipn_all2; [reflexivity|].
    rewrite text_bits_length.
    apply Nat.Div0.div_exact in Hblock.
    rewrite Hblock at 2.
    replace (5 * (8 * (List.length a / 8)))%nat
      with ((5 * (List.length a / 8)) * 8)%nat by lia.
    rewrite Nat.div_mul by lia. lia.
Qed.

(** X3.  Padding is not counted: any number of ['='] at the end of any
    text, a multiple of eight characters or not, changes nothing. *)
Theorem base32ToBytes_padding (s : jsstring) (k : nat) :
  base32ToBytes UnicodeUpper (s ++ repeat 61 k) = base32ToBytes UnicodeUpper s.
Proof.
  unfold base32ToBytes, clean.
  rewrite toUpperCase_app_pad, replace_trailing_eq_app_pad. reflexivity.
Qed.

(** X4.  A symbol left dangling is ignored: when a text of valid
    symbols has 0, 2 or 5 symbols beyond its last whole block, one more
    symbol (a length RFC 4648 never produces) adds no byte and raises no
    error. *)
Theorem base32ToBytes_dangling_symbol (t : jsstring) (c : Z) :
  Forall in_alphabet t -> in_alphabet c ->
  In (List.length t mod 8)%nat [0; 2; 5]%nat ->
  base32ToBytes UnicodeUpper (t ++ [c]) = base32ToBytes UnicodeUpper t.
Proof.
  intros Ht Hc Hmod.
  assert (Htc : Forall in_alphabet (t ++ [c]))
    by (apply Forall_app; split; [exact Ht|constructor; [exact Hc|constructor]]).
  rewrite !base32ToBytes_stream;
    rewrite ?(clean_alphabet _ Htc), ?(clean_alphabet _ Ht); try assumption.
  rewrite text_bits_app, bits_bytes_app.
  rewrite <- (app_nil_r (bits_bytes (text_bits t))) at 2.
  do 2 f_equal. apply bits_bytes_short.
  rewrite length_app, length_skipn, text_bits_length.
  change (List.length (text_bits [c])) with 5%nat.
  pose proof (Nat.div_mod_eq (List.length t) 8) as Hdm.
  pose proof (Nat.div_mod_eq (5 * List.length t) 8) as Hdm5.
  pose proof (Nat.mod_upper_bound (5 * List.length t) 8 ltac:(lia)) as Hr5.
  set (q := (List.length t / 8)%nat) in *.
  set (m := (List.length t mod 8)%nat) in *.
  cbn [In] in Hmod. destruct Hmod as [Hm|[Hm|[Hm|[]]]]; lia.
Qed.

End Base32More.

Section Base32RoundTrip.

Lemma ToUint8_byte_val (b : byte) : ToUint8 (byte_val b) = b.
Proof.
  unfold ToUint8. rewrite Z.mod_small by apply byte_val_range.
  unfold byte_val. rewrite N2Z.id, Byte.of_to_N. reflexivity.
Qed.

Lemma byte_bits_value (b : byte) : ToUint8 (bits_value (byte_bits b)) = b.
Proof. destruct b; reflexivity. Qed.

Lemma data_bits_bytes (data : list byte) (pad : list bool) :
  (List.length pad < 8)%nat ->
  bits_bytes (flat_map byte_bits data ++ pad) = data.
Proof.
  intros Hpad. induction data as [|b rest IH].
  - apply bits_bytes_short, Hpad.
  - cbn [flat_map]. rewrite <- app_assoc.
    rewrite bits_bytes_octet by reflexivity.
    rewrite byte_bits_value, IH. reflexivity.
Qed.

(** The groups of five cover the stream, with fewer than five zero
    bits added at the end. *)
Lemma quintets_concat (stream : list bool) :
  Forall (fun q => List.length q = 5%nat) (quintets stream)
  /\ exists pad, concat (quintets stream) = stream ++ pad
                 /\ (List.length pad < 5)%nat.
Proof.
  induction stream as [stream IH] using (induction_ltof1 _ (@List.length bool)).
  unfold ltof in IH.
  destruct stream as [|a [|b [|c [|d [|e rest]]]]].
  - split; [constructor|]. exists []. split; [reflexivity|cbn; lia].
  - split; [repeat constructor|].
    exists [false; false; false; false]. split; [reflexivity|cbn; lia].
  - split; [repeat constructor|].
    exists [false; false; false]. split; [reflexivity|cbn; lia].
  - split; [repeat constructor|].
    exists [false; false]. split; [reflexivity|cbn; lia].
  - split; [repeat constructor|].
    exists [false]. split; [reflexivity|cbn; lia].
  - destruct (IH rest) as (Hall & pad & Hcat & Hpad); [cbn [List.length]; lia|].
    cbn [quintets]. split; [constructor; [reflexivity|exact Hall]|].
    exists pad. split; [|exact Hpad].
    cbn [concat app]. rewrite Hcat. reflexivity.
Qed.

(** Every five-bit group has a symbol, and the symbol gives the group
    back. *)
Lemma quintet_symbol (q : list bool) :
  List.length q = 5%nat ->
  in_alphabet (symbol_of (bits_value q))
  /\ symbol_bits (symbol_value (symbol_of (bits_value q))) = q.
Proof.
  intros H.
  do 5 (destruct q as [|? q]; [discriminate|]).
  destruct q; [|discriminate].
  split.
  - apply in_alphabetb_spec.
    repeat match goal with b : bool |- _ => destruct b end; reflexivity.
  - repeat match goal with b : bool |- _ => destruct b end; reflexivity.
Qed.

Lemma encode_unpadded_symbols (data : list byte) :
  Forall in_alphabet (encode_unpadded data)
  /\ exists pad, text_bits (encode_unpadded data) = flat_map byte_bits data ++ pad
                 /\ (List.length pad < 5)%nat.
Proof.
  unfold encode_unpadded.
  destruct (quintets_concat (flat_map byte_bits data)) as (Hall & pad & Hcat & Hpad).
  split.
  - apply Forall_forall. intros c Hc.
    apply in_map_iff in Hc as (q & <- & Hq).
    rewrite Forall_forall in Hall. apply quintet_symbol, Hall, Hq.
  - exists pad. split; [|exact Hpad].
    rewrite <- Hcat. unfold text_bits.
    rewrite flat_map_concat_map, map_map. f_equal.
    rewrite <- (map_id (quintets (flat_map byte_bits data))) at 2.
    apply map_ext_Forall.
    eapply Forall_impl; [|exact Hall]. intros q Hq. apply quintet_symbol, Hq.
Qed.

Variable UnicodeUpper : Z -> list Z.

(** X5.  Every byte sequence comes back from its RFC 4648 encoding,
    padded or not: the decoder reads all that a conforming encoder
    writes, for keys of any length. *)
Theorem base32ToBytes_encode (data : list byte) :
  base32ToBytes UnicodeUpper (encode data) = Returns data
  /\ base32ToBytes UnicodeUpper (encode_unpadded data) = Returns data.
Proof.
  destruct (encode_unpadded_symbols data) as (Hall & pad & Hbits & Hpad).
  assert (H : base32ToBytes UnicodeUpper (encode_unpadded data) = Returns data).
  { rewrite base32ToBytes_stream; rewrite (clean_alphabet _ _ Hall); [|exact Hall].
    rewrite Hbits, data_bits_bytes by lia. reflexivity. }
  split; [|exact H].
  unfold encode. unfold base32ToBytes, clean.
  rewrite toUpperCase_app_pad, replace_trailing_eq_app_pad. exact H.
Qed.

End Base32RoundTrip.

Example rfc4648_encodings :
  map encode (map (fun text => map ToUint8 (str text))
                ["f"; "fo"; "foo"; "foob"; "fooba"; "foobar"; ""]%string)
  = map str ["MY======"; "MZXQ===="; "MZXW6==="; "MZXW6YQ="; "MZXW6YTB";
             "MZXW6YTBOI======"; ""]%string.
Proof. vm_compute. reflexivity. Qed.

Lemma base32ToBytes_length_witness :
  Forall in_alphabet (clean caseless (str "jbswy3dpehpk3pxp=="))
  /\ exists data,
       base32ToBytes caseless (str "jbswy3dpehpk3pxp==") = Returns data
       /\ List.length data = 10%nat.
Proof.
  assert (H : Forall in_alphabet (clean caseless (str "jbswy3dpehpk3pxp==")))
    by (apply forallb_in_alphabet; vm_compute; reflexivity).
  split; [exact H|].
  exact (base32ToBytes_length caseless _ H).
Defined.

Lemma base32ToBytes_app_witness :
  Forall in_alphabet (str "MZXW6YTB") /\ Forall in_alphabet (str "OI")
  /\ (List.length (str "MZXW6YTB") mod 8 = 0)%nat
  /\ exists x y tail,
       base32ToBytes caseless (str "MZXW6YTB") = Returns x
       /\ base32ToBytes caseless (str "OI") = Returns y
       /\ base32ToBytes caseless (str "MZXW6YTB" ++ str "OI") = Returns (x ++ tail)
       /\ ((List.length (str "MZXW6YTB") mod 8 = 0)%nat -> tail = y).
Proof.
  assert (Ha : Forall in_alphabet (str "MZXW6YTB"))
    by (apply forallb_in_alphabet; vm_compute; reflexivity).
  assert (Hb : Forall in_alphabet (str "OI"))
    by (apply forallb_in_alphabet; vm_compute; reflexivity).
  split; [exact Ha|]. split; [exact Hb|]. split; [reflexivity|].
  exact (base32ToBytes_app caseless _ _ Ha Hb).
Defined.

Lemma base32ToBytes_dangling_symbol_witness :
  Forall in_alphabet (str "MZXW6YTB") /\ in_alphabet 79
  /\ In (List.length (str "MZXW6YTB") mod 8)%nat [0; 2; 5]%nat
  /\ base32ToBytes caseless (str "MZXW6YTB" ++ [79])
     = base32ToBytes caseless (str "MZXW6YTB").
Proof.
  assert (Ht : Forall in_alphabet (str "MZXW6YTB"))
    by (apply forallb_in_alphabet; vm_compute; reflexivity).
  assert (Hc : in_alphabet 79) by (apply in_alphabetb_spec; reflexivity).
  assert (Hm : In (List.length (str "MZXW6YTB") mod 8)%nat [0; 2; 5]%nat)
    by (left; reflexivity).
  split; [exact Ht|]. split; [exact Hc|]. split; [exact Hm|].
  exact (base32ToBytes_dangling_symbol caseless _ _ Ht Hc Hm).
Defined.

(* ================================================================== *)
(** ** More on the generator *)
(* ================================================================== *)

Import Codes.

Section GeneratorMore.

Variable hmac_sign : string -> list byte -> list byte -> outcome (list byte).

Lemma decimal_value_six (v : Z) :
  0 <= v < 10 ^ 6 ->
  decimal_value (map (decimal_digit v) [5; 4; 3; 2; 1; 0]) = v.
Proof.
  intros Hv. unfold decimal_value, decimal_digit. cbn [map fold_left].
  change (10 ^ 5) with 100000. change (10 ^ 4) with 10000.
  change (10 ^ 3) with 1000. change (10 ^ 2) with 100.
  change (10 ^ 1) with 10. change (10 ^ 0) with 1.
  change (10 ^ 6) with 1000000 in Hv.
  Z.div_mod_to_equations. lia.
Qed.

(** X6.  The code is the number it should be: read as a decimal number,
    a returned code is [binCode mod 10^6] of the digest the platform
    signed, leading zeros included, whatever the digest. *)
Theorem generateOTP_code_value (this : TOTP) (counter : Z) (code : jsstring) :
  digits this = 6 ->
  generateOTP hmac_sign this counter = Returns code ->
  exists message hmac,
    counter_message counter = Returns message
    /\ hmac_sign (algorithm this) (Totp.secret this) message = Returns hmac
    /\ decimal_value code = binCode_of hmac mod 10 ^ 6
    /\ List.length code = 6%nat.
Proof.
  intros Hdigits. unfold generateOTP.
  rewrite counter_message_bytes. cbn [bind].
  destruct (hmac_sign _ _ _) as [hmac|e] eqn:Esign; cbn [bind]; [|discriminate].
  intros [= <-]. eexists. exists hmac.
  split; [reflexivity|]. split; [exact Esign|].
  rewrite Hdigits.
  pose proof (binCode_of_range hmac) as Hrange.
  rewrite format_otp_six by lia.
  split; [|reflexivity].
  apply decimal_value_six. apply Z.mod_pos_bound. lia.
Qed.

(** X7.  A code lasts from one multiple of 30 seconds to the next: every
    clock reading of the step that holds [now] gives the counter and
    the outcome of [now], and the first reading of the next step gives
    the next counter. *)
Theorem generate_step_window (this : TOTP) (now t : Z) :
  period this = 30 ->
  30000 * (now / 30000) <= t < 30000 * (now / 30000) + 30000 ->
  counter_at t (period this) = counter_at now (period this)
  /\ generate hmac_sign this t = generate hmac_sign this now
  /\ counter_at (30000 * (now / 30000) + 30000) (period this)
     = counter_at now (period this) + 1.
Proof.
  intros Hperiod Ht. rewrite Hperiod.
  rewrite (proj1 (counter_at_floor t)), (proj1 (counter_at_floor now)).
  rewrite (proj1 (counter_at_floor (30000 * (now / 30000) + 30000))).
  assert (H1 : t / 30000 = now / 30000).
  { revert Ht. Z.div_mod_to_equations. lia. }
  split; [exact H1|]. split.
  - unfold generate. rewrite Hperiod.
    rewrite (proj1 (counter_at_floor t)), (proj1 (counter_at_floor now)), H1.
    reflexivity.
  - Z.div_mod_to_equations. lia.
Qed.

End GeneratorMore.

Lemma generateOTP_code_value_witness :
  generateOTP HmacSha1.hmac_sign (mkTOTP rfc_key 30 6 "SHA-1") 1
  = Returns (str "287082")
  /\ exists message hmac,
       counter_message 1 = Returns message
       /\ HmacSha1.hmac_sign "SHA-1" rfc_key message = Returns hmac
       /\ decimal_value (str "287082") = binCode_of hmac mod 10 ^ 6
       /\ List.length (str "287082") = 6%nat.
Proof.
  assert (H : generateOTP HmacSha1.hmac_sign (mkTOTP rfc_key 30 6 "SHA-1") 1
              = Returns (str "287082")) by (vm_compute; reflexivity).
  split; [exact H|].
  exact (generateOTP_code_value HmacSha1.hmac_sign
           (mkTOTP rfc_key 30 6 "SHA-1") 1 _ eq_refl H).
Defined.

Lemma generate_step_window_witness :
  30000 * (59000 / 30000) <= 30000 < 30000 * (59000 / 30000) + 30000
  /\ counter_at 30000 30 = counter_at 59000 30
  /\ generate HmacSha1.hmac_sign (mkTOTP rfc_key 30 6 "SHA-1") 30000
     = generate HmacSha1.hmac_sign (mkTOTP rfc_key 30 6 "SHA-1") 59000
  /\ counter_at 60000 30 = counter_at 59000 30 + 1.
Proof.
  assert (H : 30000 * (59000 / 30000) <= 30000 < 30000 * (59000 / 30000) + 30000)
    by (change (59000 / 30000) with 1; lia).
  split; [exact H|].
  exact (generate_step_window HmacSha1.hmac_sign
           (mkTOTP rfc_key 30 6 "SHA-1") 59000 30000 eq_refl H).
Defined.

(* ================================================================== *)
(** ** The request handler *)
(* ================================================================== *)

Import Literal Worker.

Section HandlerFacts.
Variable UnicodeUpper : Z -> list Z.
Variable hmac_sign : string -> list byte -> list byte -> outcome (list byte).
Variable builtin_message : exn -> jsstring.
Variable kv : Type.
Variable KV_put : kv -> jsstring -> jsstring -> outcome unit * kv.
Variable KV_delete : kv -> jsstring -> outcome unit * kv.
Variable KV_list : kv -> outcome (list jsstring).
Variable KV_get : kv -> jsstring -> outcome (option jsstring).
Variable passwordFormHtml : jsstring.
Variables page_head page_add page_remove page_tail : jsstring.
Variable clock : nat -> Z.

Local Notation "'handle'" :=
  (handleRequest UnicodeUpper hmac_sign builtin_message kv KV_put KV_delete
     KV_list KV_get passwordFormHtml page_head page_add page_remove page_tail
     clock).
Local Notation "'add_key'" := (add UnicodeUpper builtin_message kv KV_put).
Local Notation "'delete_key'" := (delete kv KV_delete).
Local Notation "'construct'" := (TOTP_constructor UnicodeUpper).

Lemma TOTP_constructor_cases (s : jsstring) :
  (Forall in_alphabet (normalize UnicodeUpper s)
   /\ construct s
      = Returns (mkTOTP (reference_decode (normalize UnicodeUpper s) [])
                   30 6 "SHA-1"))
  \/ (Exists (fun c => ~ in_alphabet c) (normalize UnicodeUpper s)
      /\ construct s = Throws (Error_ "Invalid base32")).
Proof.
  rewrite TOTP_constructor_loop.
  destruct (Forall_or_Exists_alphabet (normalize UnicodeUpper s)) as [Hall|Hex].
  - left. split; [exact Hall|].
    rewrite (decode_loop_reference _ _ [] Hall) by (unfold same_bits; cbn; lia).
    reflexivity.
  - right. split; [exact Hex|].
    rewrite (decode_loop_rejects _ _ Hex). reflexivity.
Qed.

Lemma alphabet_exclusive (s : jsstring) :
  Forall in_alphabet s -> Exists (fun c => ~ in_alphabet c) s -> False.
Proof.
  intros Hall Hex. apply Exists_exists in Hex as (c & Hc & Hn).
  rewrite Forall_forall in Hall. apply Hn, Hall, Hc.
Qed.

Lemma strict_equal_true (a b : option jsstring) :
  strict_equal a b = true <-> exists s, a = Some s /\ b = Some s.
Proof.
  destruct a as [x|], b as [y|]; cbn; split;
    try discriminate; try (intros (s & H1 & H2); discriminate).
  - intros H. apply jsstring_eqb_eq in H as ->. eauto.
  - intros (s & [= ->] & [= ->]). apply jsstring_eqb_eq. reflexivity.
Qed.

Lemma strict_equal_literal (a : option jsstring) (s : jsstring) :
  strict_equal a (Some s) = true <-> a = Some s.
Proof.
  rewrite strict_equal_true. split.
  - intros (t & -> & [= ->]). reflexivity.
  - intros ->. eauto.
Qed.

Lemma is_empty_false (s : jsstring) : is_empty s = false <-> s <> [].
Proof. destruct s; cbn; split; congruence. Qed.

Lemma message_invalid_base32 :
  message builtin_message (Error_ "Invalid base32") = str "Invalid base32".
Proof. reflexivity. Qed.

(** What the [add] case does with a name and a secret that are both
    present and not empty. *)
Lemma add_present (form : list (jsstring * jsstring)) (store : kv)
      (name secret : jsstring) :
  first_value form (str "name") = Some name ->
  first_value form (str "secret") = Some secret ->
  name <> [] -> secret <> [] ->
  add_key form store
  = match construct secret with
    | Throws e =>
        (Returns (text_response 400 (str "Error adding key: "
                                       ++ message builtin_message e)), store)
    | Returns _ =>
        (Returns (match fst (KV_put store name secret) with
                  | Returns _ => text_response 200 (str "Key added successfully!")
                  | Throws e =>
                      text_response 400 (str "Error adding key: "
                                           ++ message builtin_message e)
                  end),
         snd (KV_put store name secret))
    end.
Proof.
  intros Hn Hs Hne Hse. unfold add. rewrite Hn, Hs.
  apply is_empty_false in Hne, Hse. rewrite Hne, Hse. cbn [negb andb].
  destruct (construct secret); [|reflexivity].
  destruct (KV_put store name secret) as [[u|e] store']; reflexivity.
Qed.

Lemma add_store (form : list (jsstring * jsstring)) (store : kv) :
  snd (add_key form store) = store
  \/ exists name secret,
       first_value form (str "name") = Some name /\ name <> []
       /\ first_value form (str "secret") = Some secret /\ secret <> []
       /\ Forall in_alphabet (normalize UnicodeUpper secret)
       /\ snd (add_key form store) = snd (KV_put store name secret).
Proof.
  destruct (first_value form (str "name")) as [name|] eqn:Hn;
    [|left; unfold add; rewrite Hn; reflexivity].
  destruct (first_value form (str "secret")) as [secret|] eqn:Hs;
    [|left; unfold add; rewrite Hn, Hs; reflexivity].
  destruct (is_empty name) eqn:Hne;
    [left; unfold add; rewrite Hn, Hs, Hne; reflexivity|].
  destruct (is_empty secret) eqn:Hse;
    [left; unfold add; rewrite Hn, Hs, Hne, Hse; reflexivity|].
  apply is_empty_false in Hne, Hse.
  rewrite (add_present form store name secret Hn Hs Hne Hse).
  destruct (TOTP_constructor_cases secret) as [[Hall ->]|[Hex ->]].
  - right. exists name, secret.
    repeat (split; [first [assumption|reflexivity]|]). reflexivity.
  - left. reflexivity.
Qed.

Lemma delete_store (form : list (jsstring * jsstring)) (store : kv) :
  snd (delete_key form store) = store
  \/ exists key,
       first_value form (str "key") = Some key /\ key <> []
       /\ snd (delete_key form store) = snd (KV_delete store key).
Proof.
  unfold delete.
  destruct (first_value form (str "key")) as [key|]; [|left; reflexivity].
  destruct (is_empty key) eqn:Hke; [left; reflexivity|].
  right. exists key. apply is_empty_false in Hke.
  split; [reflexivity|]. split; [exact Hke|].
  cbn [negb]. destruct (KV_delete store key) as [[u|e] store']; reflexivity.
Qed.

(** The handler on a form that arrived by POST. *)
Lemma handleRequest_form (request : Request) (env : Env kv)
      (form : list (jsstring * jsstring)) :
  method request = str "POST" ->
  formData request = Returns form ->
  handle request env
  = if negb (strict_equal (first_value form (str "password"))
                          (ACCESS_PASSWORD kv env))
    then (Returns (text_response 401 (str "Unauthorized: Invalid password")),
          AUTH_KV kv env)
    else if strict_equal (first_value form (str "action")) (Some (str "add"))
    then add_key form (AUTH_KV kv env)
    else if strict_equal (first_value form (str "action")) (Some (str "delete"))
    then delete_key form (AUTH_KV kv env)
    else if strict_equal (first_value form (str "action")) (Some (str "auth"))
    then (Returns (mkResponse 200 None []), AUTH_KV kv env)
    else (Returns (text_response 400 (str "Invalid action")), AUTH_KV kv env).
Proof.
  intros Hm Hf. unfold handleRequest. rewrite Hm, Hf. reflexivity.
Qed.

(** The store after a request is the one before it, or the one its
    [add] or [delete] case leaves. *)
Lemma handleRequest_store_cases (request : Request) (env : Env kv) :
  snd (handle request env) = AUTH_KV kv env
  \/ exists form,
       snd (handle request env) = snd (add_key form (AUTH_KV kv env))
       \/ snd (handle request env) = snd (delete_key form (AUTH_KV kv env)).
Proof.
  destruct (jsstring_eqb (method request) (str "POST")) eqn:Hm.
  2:{ left. unfold handleRequest. rewrite Hm.
      destruct (negb _); reflexivity. }
  apply jsstring_eqb_eq in Hm.
  destruct (formData request) as [form|e] eqn:Hf.
  2:{ left. unfold handleRequest. rewrite Hm, Hf. reflexivity. }
  rewrite (handleRequest_form request env form Hm Hf).
  destruct (negb _); [left; reflexivity|].
  destruct (strict_equal (first_value form (str "action")) (Some (str "add")));
    [right; exists form; left; reflexivity|].
  destruct (strict_equal (first_value form (str "action"))
              (Some (str "delete")));
    [right; exists form; right; reflexivity|].
  left.
  destruct (strict_equal (first_value form (str "action"))
              (Some (str "auth"))); reflexivity.
Qed.

(** X8.  The only requests that can change the store: a POST whose
    first [password] field is the configured password and whose action
    is [add], with a name and a Base32 secret that are not empty, which
    issues the one [put] of that name and that secret as submitted; or
    such a POST whose action is [delete], with a key that is not empty,
    which issues the one [delete] of that key.  After any other request
    the store is the one before it. *)
Theorem handleRequest_writes (request : Request) (env : Env kv) :
  snd (handle request env) = AUTH_KV kv env
  \/ exists form password,
       method request = str "POST"
       /\ formData request = Returns form
       /\ first_value form (str "password") = Some password
       /\ ACCESS_PASSWORD kv env = Some password
       /\ ((exists name secret,
              first_value form (str "action") = Some (str "add")
              /\ first_value form (str "name") = Some name /\ name <> []
              /\ first_value form (str "secret") = Some secret /\ secret <> []
              /\ Forall in_alphabet (normalize UnicodeUpper secret)
              /\ snd (handle request env)
                 = snd (KV_put (AUTH_KV kv env) name secret))
           \/ (exists key,
                 first_value form (str "action") = Some (str "delete")
                 /\ first_value form (str "key") = Some key /\ key <> []
                 /\ snd (handle request env)
                    = snd (KV_delete (AUTH_KV kv env) key))).
Proof.
  destruct (jsstring_eqb (method request) (str "POST")) eqn:Hm.
  2:{ left. unfold handleRequest. rewrite Hm.
      destruct (negb _); reflexivity. }
  apply jsstring_eqb_eq in Hm.
  destruct (formData request) as [form|e] eqn:Hf.
  2:{ left. unfold handleRequest. rewrite Hm, Hf. reflexivity. }
  rewrite (handleRequest_form request env form Hm Hf).
  destruct (strict_equal (first_value form (str "password")) _) eqn:Hp;
    cbn [negb]; [|left; reflexivity].
  apply strict_equal_true in Hp as (password & Hp1 & Hp2).
  destruct (strict_equal (first_value form (str "action")) (Some (str "add")))
    eqn:Ha.
  { apply strict_equal_literal in Ha.
    destruct (add_store form (AUTH_KV kv env))
      as [Hsame|(name & secret & H1 & H2 & H3 & H4 & H5 & H6)].
    - left. exact Hsame.
    - right. exists form, password. repeat (split; [first [assumption|reflexivity]|]).
      left. exists name, secret. repeat (split; [first [assumption|reflexivity]|]). exact H6. }
  destruct (strict_equal (first_value form (str "action"))
              (Some (str "delete"))) eqn:Hd.
  { apply strict_equal_literal in Hd.
    destruct (delete_store form (AUTH_KV kv env))
      as [Hsame|(key & H1 & H2 & H3)].
    - left. exact Hsame.
    - right. exists form, password. repeat (split; [first [assumption|reflexivity]|]).
      right. exists key. repeat (split; [first [assumption|reflexivity]|]). exact H3. }
  left.
  destruct (strict_equal (first_value form (str "action"))
              (Some (str "auth"))); reflexivity.
Qed.

Lemma add_status (form : list (jsstring * jsstring)) (store : kv)
      (response : Response) :
  fst (add_key form store) = Returns response ->
  status response = 200 \/ status response = 400.
Proof.
  unfold add.
  destruct (first_value form (str "name")) as [name|];
    [|intros [= <-]; right; reflexivity].
  destruct (first_value form (str "secret")) as [secret|];
    [|intros [= <-]; right; reflexivity].
  destruct (negb (is_empty name) && negb (is_empty secret));
    [|intros [= <-]; right; reflexivity].
  destruct (construct secret); [|intros [= <-]; right; reflexivity].
  destruct (KV_put store name secret) as [[u|e] store'];
    intros [= <-]; [left|right]; reflexivity.
Qed.

Lemma delete_status (form : list (jsstring * jsstring)) (store : kv)
      (response : Response) :
  fst (delete_key form store) = Returns response ->
  status response = 200 \/ status response = 400.
Proof.
  unfold delete.
  destruct (first_value form (str "key")) as [key|];
    [|intros [= <-]; right; reflexivity].
  destruct (negb (is_empty key)); [|intros [= <-]; right; reflexivity].
  destruct (KV_delete store key) as [[u|e] store'];
    [intros [= <-]; left; reflexivity|discriminate].
Qed.

(** X9.  The password gate of POST.  A form is refused with 401 and the
    text [Unauthorized: Invalid password], the store untouched,
    whatever its action, exactly when its first [password] field is
    missing or differs from [ACCESS_PASSWORD]; with the variable unset
    every form is refused, a form without password included; and a form
    that carries the password is never answered 401. *)
Theorem handleRequest_password_gate (request : Request) (env : Env kv)
        (form : list (jsstring * jsstring)) :
  method request = str "POST" ->
  formData request = Returns form ->
  let refused :=
    (Returns (text_response 401 (str "Unauthorized: Invalid password")),
     AUTH_KV kv env) in
  (handle request env = refused
   <-> ~ exists password,
         first_value form (str "password") = Some password
         /\ ACCESS_PASSWORD kv env = Some password)
  /\ (ACCESS_PASSWORD kv env = None -> handle request env = refused)
  /\ (forall response,
        fst (handle request env) = Returns response ->
        status response = 401 -> handle request env = refused).
Proof.
  intros Hm Hf refused.
  pose proof (handleRequest_form request env form Hm Hf) as Hform.
  destruct (strict_equal (first_value form (str "password"))
              (ACCESS_PASSWORD kv env)) eqn:Hp; cbn [negb] in Hform.
  - assert (Hstatus : forall response,
               fst (handle request env) = Returns response ->
               status response <> 401).
    { intros response. rewrite Hform.
      destruct (strict_equal (first_value form (str "action"))
                  (Some (str "add")));
        [intros H; destruct (add_status _ _ _ H) as [-> | ->]; lia|].
      destruct (strict_equal (first_value form (str "action"))
                  (Some (str "delete")));
        [intros H; destruct (delete_status _ _ _ H) as [-> | ->]; lia|].
      destruct (strict_equal (first_value form (str "action"))
                  (Some (str "auth"))); intros [= <-]; cbn; lia. }
    apply strict_equal_true in Hp as (password & Hp1 & Hp2).
    split; [|split].
    + split.
      * intros Hr. exfalso.
        apply (Hstatus (text_response 401 (str "Unauthorized: Invalid password")));
          [rewrite Hr; reflexivity|reflexivity].
      * intros Hno. exfalso. apply Hno. exists password. split; assumption.
    + intros Hnone. rewrite Hnone in Hp2. discriminate.
    + intros response Hr Hs. exfalso. exact (Hstatus response Hr Hs).
  - split; [|split].
    + split; [|intros _; exact Hform].
      intros _ (password & Hp1 & Hp2).
      assert (Ht : strict_equal (first_value form (str "password"))
                     (ACCESS_PASSWORD kv env) = true)
        by (apply strict_equal_true; exists password; split; assumption).
      rewrite Ht in Hp. discriminate.
    + intros _. exact Hform.
    + intros _ _ _. exact Hform.
Qed.

(** X10.  An authorised [add] with a name and a secret, neither empty.
    A secret that, its spaces removed, upper-cased and its padding
    stripped, holds a symbol outside the alphabet is answered 400
    [Error adding key: Invalid base32] and nothing is written.  Every
    other secret is written under the name exactly as it was submitted,
    and the answer is 200 when the [put] settles and 400 with the
    message of its rejection otherwise. *)
Theorem handleRequest_add (request : Request) (env : Env kv)
        (form : list (jsstring * jsstring)) (password name secret : jsstring) :
  method request = str "POST" ->
  formData request = Returns form ->
  first_value form (str "password") = Some password ->
  ACCESS_PASSWORD kv env = Some password ->
  first_value form (str "action") = Some (str "add") ->
  first_value form (str "name") = Some name -> name <> [] ->
  first_value form (str "secret") = Some secret -> secret <> [] ->
  (Exists (fun c => ~ in_alphabet c) (normalize UnicodeUpper secret)
   /\ handle request env
      = (Returns (text_response 400 (str "Error adding key: Invalid base32")),
         AUTH_KV kv env))
  \/ (Forall in_alphabet (normalize UnicodeUpper secret)
      /\ handle request env
         = (Returns
              (match fst (KV_put (AUTH_KV kv env) name secret) with
               | Returns _ => text_response 200 (str "Key added successfully!")
               | Throws e =>
                   text_response 400
                     (str "Error adding key: " ++ message builtin_message e)
               end),
            snd (KV_put (AUTH_KV kv env) name secret))).
Proof.
  intros Hm Hf Hp Hpw Ha Hn Hne Hs Hse.
  rewrite (handleRequest_form request env form Hm Hf).
  rewrite Hp, Hpw, Ha.
  replace (strict_equal (Some password) (Some password)) with true
    by (symmetry; apply strict_equal_true; eauto).
  replace (strict_equal (Some (str "add")) (Some (str "add"))) with true
    by reflexivity.
  cbn [negb].
  rewrite (add_present form (AUTH_KV kv env) name secret Hn Hs Hne Hse).
  destruct (TOTP_constructor_cases secret) as [[Hall ->]|[Hex ->]].
  - right. split; [exact Hall|reflexivity].
  - left. split; [exact Hex|reflexivity].
Qed.

End HandlerFacts.

Section PageFacts.
Variable UnicodeUpper : Z -> list Z.
Variable hmac_sign : string -> list byte -> list byte -> outcome (list byte).
Variable builtin_message : exn -> jsstring.
Variable kv : Type.
Variable KV_put : kv -> jsstring -> jsstring -> outcome unit * kv.
Variable KV_delete : kv -> jsstring -> outcome unit * kv.
Variable KV_list : kv -> outcome (list jsstring).
Variable KV_get : kv -> jsstring -> outcome (option jsstring).
Variable passwordFormHtml : jsstring.
Variables page_head page_add page_remove page_tail : jsstring.
Variable clock : nat -> Z.

Local Notation "'handle'" :=
  (handleRequest UnicodeUpper hmac_sign builtin_message kv KV_put KV_delete
     KV_list KV_get passwordFormHtml page_head page_add page_remove page_tail
     clock).
Local Notation "'construct'" := (TOTP_constructor UnicodeUpper).
Local Notation "'valid'" := (accepted UnicodeUpper kv KV_get).
Local Notation "'loop'" :=
  (appHtml_loop UnicodeUpper hmac_sign builtin_message clock).

(** X11.  The handler keeps the store well formed.  Provided a [put]
    leaves readable only what it wrote or what was readable before, and
    a [delete] only what was readable before, a store in which every
    value is a non-empty text that [new TOTP] accepts, under a name
    that is not empty, is still such a store after any request
    whatever. *)
Theorem handleRequest_keeps_store_accepted (request : Request) (env : Env kv) :
  (forall store name value name' value',
      KV_get (snd (KV_put store name value)) name' = Returns (Some value') ->
      (name' = name /\ value' = value)
      \/ KV_get store name' = Returns (Some value')) ->
  (forall store name name' value',
      KV_get (snd (KV_delete store name)) name' = Returns (Some value') ->
      KV_get store name' = Returns (Some value')) ->
  valid (AUTH_KV kv env) ->
  valid (snd (handle request env)).
Proof.
  intros Hput Hdelete Hvalid.
  destruct (handleRequest_store_cases UnicodeUpper hmac_sign builtin_message
              kv KV_put KV_delete KV_list KV_get passwordFormHtml page_head
              page_add page_remove page_tail clock request env)
    as [->|(form & [-> | ->])]; [exact Hvalid| |].
  - destruct (add_store UnicodeUpper builtin_message kv KV_put form
                (AUTH_KV kv env))
      as [->|(name & secret & _ & Hne & _ & Hse & Hall & ->)];
      [exact Hvalid|].
    intros name' value' Hget.
    destruct (Hput _ _ _ _ _ Hget) as [[-> ->]|Hold]; [|exact (Hvalid _ _ Hold)].
    split; [exact Hne|]. split; [exact Hse|].
    destruct (TOTP_constructor_cases UnicodeUpper secret) as [[_ H]|[Hex _]].
    + eexists. exact H.
    + exfalso. exact (alphabet_exclusive _ Hall Hex).
  - destruct (delete_store kv KV_delete form (AUTH_KV kv env))
      as [->|(key & _ & _ & ->)]; [exact Hvalid|].
    intros name' value' Hget. exact (Hvalid _ _ (Hdelete _ _ _ _ Hget)).
Qed.

End PageFacts.

Section RenderingFacts.
Variable UnicodeUpper : Z -> list Z.
Variable hmac_sign : string -> list byte -> list byte -> outcome (list byte).
Variable builtin_message : exn -> jsstring.
Variable kv : Type.
Variable KV_put : kv -> jsstring -> jsstring -> outcome unit * kv.
Variable KV_delete : kv -> jsstring -> outcome unit * kv.
Variable KV_list : kv -> outcome (list jsstring).
Variable KV_get : kv -> jsstring -> outcome (option jsstring).
Variable passwordFormHtml : jsstring.
Variables page_head page_add page_remove page_tail : jsstring.
Variable clock : nat -> Z.

Local Notation "'handle'" :=
  (handleRequest UnicodeUpper hmac_sign builtin_message kv KV_put KV_delete
     KV_list KV_get passwordFormHtml page_head page_add page_remove page_tail
     clock).
Local Notation "'construct'" := (TOTP_constructor UnicodeUpper).
Local Notation "'loop'" :=
  (appHtml_loop UnicodeUpper hmac_sign builtin_message clock).
Local Notation "'read'" := (read_keys kv KV_get).

Lemma generate_six_digits (this : TOTP) (now : Z) (token : jsstring) :
  digits this = 6 ->
  generate hmac_sign this now = Returns token ->
  List.length token = 6%nat /\ Forall is_digit token.
Proof.
  intros Hdigits. unfold generate. rewrite generateOTP_steps.
  destruct (hmac_sign _ _ _) as [hmac|e]; cbn [bind]; [|discriminate].
  intros [= <-]. rewrite Hdigits.
  pose proof (binCode_of_range hmac) as Hrange.
  rewrite format_otp_six by lia. apply six_digits.
Qed.

(** X12.  One fragment for each entry, in order, and never a failure:
    whatever the entries hold, the loop of [appHtml] returns, having
    appended for the entry at each position exactly this.  For a [null]
    secret, a red line of the name with the platform's message.  For a
    secret with a symbol outside the alphabet, a red line with
    [Invalid base32].  For a Base32 secret, what [generate] gives at
    the clock reading the loop has come to (one reading for each
    earlier entry whose secret constructs): the item of the name with
    the token it returns, six decimal digits, or, when the signature is
    refused, a red line with the message of the refusal. *)
Theorem appHtml_loop_fragments (entries : list (jsstring * option jsstring)) :
  forall (readings : nat) (html : jsstring),
  exists fragments,
    loop entries readings html = html ++ concat fragments
    /\ List.length fragments = List.length entries
    /\ forall i name value,
         nth_error entries i = Some (name, value) ->
         exists fragment,
           nth_error fragments i = Some fragment
           /\ match value with
              | None =>
                  fragment = error_fragment name (builtin_message TypeError)
              | Some secret =>
                  (Exists (fun c => ~ in_alphabet c)
                          (normalize UnicodeUpper secret)
                   /\ fragment = error_fragment name (str "Invalid base32"))
                  \/ (Forall in_alphabet (normalize UnicodeUpper secret)
                      /\ exists totp,
                           construct secret = Returns totp
                           /\ match
                                generate hmac_sign totp
                                  (clock (readings
                                          + List.length
                                              (filter (constructs UnicodeUpper)
                                                      (firstn i entries))))
                              with
                              | Returns token =>
                                  List.length token = 6%nat
                                  /\ Forall is_digit token
                                  /\ fragment = item_fragment name token
                              | Throws e =>
                                  fragment
                                  = error_fragment name
                                      (message builtin_message e)
                              end)
              end.
Proof.
  induction entries as [|[name value] rest IH]; intros readings html.
  - exists []. cbn. rewrite app_nil_r. split; [reflexivity|].
    split; [reflexivity|]. intros [|i] n v; discriminate.
  - assert (Hstep : forall readings' fragment,
               loop ((name, value) :: rest) readings html
               = loop rest readings' (html ++ fragment) ->
               (readings' = readings
                  + (if constructs UnicodeUpper (name, value) then 1 else 0))%nat ->
               match value with
               | None =>
                   fragment = error_fragment name (builtin_message TypeError)
               | Some secret =>
                   (Exists (fun c => ~ in_alphabet c)
                           (normalize UnicodeUpper secret)
                    /\ fragment = error_fragment name (str "Invalid base32"))
                   \/ (Forall in_alphabet (normalize UnicodeUpper secret)
                       /\ exists totp,
                            construct secret = Returns totp
                            /\ match generate hmac_sign totp (clock readings) with
                               | Returns token =>
                                   List.length token = 6%nat
                                   /\ Forall is_digit token
                                   /\ fragment = item_fragment name token
                               | Throws e =>
                                   fragment
                                   = error_fragment name
                                       (message builtin_message e)
                               end)
               end ->
               exists fragments,
                 loop ((name, value) :: rest) readings html
                 = html ++ concat fragments
                 /\ List.length fragments = List.length ((name, value) :: rest)
                 /\ forall i n v,
                      nth_error ((name, value) :: rest) i = Some (n, v) ->
                      exists fragment,
                        nth_error fragments i = Some fragment
                        /\ match v with
                           | None =>
                               fragment
                               = error_fragment n (builtin_message TypeError)
                           | Some secret =>
                               (Exists (fun c => ~ in_alphabet c)
                                       (normalize UnicodeUpper secret)
                                /\ fragment
                                   = error_fragment n (str "Invalid base32"))
                               \/ (Forall in_alphabet
                                          (normalize UnicodeUpper secret)
                                   /\ exists totp,
                                        construct secret = Returns totp
                                        /\ match
                                             generate hmac_sign totp
                                               (clock
                                                  (readings
                                                   + List.length
                                                       (filter
                                                          (constructs UnicodeUpper)
                                                          (firstn i
                                                             ((name, value)
                                                                :: rest)))))
                                           with
                                           | Returns token =>
                                               List.length token = 6%nat
                                               /\ Forall is_digit token
                                               /\ fragment
                                                  = item_fragment n token
                                           | Throws e =>
                                               fragment
                                               = error_fragment n
                                                   (message builtin_message e)
                                           end)
                           end).
    { intros readings' fragment Hloop Hreadings Hhead.
      destruct (IH readings' (html ++ fragment)) as (fragments & Hrest & Hlen & Hnth).
      exists (fragment :: fragments).
      split; [rewrite Hloop, Hrest; cbn [concat]; rewrite <- app_assoc;
              reflexivity|].
      split; [cbn [List.length]; rewrite Hlen; reflexivity|].
      intros [|i] n v.
      - cbn [nth_error firstn filter List.length]. intros [= <- <-].
        exists fragment. split; [reflexivity|].
        rewrite Nat.add_0_r. exact Hhead.
      - cbn [nth_error firstn filter]. intros Hi.
        destruct (Hnth i n v Hi) as (f & Hf & Hcase).
        exists f. split; [exact Hf|].
        replace (readings
                 + List.length
                     (if constructs UnicodeUpper (name, value)
                      then (name, value)
                             :: filter (constructs UnicodeUpper) (firstn i rest)
                      else filter (constructs UnicodeUpper) (firstn i rest)))%nat
          with (readings'
                + List.length (filter (constructs UnicodeUpper) (firstn i rest)))%nat;
          [exact Hcase|].
        rewrite Hreadings.
        destruct (constructs UnicodeUpper (name, value)); cbn [List.length]; lia. }
    unfold constructs in Hstep. cbn [snd] in Hstep.
    cbn [appHtml_loop] in *.
    destruct value as [secret|]; cbn [new_TOTP] in *.
    + destruct (TOTP_constructor_cases UnicodeUpper secret)
        as [[Hall Hc]|[Hex Hc]]; rewrite Hc in *.
      * destruct (generate hmac_sign _ (clock readings)) as [token|e] eqn:Hg.
        -- apply (Hstep (S readings) (item_fragment name token));
             [reflexivity|lia|].
           right. split; [exact Hall|]. eexists. split; [reflexivity|].
           rewrite Hg.
           destruct (generate_six_digits (mkTOTP _ 30 6 "SHA-1") _ _ eq_refl Hg)
             as [Hlen Hdig].
           split; [exact Hlen|]. split; [exact Hdig|reflexivity].
        -- apply (Hstep (S readings)
                    (error_fragment name (message builtin_message e)));
             [reflexivity|lia|].
           right. split; [exact Hall|]. eexists. split; [reflexivity|].
           rewrite Hg. reflexivity.
      * apply (Hstep readings (error_fragment name (str "Invalid base32")));
          [reflexivity|lia|].
        left. split; [exact Hex|reflexivity].
    + apply (Hstep readings (error_fragment name (builtin_message TypeError)));
        [reflexivity|lia|reflexivity].
Qed.

Lemma read_keys_resolves (store : kv) (keys : list jsstring) :
  (forall name, In name keys -> exists value, KV_get store name = Returns value) ->
  forall totpKeys, exists o, read store keys totpKeys = Returns o.
Proof.
  induction keys as [|name rest IH]; intros Hget totpKeys.
  - eexists. reflexivity.
  - cbn [read_keys].
    destruct (Hget name (or_introl eq_refl)) as (value & ->). cbn [bind].
    apply IH. intros n Hn. apply Hget. right. exact Hn.
Qed.

(** X13.  Requests other than POST.  Without [auth=true] as the first
    [auth] parameter of the address the answer is the password form.
    With it, no password is asked for: when the listing and the reads
    resolve the answer is the page, whatever the store holds, and the
    page carries [ACCESS_PASSWORD] twice in its text; a listing that
    rejects makes the handler reject. *)
Theorem handleRequest_page (request : Request) (env : Env kv) :
  method request <> str "POST" ->
  let auth := first_value (searchParams (url request)) (str "auth") in
  let store := AUTH_KV kv env in
  let password := interpolate (ACCESS_PASSWORD kv env) in
  (auth <> Some (str "true") ->
   handle request env = (Returns (html_response passwordFormHtml), store))
  /\ (auth = Some (str "true") ->
      (forall keys,
          KV_list store = Returns keys ->
          (forall name, In name keys ->
                        exists value, KV_get store name = Returns value) ->
          exists html,
            handle request env
            = (Returns (html_response
                          (page_head ++ html ++ page_add ++ password
                           ++ page_remove ++ password ++ page_tail)), store))
      /\ (forall e, KV_list store = Throws e ->
                    handle request env = (Throws e, store))).
Proof.
  intros Hm auth store password.
  assert (Hmethod : jsstring_eqb (method request) (str "POST") = false).
  { destruct (jsstring_eqb _ _) eqn:H; [|reflexivity].
    apply jsstring_eqb_eq in H. contradiction. }
  unfold handleRequest. rewrite Hmethod. fold auth. fold store.
  split.
  - intros Hauth.
    destruct (strict_equal auth (Some (str "true"))) eqn:H; [|reflexivity].
    apply strict_equal_literal in H. contradiction.
  - intros Hauth.
    replace (strict_equal auth (Some (str "true"))) with true
      by (symmetry; apply strict_equal_literal; exact Hauth).
    cbn [negb]. split.
    + intros keys Hlist Hget. rewrite Hlist. cbn [bind].
      destruct (read_keys_resolves store keys Hget empty_object) as (o & ->).
      cbn [bind]. eexists. unfold appHtml. reflexivity.
    + intros e Hlist. rewrite Hlist. reflexivity.
Qed.

End RenderingFacts.

Section EnumerationFacts.
Variable kv : Type.
Variable KV_get : kv -> jsstring -> outcome (option jsstring).

Local Notation "'read'" := (read_keys kv KV_get).

Lemma insert_index_Permutation {A} (i : Z) (a : A) (l : list (Z * A)) :
  Permutation (insert_index i a l) ((i, a) :: l).
Proof.
  induction l as [|[j b] l IH]; cbn [insert_index]; [reflexivity|].
  destruct (i <=? j); [reflexivity|].
  rewrite IH. apply perm_swap.
Qed.

Lemma sort_index_Permutation {A} (l : list (Z * A)) :
  Permutation (sort_index l) l.
Proof.
  induction l as [|[i a] l IH]; cbn; [reflexivity|].
  fold (sort_index l). rewrite insert_index_Permutation.
  apply perm_skip, IH.
Qed.



Lemma indexed_named_Permutation (ps : list (jsstring * option jsstring)) :
  Permutation (map snd (indexed ps) ++ named ps) ps.
Proof.
  induction ps as [|p ps IH]; [reflexivity|].
  unfold indexed, named in *. cbn [flat_map filter].
  destruct (array_index (fst p)); cbn [map app].
  - apply perm_skip, IH.
  - rewrite <- Permutation_middle. apply perm_skip, IH.
Qed.




End EnumerationFacts.

(* ================================================================== *)
(** ** The handler at work *)
(* ================================================================== *)

Import Scenario.

Lemma table_put_frame (store : table) (name value name' value' : jsstring) :
  table_get (snd (table_put store name value)) name' = Returns (Some value') ->
  (name' = name /\ value' = value)
  \/ table_get store name' = Returns (Some value').
Proof.
  unfold table_get, table_put. cbn [snd]. intros [= H].
  induction store as [|[k v] store IH]; cbn [table_write first_value] in *.
  - destruct (jsstring_eqb name name') eqn:Hn; [|discriminate].
    apply jsstring_eqb_eq in Hn. injection H as <-. left. split; congruence.
  - destruct (jsstring_eqb k name) eqn:Hk; cbn [first_value] in H.
    + destruct (jsstring_eqb k name') eqn:Hk'.
      * apply jsstring_eqb_eq in Hk, Hk'. injection H as <-.
        left. split; congruence.
      * right. rewrite H. reflexivity.
    + destruct (jsstring_eqb k name') eqn:Hk'.
      * right. rewrite H. reflexivity.
      * exact (IH H).
Qed.

Lemma table_delete_frame (store : table) (name name' value' : jsstring) :
  table_get (snd (table_delete store name)) name' = Returns (Some value') ->
  table_get store name' = Returns (Some value').
Proof.
  unfold table_get, table_delete. cbn [snd]. intros [= H]. f_equal.
  induction store as [|[k v] store IH]; cbn [filter first_value fst] in *;
    [discriminate|].
  destruct (jsstring_eqb k name) eqn:Hk; cbn [negb first_value] in H.
  - destruct (jsstring_eqb k name') eqn:Hk'; [|exact (IH H)].
    apply jsstring_eqb_eq in Hk, Hk'. subst name name'.
    exfalso. clear IH. induction store as [|[k2 v2] store IH2];
      cbn [filter first_value fst] in H; [discriminate|].
    destruct (jsstring_eqb k2 k) eqn:Hk2; cbn [negb first_value] in H;
      [exact (IH2 H)|].
    rewrite Hk2 in H. exact (IH2 H).
  - destruct (jsstring_eqb k name'); [exact H|exact (IH H)].
Qed.

Lemma scenario_env_accepted :
  accepted caseless table table_get (AUTH_KV table scenario_env).
Proof.
  intros name secret. unfold table_get. cbn. intros [= H].
  destruct (jsstring_eqb _ name) eqn:Hn; [|discriminate].
  apply jsstring_eqb_eq in Hn. subst name. injection H as <-.
  split; [discriminate|]. split; [discriminate|].
  eexists. vm_compute. reflexivity.
Qed.

Lemma handleRequest_password_gate_witness :
  scenario_handle
    (scenario_post [(str "password", str "guess"); (str "action", str "delete");
                    (str "key", str "github")])
    scenario_env
  = (Returns (text_response 401 (str "Unauthorized: Invalid password")),
     AUTH_KV table scenario_env).
Proof.
  apply (proj1 (handleRequest_password_gate caseless HmacSha1.hmac_sign
                  scenario_message table table_put table_delete table_list
                  table_get (str "<form>") (str "<head>") (str "<add>")
                  (str "<remove>") (str "<tail>") (fun _ => 59000)
                  (scenario_post [(str "password", str "guess");
                                  (str "action", str "delete");
                                  (str "key", str "github")])
                  scenario_env _ eq_refl eq_refl)).
  intros (password & H1 & H2). vm_compute in H1, H2. congruence.
Defined.

Lemma handleRequest_add_witness :
  scenario_handle
    (scenario_post [(str "password", str "hunter2"); (str "action", str "add");
                    (str "name", str "mail");
                    (str "secret", str "gezd gnbv gy3t qojq gezd gnbv gy3t qojq")])
    scenario_env
  = (Returns (text_response 200 (str "Key added successfully!")),
     [(str "github", str "JBSWY3DPEHPK3PXP");
      (str "mail", str "gezd gnbv gy3t qojq gezd gnbv gy3t qojq")]).
Proof.
  destruct (handleRequest_add caseless HmacSha1.hmac_sign
              scenario_message table table_put table_delete table_list
              table_get (str "<form>") (str "<head>") (str "<add>")
              (str "<remove>") (str "<tail>") (fun _ => 59000)
              (scenario_post
                 [(str "password", str "hunter2"); (str "action", str "add");
                  (str "name", str "mail");
                  (str "secret", str "gezd gnbv gy3t qojq gezd gnbv gy3t qojq")])
              scenario_env _ (str "hunter2") (str "mail")
              (str "gezd gnbv gy3t qojq gezd gnbv gy3t qojq")
              eq_refl eq_refl eq_refl eq_refl eq_refl eq_refl
              ltac:(discriminate) eq_refl ltac:(discriminate))
    as [[Hex _]|[_ H]].
  - exfalso. refine (alphabet_exclusive _ _ Hex).
    apply forallb_in_alphabet. vm_compute. reflexivity.
  - exact H.
Defined.

Lemma handleRequest_keeps_store_accepted_witness :
  accepted caseless table table_get
    (snd (scenario_handle
            (scenario_post [(str "password", str "hunter2");
                            (str "action", str "add"); (str "name", str "mail");
                            (str "secret", str "GEZDGNBVGY3TQOJQ")])
            scenario_env)).
Proof.
  exact (handleRequest_keeps_store_accepted caseless HmacSha1.hmac_sign
           scenario_message table table_put table_delete table_list
           table_get (str "<form>") (str "<head>") (str "<add>")
           (str "<remove>") (str "<tail>") (fun _ => 59000) _ scenario_env
           table_put_frame table_delete_frame scenario_env_accepted).
Defined.

Lemma handleRequest_page_witness :
  exists html,
    scenario_handle (scenario_get [(str "auth", str "true")]) scenario_env
    = (Returns (html_response
                  (str "<head>" ++ html ++ str "<add>" ++ str "hunter2"
                   ++ str "<remove>" ++ str "hunter2" ++ str "<tail>")),
       AUTH_KV table scenario_env).
Proof.
  refine (proj1 (proj2 (handleRequest_page caseless HmacSha1.hmac_sign
                          scenario_message table table_put table_delete
                          table_list table_get (str "<form>") (str "<head>")
                          (str "<add>") (str "<remove>") (str "<tail>")
                          (fun _ => 59000)
                          (scenario_get [(str "auth", str "true")])
                          scenario_env _) eq_refl)
            [str "github"] eq_refl _).
  - vm_compute. discriminate.
  - intros name _. eexists. reflexivity.
Defined.


(* ================================================================== *)
(** ** Percent-encoding *)
(* ================================================================== *)

Import Client.

Section EncodingFacts.

Lemma hex_digit_hex_char (d : Z) :
  0 <= d < 16 -> hex_digit (hex_char d) = Some d.
Proof.
  intros Hd. unfold hex_char, hex_digit.
  destruct (d <? 10) eqn:H10.
  - apply Z.ltb_lt in H10.
    replace ((48 <=? 48 + d) && (48 + d <=? 57)) with true
      by (symmetry; apply andb_true_iff; split; apply Z.leb_le; lia).
    f_equal. lia.
  - apply Z.ltb_ge in H10.
    replace ((48 <=? 55 + d) && (55 + d <=? 57)) with false
      by (symmetry; apply andb_false_iff; right; apply Z.leb_gt; lia).
    replace ((65 <=? 55 + d) && (55 + d <=? 70)) with true
      by (symmetry; apply andb_true_iff; split; apply Z.leb_le; lia).
    f_equal. lia.
Qed.

Lemma ParseHexOctet_escape (o : Z) :
  0 <= o < 256 ->
  ParseHexOctet (hex_char ((o / 16) mod 16)) (hex_char (o mod 16)) = Some o.
Proof.
  intros Ho. unfold ParseHexOctet.
  rewrite !hex_digit_hex_char by (apply Z.mod_pos_bound; lia).
  f_equal. Z.div_mod_to_equations. lia.
Qed.

Lemma leading_ones_cases (B : Z) :
  (B < 0x80 -> leading_ones B = 0%nat)
  /\ (0xC0 <= B < 0xE0 -> leading_ones B = 2%nat)
  /\ (0xE0 <= B < 0xF0 -> leading_ones B = 3%nat)
  /\ (0xF0 <= B < 0xF8 -> leading_ones B = 4%nat).
Proof.
  unfold leading_ones.
  repeat split; intros H;
    repeat match goal with
           | |- context [?a <? ?b] =>
               destruct (Z.ltb_spec a b); try lia
           end; reflexivity.
Qed.

Lemma utf8_octets_range (cp : Z) :
  0 <= cp < 0x110000 -> Forall (fun o => 0 <= o < 256) (utf8_octets cp).
Proof.
  intros Hcp. unfold utf8_octets.
  repeat match goal with
         | |- context [?a <? ?b] => destruct (Z.ltb_spec a b)
         end;
    repeat constructor; Z.div_mod_to_equations; lia.
Qed.

Lemma utf8_code_point_octets (cp : Z) :
  0x80 <= cp < 0x110000 ->
  ~ (0xD800 <= cp <= 0xDFFF) ->
  exists B rest,
    utf8_octets cp = B :: rest
    /\ leading_ones B = S (List.length rest)
    /\ (1 <= List.length rest <= 3)%nat
    /\ utf8_code_point (B :: rest) = Some cp.
Proof.
  intros Hcp Hsur. unfold utf8_octets.
  assert (Hchecked : forall lo,
             lo <= cp ->
             (if (lo <=? cp) && (cp <=? 0x10FFFF)
                 && negb ((0xD800 <=? cp) && (cp <=? 0xDFFF))
              then Some cp else None) = Some cp).
  { intros lo Hlo.
    replace (lo <=? cp) with true by (symmetry; apply Z.leb_le; lia).
    replace (cp <=? 0x10FFFF) with true by (symmetry; apply Z.leb_le; lia).
    replace ((0xD800 <=? cp) && (cp <=? 0xDFFF)) with false; [reflexivity|].
    symmetry. apply andb_false_iff.
    destruct (Z.leb_spec 0xD800 cp); [|left; reflexivity].
    right. apply Z.leb_gt. lia. }
  assert (Hcont : forall x, (0x80 <=? 0x80 + x mod 64)
                            && (0x80 + x mod 64 <=? 0xBF) = true).
  { intros x. pose proof (Z.mod_pos_bound x 64 ltac:(lia)).
    apply andb_true_iff. split; apply Z.leb_le; lia. }
  destruct (Z.ltb_spec cp 0x80); [lia|].
  destruct (Z.ltb_spec cp 0x800); [|destruct (Z.ltb_spec cp 0x10000)].
  - eexists _, _. split; [reflexivity|].
    split; [apply leading_ones_cases; Z.div_mod_to_equations; lia|].
    split; [cbn; lia|].
    unfold utf8_code_point. rewrite Hcont.
    replace ((0xC0 + cp / 64 - 0xC0) * 64 + (0x80 + cp mod 64 - 0x80)) with cp
      by (Z.div_mod_to_equations; lia).
    apply Hchecked. lia.
  - eexists _, _. split; [reflexivity|].
    split; [apply leading_ones_cases; Z.div_mod_to_equations; lia|].
    split; [cbn; lia|].
    unfold utf8_code_point. rewrite !Hcont. cbn [andb].
    replace (((0xE0 + cp / 4096 - 0xE0) * 64
              + (0x80 + (cp / 64) mod 64 - 0x80)) * 64
             + (0x80 + cp mod 64 - 0x80)) with cp
      by (Z.div_mod_to_equations; lia).
    apply Hchecked. lia.
  - eexists _, _. split; [reflexivity|].
    split; [apply leading_ones_cases; Z.div_mod_to_equations; lia|].
    split; [cbn; lia|].
    unfold utf8_code_point. rewrite !Hcont. cbn [andb].
    replace ((((0xF0 + cp / 262144 - 0xF0) * 64
               + (0x80 + (cp / 4096) mod 64 - 0x80)) * 64
              + (0x80 + (cp / 64) mod 64 - 0x80)) * 64
             + (0x80 + cp mod 64 - 0x80)) with cp
      by (Z.div_mod_to_equations; lia).
    apply Hchecked. lia.
Qed.

Lemma continuation_octets_escape (octets : list Z) (R : jsstring) :
  Forall (fun o => 0 <= o < 256) octets ->
  continuation_octets (List.length octets) (flat_map escape octets ++ R)
  = Some (octets, R).
Proof.
  induction 1 as [|o octets Ho _ IH]; [reflexivity|].
  cbn [List.length flat_map escape app continuation_octets].
  change (37 =? 37) with true. cbn iota.
  rewrite (ParseHexOctet_escape o Ho), IH. reflexivity.
Qed.

Lemma Decode_percent (fuel : nat) (a b : Z) (rest : jsstring) :
  Decode (S fuel) (37 :: a :: b :: rest)
  = match ParseHexOctet a b with
    | None => Throws URIError
    | Some B =>
        match leading_ones B with
        | O => bind (Decode fuel rest) (fun R => Returns (B :: R))
        | S O => Throws URIError
        | S (S (S (S (S _)))) => Throws URIError
        | S m =>
            match continuation_octets m rest with
            | None => Throws URIError
            | Some (octets, rest') =>
                match utf8_code_point (B :: octets) with
                | None => Throws URIError
                | Some V =>
                    bind (Decode fuel rest')
                         (fun R => Returns (UTF16EncodeCodePoint V ++ R))
                end
            end
        end
    end.
Proof. reflexivity. Qed.

Lemma decodeURIComponent_plain (c : Z) (R : jsstring) :
  c <> 37 ->
  decodeURIComponent (c :: R)
  = bind (decodeURIComponent R) (fun r => Returns (c :: r)).
Proof.
  intros Hc. unfold decodeURIComponent. cbn [List.length Decode].
  replace (c =? 37) with false by (symmetry; apply Z.eqb_neq; exact Hc).
  reflexivity.
Qed.

Lemma decodeURIComponent_escape (o : Z) (R : jsstring) :
  0 <= o < 0x80 ->
  decodeURIComponent (escape o ++ R)
  = bind (decodeURIComponent R) (fun r => Returns (o :: r)).
Proof.
  intros Ho. unfold decodeURIComponent.
  cbn [escape app List.length]. rewrite Decode_percent.
  rewrite ParseHexOctet_escape by lia.
  rewrite (proj1 (leading_ones_cases o)) by lia.
  rewrite (Decode_fuel (S (S (List.length R))) R) by lia. reflexivity.
Qed.

Lemma decodeURIComponent_sequence (cp : Z) (R : jsstring) :
  0x80 <= cp < 0x110000 ->
  ~ (0xD800 <= cp <= 0xDFFF) ->
  decodeURIComponent (flat_map escape (utf8_octets cp) ++ R)
  = bind (decodeURIComponent R)
         (fun r => Returns (UTF16EncodeCodePoint cp ++ r)).
Proof.
  intros Hcp Hsur.
  pose proof (utf8_octets_range cp ltac:(lia)) as Hrange.
  destruct (utf8_code_point_octets cp Hcp Hsur)
    as (B & rest & Hoct & Hlead & Hlen & Hpoint).
  rewrite Hoct in *. apply Forall_cons_iff in Hrange as [HB Hrest].
  pose proof (continuation_octets_escape rest R Hrest) as Hcont.
  unfold decodeURIComponent.
  change (flat_map escape (B :: rest) ++ R)
    with (37 :: hex_char ((B / 16) mod 16) :: hex_char (B mod 16)
             :: (flat_map escape rest ++ R)).
  set (tail := flat_map escape rest ++ R) in *.
  assert (Htail : (List.length R <= List.length tail)%nat)
    by (unfold tail; rewrite length_app; lia).
  cbn [List.length]. rewrite Decode_percent.
  rewrite (ParseHexOctet_escape B HB), Hlead.
  destruct rest as [|o1 [|o2 [|o3 [|o4 rest]]]]; cbn [List.length] in *;
    try lia; rewrite Hcont, Hpoint;
    rewrite (Decode_fuel (S (S (List.length tail))) R) by lia; reflexivity.
Qed.

Lemma unescaped_plain (c : Z) : unescaped c = true -> c <> 37.
Proof. intros H ->. vm_compute in H. discriminate. Qed.

(** [decodeURIComponent] undoes [encodeURIComponent], which accepts
    every well-formed string. *)
Lemma encodeURIComponent_inverse (s : jsstring) :
  well_formed s ->
  exists e,
    encodeURIComponent s = Returns e /\ decodeURIComponent e = Returns s.
Proof.
  induction s as [s IH] using (induction_ltof1 _ (@List.length Z)).
  unfold ltof in IH.
  destruct s as [|c rest]; intros Hwf.
  - exists []. split; reflexivity.
  - cbn [well_formed] in Hwf. destruct Hwf as [Hc Hwf].
    cbn [encodeURIComponent].
    destruct (unescaped c) eqn:Hun.
    { destruct (is_lead c) eqn:Hlead.
      - exfalso. unfold is_lead in Hlead.
        apply andb_true_iff in Hlead as [H1 H2].
        apply Z.leb_le in H1, H2.
        assert (Hrange : 0xD800 <= c <= 0xDBFF) by lia.
        clear -Hun Hrange. unfold unescaped in Hun. cbn [existsb str] in Hun.
        repeat (apply orb_true_iff in Hun as [Hun|Hun]);
          rewrite ?andb_true_iff, ?Z.leb_le, ?Z.eqb_eq in Hun;
          cbn in Hun; try lia; try discriminate.
      - destruct Hwf as [_ Hwf].
        destruct (IH rest ltac:(cbn; lia) Hwf) as (e & -> & Hd).
        cbn [bind]. eexists. split; [reflexivity|].
        rewrite (decodeURIComponent_plain c e (unescaped_plain c Hun)), Hd.
        reflexivity. }
    destruct (is_lead c) eqn:Hlead.
    + destruct rest as [|d rest']; [contradiction|].
      destruct Hwf as [Htrail Hwf]. rewrite Htrail.
      destruct (IH rest' ltac:(cbn; lia) Hwf) as (e & -> & Hd).
      cbn [bind]. eexists. split; [reflexivity|].
      unfold is_lead in Hlead. unfold is_trail in Htrail.
      apply andb_true_iff in Hlead as [H1 H2].
      apply andb_true_iff in Htrail as [H3 H4].
      apply Z.leb_le in H1, H2, H3, H4.
      rewrite decodeURIComponent_sequence, Hd by lia. cbn [bind].
      unfold UTF16EncodeCodePoint.
      replace (_ <=? 0xFFFF) with false by (symmetry; apply Z.leb_gt; lia).
      do 2 f_equal; cbn [app]; f_equal; [|f_equal];
        Z.div_mod_to_equations; lia.
    + destruct Hwf as [Htrail Hwf]. rewrite Htrail.
      destruct (IH rest ltac:(cbn; lia) Hwf) as (e & -> & Hd).
      cbn [bind]. eexists. split; [reflexivity|].
      assert (Hsur : ~ (0xD800 <= c <= 0xDFFF)).
      { unfold is_lead in Hlead. unfold is_trail in Htrail.
        apply andb_false_iff in Hlead, Htrail.
        rewrite !Z.leb_gt in Hlead, Htrail. lia. }
      destruct (Z.ltb_spec c 0x80) as [Hsmall|Hlarge].
      * unfold utf8_octets.
        replace (c <? 0x80) with true by (symmetry; apply Z.ltb_lt; lia).
        cbn [flat_map]. rewrite app_nil_r.
        rewrite decodeURIComponent_escape, Hd by lia. reflexivity.
      * rewrite decodeURIComponent_sequence, Hd by lia. cbn [bind].
        unfold UTF16EncodeCodePoint.
        replace (c <=? 0xFFFF) with true by (symmetry; apply Z.leb_le; lia).
        reflexivity.
Qed.

End EncodingFacts.

Section EncodedText.

Lemma unescaped_hex_char (d : Z) : 0 <= d < 16 -> unescaped (hex_char d) = true.
Proof.
  intros Hd.
  assert (H : In d [0; 1; 2; 3; 4; 5; 6; 7; 8; 9; 10; 11; 12; 13; 14; 15])
    by (cbn; lia).
  cbn [In] in H.
  repeat (destruct H as [<-|H]; [reflexivity|]). contradiction.
Qed.

(** What an encoded text is made of: the characters left as they are,
    and [%]. *)
Lemma encodeURIComponent_characters (s : jsstring) :
  forall e,
    encodeURIComponent s = Returns e ->
    Forall (fun c => unescaped c = true \/ c = 37) e.
Proof.
  induction s as [s IH] using (induction_ltof1 _ (@List.length Z)).
  unfold ltof in IH. intros e.
  assert (Hescape : forall octets R,
             Forall (fun c => unescaped c = true \/ c = 37) R ->
             Forall (fun c => unescaped c = true \/ c = 37)
                    (flat_map escape octets ++ R)).
  { intros octets R HR. induction octets as [|o octets IHo]; [exact HR|].
    cbn [flat_map escape app].
    constructor; [right; reflexivity|].
    constructor; [left; apply unescaped_hex_char, Z.mod_pos_bound; lia|].
    constructor; [left; apply unescaped_hex_char, Z.mod_pos_bound; lia|].
    exact IHo. }
  destruct s as [|c rest]; cbn [encodeURIComponent].
  - intros [= <-]. constructor.
  - destruct (unescaped c) eqn:Hun.
    + destruct (encodeURIComponent rest) as [R|] eqn:HR; cbn [bind];
        [|discriminate].
      intros [= <-]. constructor; [left; exact Hun|].
      apply (IH rest); [cbn; lia|exact HR].
    + destruct (is_lead c).
      * destruct rest as [|d rest']; [discriminate|].
        destruct (is_trail d); [|discriminate].
        destruct (encodeURIComponent rest') as [R|] eqn:HR; cbn [bind];
          [|discriminate].
        intros [= <-]. apply Hescape, (IH rest'); [cbn; lia|exact HR].
      * destruct (is_trail c); [discriminate|].
        destruct (encodeURIComponent rest) as [R|] eqn:HR; cbn [bind];
          [|discriminate].
        intros [= <-]. apply Hescape, (IH rest); [cbn; lia|exact HR].
Qed.

Lemma encodeURIComponent_no_ampersand (s e : jsstring) :
  encodeURIComponent s = Returns e -> Forall (fun c => c <> 38) e.
Proof.
  intros H. apply encodeURIComponent_characters in H.
  eapply Forall_impl; [|exact H].
  intros c [Hc| ->]; [|discriminate].
  intros ->. vm_compute in Hc. discriminate.
Qed.

Lemma split_whole (separator : Z) (a : jsstring) :
  Forall (fun c => c <> separator) a -> split_at separator a = [a].
Proof.
  induction 1 as [|c a Hc _ IH]; [reflexivity|].
  cbn [split_at]. rewrite IH.
  replace (c =? separator) with false by (symmetry; apply Z.eqb_neq; exact Hc).
  reflexivity.
Qed.

Lemma split_piece (separator : Z) (a b : jsstring) :
  Forall (fun c => c <> separator) a ->
  split_at separator (a ++ separator :: b) = a :: split_at separator b.
Proof.
  induction 1 as [|c a Hc _ IH]; cbn [app split_at].
  - rewrite Z.eqb_refl. reflexivity.
  - rewrite IH.
    replace (c =? separator) with false by (symmetry; apply Z.eqb_neq; exact Hc).
    reflexivity.
Qed.

Lemma literal_no_ampersand (literal e : jsstring) :
  forallb (fun c => negb (c =? 38)) literal = true ->
  Forall (fun c => c <> 38) e ->
  Forall (fun c => c <> 38) (literal ++ e).
Proof.
  intros Hl He. apply Forall_app. split; [|exact He].
  apply Forall_forall. intros c Hc.
  rewrite forallb_forall in Hl. specialize (Hl c Hc).
  apply negb_true_iff, Z.eqb_neq in Hl. exact Hl.
Qed.

Lemma add_body_fields (password name secret : jsstring) :
  Forall (fun c => c <> 38) password ->
  Forall (fun c => c <> 38) name ->
  Forall (fun c => c <> 38) secret ->
  split_at 38 (str "password=" ++ password ++ str "&action=add&name="
            ++ name ++ str "&secret=" ++ secret)
  = [str "password=" ++ password; str "action=add";
     str "name=" ++ name; str "secret=" ++ secret].
Proof.
  intros Hp Hn Hs.
  change (str "&action=add&name=" ++ name ++ str "&secret=" ++ secret)
    with (38 :: str "action=add" ++ 38 :: str "name=" ++ name
             ++ 38 :: str "secret=" ++ secret).
  rewrite (app_assoc (str "password=") password).
  rewrite split_piece by (apply literal_no_ampersand; [reflexivity|exact Hp]).
  rewrite split_piece
    by (rewrite <- (app_nil_r (str "action=add"));
        apply literal_no_ampersand; [reflexivity|constructor]).
  rewrite (app_assoc (str "name=") name).
  rewrite split_piece by (apply literal_no_ampersand; [reflexivity|exact Hn]).
  rewrite split_whole by (apply literal_no_ampersand; [reflexivity|exact Hs]).
  reflexivity.
Qed.

Variable URL_new : jsstring -> outcome URL.
Variable builtin_message : exn -> jsstring.
Variable PASSWORD : jsstring.

Local Notation "'page_add'" := (Client.add URL_new builtin_message PASSWORD).

Lemma submit_fetch (n s body : jsstring) :
  submit PASSWORD n s = Returns (Fetch body) ->
  n <> [] /\ s <> []
  /\ exists password name secret,
       encodeURIComponent PASSWORD = Returns password
       /\ encodeURIComponent n = Returns name
       /\ encodeURIComponent s = Returns secret
       /\ body = str "password=" ++ password ++ str "&action=add&name="
                 ++ name ++ str "&secret=" ++ secret
       /\ split_at 38 body
          = [str "password=" ++ password; str "action=add";
             str "name=" ++ name; str "secret=" ++ secret].
Proof.
  unfold submit.
  destruct n as [|c n]; [discriminate|].
  destruct s as [|d s]; [discriminate|].
  cbn [Worker.is_empty orb].
  destruct (encodeURIComponent PASSWORD) as [password|] eqn:Hp; [|discriminate].
  destruct (encodeURIComponent (c :: n)) as [name|] eqn:Hn; [|discriminate].
  destruct (encodeURIComponent (d :: s)) as [secret|] eqn:Hs; [|discriminate].
  cbn [bind]. intros [= <-].
  split; [discriminate|]. split; [discriminate|].
  exists password, name, secret.
  do 4 (split; [reflexivity|]).
  apply encodeURIComponent_no_ampersand in Hp, Hn, Hs.
  exact (add_body_fields password name secret Hp Hn Hs).
Qed.

(** X15.  What [add] sends.  Whatever the two fields hold, a request
    goes out only with a name and a secret that are not empty, and its
    body splits at [&] into the four fields [password], [action=add],
    [name] and [secret], in this order; no character typed can add or
    cut a field.  The secret is the trimmed field, and the name the
    trimmed name field, unless the trimmed secret field begins with
    [otpauth://]: then the secret is the [secret] parameter of the
    parsed URL and the name is the trimmed name field or, when that is
    empty, the label, else the issuer, else [未命名]. *)
Theorem add_fetch (name_field secret_field body : jsstring) :
  page_add name_field secret_field = Returns (Fetch body) ->
  exists n s password name secret,
    n <> [] /\ s <> []
    /\ encodeURIComponent PASSWORD = Returns password
    /\ encodeURIComponent n = Returns name
    /\ encodeURIComponent s = Returns secret
    /\ body = str "password=" ++ password ++ str "&action=add&name="
              ++ name ++ str "&secret=" ++ secret
    /\ split_at 38 body
       = [str "password=" ++ password; str "action=add";
          str "name=" ++ name; str "secret=" ++ secret]
    /\ ((startsWith (trim secret_field) (str "otpauth://") = false
         /\ n = trim name_field /\ s = trim secret_field)
        \/ (exists parsed,
              startsWith (trim secret_field) (str "otpauth://") = true
              /\ parseOtpAuthUrl URL_new (trim secret_field) = Returns parsed
              /\ OtpAuth.secret parsed = Some s
              /\ n = if Worker.is_empty (trim name_field)
                     then fallback_name parsed else trim name_field)).
Proof.
  unfold Client.add.
  destruct (startsWith (trim secret_field) (str "otpauth://")) eqn:Hstart.
  - destruct (parseOtpAuthUrl URL_new (trim secret_field)) as [parsed|e] eqn:Hp;
      [|discriminate].
    destruct (OtpAuth.secret parsed) as [[|c s]|] eqn:Hs; try discriminate.
    intros H. apply submit_fetch in H
      as (Hn & Hne & password & name & secret & H1 & H2 & H3 & H4 & H5).
    exists (if Worker.is_empty (trim name_field)
            then fallback_name parsed else trim name_field),
      (c :: s), password, name, secret.
    repeat (split; [assumption|]).
    right. exists parsed. repeat (split; [first [assumption|reflexivity]|]).
    reflexivity.
  - intros H. apply submit_fetch in H
      as (Hn & Hne & password & name & secret & H1 & H2 & H3 & H4 & H5).
    exists (trim name_field), (trim secret_field), password, name, secret.
    repeat (split; [assumption|]).
    left. repeat split.
Qed.

(** X16.  A label comes back from its percent-encoding: when the path
    of an [otpauth://totp/] URL is [/] followed by
    [encodeURIComponent] of a string in which every surrogate has its
    partner, the parser returns that string as the label, with the
    [secret] and [issuer] parameters of the URL. *)
Theorem parseOtpAuthUrl_label_round_trip (url name encoded : jsstring)
        (u : URL) :
  well_formed name ->
  encodeURIComponent name = Returns encoded ->
  URL_new url = Returns u ->
  protocol u = str "otpauth:" ->
  hostname u = str "totp" ->
  pathname u = 47 :: encoded ->
  parseOtpAuthUrl URL_new url
  = Returns (mkParsed name
               (property (searchParams u) (str "secret") None)
               (property (searchParams u) (str "issuer") None)).
Proof.
  intros Hwf Hencoded Hu Hproto Hhost Hpath.
  destruct (encodeURIComponent_inverse name Hwf) as (e & He & Hd).
  rewrite Hencoded in He. injection He as <-.
  unfold parseOtpAuthUrl. rewrite Hu. cbn [bind].
  rewrite Hproto, Hhost, Hpath.
  replace (jsstring_eqb (str "otpauth:") (str "otpauth:")) with true
    by reflexivity.
  replace (jsstring_eqb (str "totp") (str "totp")) with true by reflexivity.
  cbn [negb slice1 skipn]. rewrite Hd. reflexivity.
Qed.

End EncodedText.

Lemma add_fetch_witness :
  exists n s password name secret,
    n <> [] /\ s <> []
    /\ encodeURIComponent (str "hunter2") = Returns password
    /\ encodeURIComponent n = Returns name
    /\ encodeURIComponent s = Returns secret
    /\ str "password=hunter2&action=add&name=Example%3Aalice%40site.com&secret=JBSWY3DPEHPK3PXP"
       = str "password=" ++ password ++ str "&action=add&name="
         ++ name ++ str "&secret=" ++ secret
    /\ split_at 38
         (str "password=hunter2&action=add&name=Example%3Aalice%40site.com&secret=JBSWY3DPEHPK3PXP")
       = [str "password=" ++ password; str "action=add";
          str "name=" ++ name; str "secret=" ++ secret]
    /\ ((startsWith
           (trim (str " otpauth://totp/Example:alice@site.com?secret=JBSWY3DPEHPK3PXP&issuer=Example "))
           (str "otpauth://") = false
         /\ n = trim []
         /\ s = trim (str " otpauth://totp/Example:alice@site.com?secret=JBSWY3DPEHPK3PXP&issuer=Example "))
        \/ (exists parsed,
              startsWith
                (trim (str " otpauth://totp/Example:alice@site.com?secret=JBSWY3DPEHPK3PXP&issuer=Example "))
                (str "otpauth://") = true
              /\ parseOtpAuthUrl scenario_URL_new
                   (trim (str " otpauth://totp/Example:alice@site.com?secret=JBSWY3DPEHPK3PXP&issuer=Example "))
                 = Returns parsed
              /\ OtpAuth.secret parsed = Some s
              /\ n = if Worker.is_empty (trim [])
                     then fallback_name parsed else trim [])).
Proof.
  refine (add_fetch scenario_URL_new scenario_message (str "hunter2") []
            (str " otpauth://totp/Example:alice@site.com?secret=JBSWY3DPEHPK3PXP&issuer=Example ")
            _ _).
  vm_compute. reflexivity.
Defined.

Lemma parseOtpAuthUrl_label_round_trip_witness :
  parseOtpAuthUrl label_URL_new
    (str "otpauth://totp/%E6%9C%AA%20a?secret=JBSWY3DPEHPK3PXP&issuer=Example")
  = Returns (mkParsed (text "未 a") (Some (str "JBSWY3DPEHPK3PXP"))
               (Some (str "Example"))).
Proof.
  refine (parseOtpAuthUrl_label_round_trip label_URL_new
            (str "otpauth://totp/%E6%9C%AA%20a?secret=JBSWY3DPEHPK3PXP&issuer=Example")
            (text "未 a") (str "%E6%9C%AA%20a")
            (mkURL (str "otpauth:") (str "totp") (str "/%E6%9C%AA%20a")
               [(str "secret", str "JBSWY3DPEHPK3PXP");
                (str "issuer", str "Example")])
            _ _ eq_refl eq_refl eq_refl eq_refl).
  - cbn. repeat split; lia.
  - vm_compute. reflexivity.
Defined.

(* ================================================================== *)
(** ** The page of a store the handler wrote *)
(* ================================================================== *)

Section AcceptedStore.
Variable UnicodeUpper : Z -> list Z.
Variable hmac_sign : string -> list byte -> list byte -> outcome (list byte).
Variable builtin_message : exn -> jsstring.
Variable kv : Type.
Variable KV_put : kv -> jsstring -> jsstring -> outcome unit * kv.
Variable KV_delete : kv -> jsstring -> outcome unit * kv.
Variable KV_list : kv -> outcome (list jsstring).
Variable KV_get : kv -> jsstring -> outcome (option jsstring).
Variable passwordFormHtml : jsstring.
Variables page_head page_add page_remove page_tail : jsstring.
Variable clock : nat -> Z.

Local Notation "'handle'" :=
  (handleRequest UnicodeUpper hmac_sign builtin_message kv KV_put KV_delete
     KV_list KV_get passwordFormHtml page_head page_add page_remove page_tail
     clock).
Local Notation "'construct'" := (TOTP_constructor UnicodeUpper).
Local Notation "'valid'" := (accepted UnicodeUpper kv KV_get).
Local Notation "'loop'" :=
  (appHtml_loop UnicodeUpper hmac_sign builtin_message clock).
Local Notation "'read'" := (read_keys kv KV_get).

Lemma set_property_In (ps : list (jsstring * option jsstring))
      (name : jsstring) (value : option jsstring)
      (n : jsstring) (v : option jsstring) :
  In (n, v) (set_property ps name value) ->
  In (n, v) ps \/ (n = name /\ v = value).
Proof.
  induction ps as [|[k w] ps IH]; cbn [set_property].
  - intros [[= <- <-]|[]]. right. split; reflexivity.
  - destruct (jsstring_eqb k name) eqn:Hk.
    + apply jsstring_eqb_eq in Hk. subst k.
      intros [[= <- <-]|Hin]; [right; split; reflexivity|left; right; exact Hin].
    + intros [Heq|Hin]; [left; left; exact Heq|].
      destruct (IH Hin) as [H|H]; [left; right; exact H|right; exact H].
Qed.

Lemma assign_In (o : object) (name : jsstring) (value : option jsstring)
      (n : jsstring) (v : option jsstring) :
  In (n, v) (properties (assign o name value)) ->
  In (n, v) (properties o) \/ (n = name /\ v = value).
Proof.
  unfold assign.
  destruct (inherits o && jsstring_eqb name (str "__proto__")).
  - destruct value; cbn [properties]; intros H; left; exact H.
  - cbn [properties]. apply set_property_In.
Qed.

Lemma read_keys_In (store : kv) (keys : list jsstring) :
  forall o o',
    read store keys o = Returns o' ->
    forall n v,
      In (n, v) (properties o') ->
      In (n, v) (properties o)
      \/ (In n keys /\ KV_get store n = Returns v).
Proof.
  induction keys as [|name rest IH]; intros o o'; cbn [read_keys].
  - intros [= <-] n v H. left. exact H.
  - destruct (KV_get store name) as [value|e] eqn:Hget; cbn [bind];
      [|discriminate].
    intros Hread n v Hin.
    destruct (IH _ _ Hread n v Hin) as [Hold|[Hn Hv]].
    + destruct (assign_In _ _ _ _ _ Hold) as [H|[-> ->]]; [left; exact H|].
      right. split; [left; reflexivity|exact Hget].
    + right. split; [right; exact Hn|exact Hv].
Qed.

Lemma for_in_Permutation (o : object) : Permutation (for_in o) (properties o).
Proof.
  unfold for_in.
  rewrite (Permutation_map snd (sort_index_Permutation (indexed (properties o)))).
  apply indexed_named_Permutation.
Qed.

(** The loop over entries that all hold a Base32 text. *)
Lemma appHtml_loop_Base32 (P : jsstring -> jsstring -> Prop)
      (entries : list (jsstring * option jsstring)) :
  (forall key message,
      key <> [] -> exists digest, hmac_sign "SHA-1" key message = Returns digest) ->
  Forall (fun entry =>
            exists secret,
              snd entry = Some secret /\ P (fst entry) secret
              /\ Forall in_alphabet (normalize UnicodeUpper secret)) entries ->
  forall readings html,
  exists fragments,
    loop entries readings html = html ++ concat fragments
    /\ Forall (fun fragment =>
                 exists name secret,
                   P name secret
                   /\ ((exists token,
                           List.length token = 6%nat /\ Forall is_digit token
                           /\ fragment = item_fragment name token)
                       \/ ((List.length (normalize UnicodeUpper secret) <= 1)%nat
                           /\ exists e,
                               fragment
                               = error_fragment name
                                   (message builtin_message e))))
              fragments.
Proof.
  intros Hsign Hall.
  induction Hall as [|[name value] rest (secret & Hvalue & HP & Halpha) _ IH];
    intros readings html.
  - exists []. cbn. rewrite app_nil_r. split; [reflexivity|constructor].
  - cbn [snd fst] in *. subst value. cbn [appHtml_loop new_TOTP].
    destruct (TOTP_constructor_cases UnicodeUpper secret)
      as [[_ Hc]|[Hex _]]; [|exfalso; exact (alphabet_exclusive _ Halpha Hex)].
    rewrite Hc.
    destruct (generate hmac_sign _ (clock readings)) as [token|e] eqn:Hg.
    + destruct (IH (S readings) (html ++ item_fragment name token))
        as (fragments & -> & Hf).
      exists (item_fragment name token :: fragments).
      split; [cbn [concat]; rewrite <- app_assoc; reflexivity|].
      constructor; [|exact Hf].
      exists name, secret. split; [exact HP|]. left. exists token.
      destruct (generate_six_digits hmac_sign (mkTOTP _ 30 6 "SHA-1") _ _
                  eq_refl Hg) as [Hlen Hdig].
      split; [exact Hlen|]. split; [exact Hdig|reflexivity].
    + destruct (IH (S readings)
                  (html ++ error_fragment name (message builtin_message e)))
        as (fragments & -> & Hf).
      exists (error_fragment name (message builtin_message e) :: fragments).
      split; [cbn [concat]; rewrite <- app_assoc; reflexivity|].
      constructor; [|exact Hf].
      exists name, secret. split; [exact HP|]. right.
      split; [|exists e; reflexivity].
      unfold generate in Hg. rewrite generateOTP_steps in Hg.
      cbn [algorithm Totp.secret] in Hg.
      destruct (reference_decode (normalize UnicodeUpper secret) [])
        as [|b key] eqn:Hkey.
      * pose proof (reference_decode_length (normalize UnicodeUpper secret) []
                      ltac:(cbn; lia)) as Hlen.
        rewrite Hkey in Hlen. cbn [List.length] in Hlen.
        rewrite Nat.add_0_l in Hlen.
        destruct (List.length (normalize UnicodeUpper secret))
          as [|[|n]]; [lia|lia|].
        exfalso. symmetry in Hlen.
        apply Nat.div_small_iff in Hlen; lia.
      * exfalso.
        destruct (Hsign (b :: key)
                    ([x00; x00; x00; x00]
                       ++ be32 (counter_at (clock readings) 30 mod 2 ^ 32))
                    ltac:(discriminate)) as (digest & Hd).
        cbn [period] in Hg. rewrite Hd in Hg. discriminate.
Qed.

(** X17.  The page of a store the handler wrote.  When every value of
    the store is a text [add] accepted, the listing resolves with keys
    that all read back, and the platform signs under every key that
    has a byte, the page for [auth=true] holds, between its constant
    parts, nothing but lines of listed keys, and each line is the item
    of its key with a token of six decimal digits, or, only for a
    stored secret of at most one symbol, which is a key without a
    byte, an error line. *)
Theorem handleRequest_page_accepted (request : Request) (env : Env kv)
        (keys : list jsstring) :
  method request <> str "POST" ->
  first_value (searchParams (url request)) (str "auth") = Some (str "true") ->
  valid (AUTH_KV kv env) ->
  KV_list (AUTH_KV kv env) = Returns keys ->
  (forall name, In name keys ->
                exists secret, KV_get (AUTH_KV kv env) name = Returns (Some secret)) ->
  (forall key message,
      key <> [] -> exists digest, hmac_sign "SHA-1" key message = Returns digest) ->
  exists fragments,
    handle request env
    = (Returns (html_response
                  (page_head ++ concat fragments ++ page_add
                   ++ interpolate (ACCESS_PASSWORD kv env) ++ page_remove
                   ++ interpolate (ACCESS_PASSWORD kv env) ++ page_tail)),
       AUTH_KV kv env)
    /\ Forall (fun fragment =>
                 exists name secret,
                   (In name keys
                    /\ KV_get (AUTH_KV kv env) name = Returns (Some secret))
                   /\ ((exists token,
                           List.length token = 6%nat /\ Forall is_digit token
                           /\ fragment = item_fragment name token)
                       \/ ((List.length (normalize UnicodeUpper secret) <= 1)%nat
                           /\ exists e,
                               fragment
                               = error_fragment name
                                   (message builtin_message e))))
              fragments.
Proof.
  intros Hm Hauth Hvalid Hlist Hget Hsign.
  assert (Hmethod : jsstring_eqb (method request) (str "POST") = false).
  { destruct (jsstring_eqb _ _) eqn:H; [|reflexivity].
    apply jsstring_eqb_eq in H. contradiction. }
  unfold handleRequest. rewrite Hmethod, Hauth, Hlist.
  replace (strict_equal (Some (str "true")) (Some (str "true"))) with true
    by reflexivity.
  cbn [negb bind].
  destruct (read_keys_resolves kv KV_get (AUTH_KV kv env) keys) with
    (totpKeys := empty_object) as (o & Hread).
  { intros name Hname. destruct (Hget name Hname) as (secret & ->). eauto. }
  rewrite Hread. cbn [bind]. unfold appHtml.
  destruct (appHtml_loop_Base32
              (fun name secret =>
                 In name keys
                 /\ KV_get (AUTH_KV kv env) name = Returns (Some secret))
              (for_in o) Hsign) with (readings := 0%nat) (html := @nil Z)
    as (fragments & Hloop & Hfragments).
  { apply Forall_forall. intros [name value] Hin.
    apply (Permutation_in _ (for_in_Permutation o)) in Hin.
    destruct (read_keys_In _ _ _ _ Hread name value Hin) as [[]|[Hname Hvalue]].
    destruct (Hget name Hname) as (secret & Hsecret).
    assert (value = Some secret) by congruence. subst value.
    exists secret. cbn [fst snd].
    split; [reflexivity|]. split; [split; assumption|].
    destruct (Hvalid name secret Hsecret) as (_ & _ & totp & Htotp).
    destruct (TOTP_constructor_cases UnicodeUpper secret)
      as [[Hall _]|[_ Hc]]; [exact Hall|congruence]. }
  exists fragments. split; [|exact Hfragments].
  rewrite Hloop. reflexivity.
Qed.

End AcceptedStore.

Lemma hmac_sign_accepts (key message : list byte) :
  key <> [] ->
  exists digest, HmacSha1.hmac_sign "SHA-1" key message = Returns digest.
Proof.
  intros Hkey. unfold HmacSha1.hmac_sign.
  destruct key as [|b key]; [contradiction|].
  cbn [String.eqb]. eexists. reflexivity.
Qed.

Lemma handleRequest_page_accepted_witness :
  exists fragments,
    scenario_handle (scenario_get [(str "auth", str "true")]) scenario_env
    = (Returns (html_response
                  (str "<head>" ++ concat fragments ++ str "<add>"
                   ++ str "hunter2" ++ str "<remove>" ++ str "hunter2"
                   ++ str "<tail>")),
       AUTH_KV table scenario_env)
    /\ Forall (fun fragment =>
                 exists name secret,
                   (In name [str "github"]
                    /\ table_get (AUTH_KV table scenario_env) name
                       = Returns (Some secret))
                   /\ ((exists token,
                           List.length token = 6%nat /\ Forall is_digit token
                           /\ fragment = item_fragment name token)
                       \/ ((List.length (normalize caseless secret) <= 1)%nat
                           /\ exists e,
                               fragment
                               = error_fragment name
                                   (Worker.message scenario_message e))))
              fragments.
Proof.
  refine (handleRequest_page_accepted caseless HmacSha1.hmac_sign
            scenario_message table table_put table_delete table_list
            table_get (str "<form>") (str "<head>") (str "<add>")
            (str "<remove>") (str "<tail>") (fun _ => 59000)
            (scenario_get [(str "auth", str "true")]) scenario_env
            [str "github"] _ eq_refl scenario_env_accepted eq_refl _
            hmac_sign_accepts).
  - vm_compute. discriminate.
  - intros name [<-|[]]. eexists. reflexivity.
Defined.

Section RemoveFacts.
Variable PASSWORD : jsstring.

(** X18.  What [remove] sends.  Declined, it sends nothing.  Confirmed,
    with a password and a name in which every surrogate has its
    partner, it sends, for every name, the empty one included, a body
    that splits at [&] into the three fields [password],
    [action=delete] and [key], and [decodeURIComponent] gives the name
    back from the [key] field. *)
Theorem remove_fetch (confirmed : bool) (name : jsstring) :
  well_formed PASSWORD ->
  well_formed name ->
  (confirmed = false -> remove PASSWORD confirmed name = Returns Nothing)
  /\ (confirmed = true ->
      exists password key,
        remove PASSWORD confirmed name
        = Returns (Fetch (str "password=" ++ password
                          ++ str "&action=delete&key=" ++ key))
        /\ split_at 38 (str "password=" ++ password
                        ++ str "&action=delete&key=" ++ key)
           = [str "password=" ++ password; str "action=delete";
              str "key=" ++ key]
        /\ decodeURIComponent password = Returns PASSWORD
        /\ decodeURIComponent key = Returns name).
Proof.
  intros Hpassword Hname. split; [intros ->; reflexivity|].
  intros ->.
  destruct (encodeURIComponent_inverse PASSWORD Hpassword) as (password & Hp & Hdp).
  destruct (encodeURIComponent_inverse name Hname) as (key & Hk & Hdk).
  exists password, key. unfold remove. rewrite Hp, Hk. cbn [negb bind].
  split; [reflexivity|]. split; [|split; assumption].
  apply encodeURIComponent_no_ampersand in Hp, Hk.
  change (str "&action=delete&key=" ++ key)
    with (38 :: str "action=delete" ++ 38 :: str "key=" ++ key).
  rewrite (app_assoc (str "password=") password).
  rewrite split_piece by (apply literal_no_ampersand; [reflexivity|exact Hp]).
  rewrite split_piece
    by (rewrite <- (app_nil_r (str "action=delete"));
        apply literal_no_ampersand; [reflexivity|constructor]).
  rewrite split_whole by (apply literal_no_ampersand; [reflexivity|exact Hk]).
  reflexivity.
Qed.

End RemoveFacts.

Lemma remove_fetch_witness :
  exists password key,
    remove (str "hunter2") true (text "未 a")
    = Returns (Fetch (str "password=" ++ password
                      ++ str "&action=delete&key=" ++ key))
    /\ split_at 38 (str "password=" ++ password
                    ++ str "&action=delete&key=" ++ key)
       = [str "password=" ++ password; str "action=delete";
          str "key=" ++ key]
    /\ decodeURIComponent password = Returns (str "hunter2")
    /\ decodeURIComponent key = Returns (text "未 a").
Proof.
  refine (proj2 (remove_fetch (str "hunter2") true (text "未 a") _ _) eq_refl);
    cbn; repeat split; lia.
Defined.
